(** * pytential: symbolic primitives and the execution engine

    A shallow embedding of [pytential/symbolic/primitives.py] (DOF
    descriptors) and [pytential/symbolic/execution.py] (geometry
    collections, bound expressions, the evaluation mapper, the
    matrix-free operator adapter), followed by the properties proved
    about them.

    Python objects live in a store and are named by their location, so
    that aliasing and in-place mutation of dictionaries are visible.
    Exceptions are values of [exn]; a computation that raises keeps the
    store as it was at the point of the [raise]. *)

From Stdlib Require Import List String Ascii Bool Arith PeanoNat Lia ZArith.
From Stdlib Require Import Sorted Permutation OrderedTypeEx.
Import ListNotations.
Set Warnings "-register-all".
Open Scope string_scope.
Open Scope list_scope.

(** ** Exceptions and results *)

Inductive exn : Type :=
| TypeError (msg : string)
| ValueError (msg : string)
| KeyError (msg : string)
| AttributeError (msg : string)
| AssertionError
| ExternalError (kind : string) (payload : nat).

Inductive result (A : Type) : Type :=
| Ok (a : A)
| Raise (e : exn).
Arguments Ok {A} a.
Arguments Raise {A} e.

Definition result_bind {A B : Type} (r : result A) (k : A -> result B) : result B :=
  match r with
  | Ok a => k a
  | Raise e => Raise e
  end.

(** ** primitives.py: 'where' specifiers and DOF descriptors *)

(** Store locations (object identities). *)
Definition loc : Type := nat.

(** What a [DOMAIN_TAG] wraps, and what names a place in a collection: a
    string, one of the classes [DEFAULT_SOURCE] / [DEFAULT_TARGET], or
    some other hashable object compared by identity. *)
Inductive tag : Type :=
| TagStr (s : string)
| TagDefaultSource
| TagDefaultTarget
| TagObj (id : nat).

Definition tag_eqb (a b : tag) : bool :=
  match a, b with
  | TagStr s, TagStr t => String.eqb s t
  | TagDefaultSource, TagDefaultSource => true
  | TagDefaultTarget, TagDefaultTarget => true
  | TagObj i, TagObj j => Nat.eqb i j
  | _, _ => false
  end.

(** [DOMAIN_TAG] and its three subclasses. *)
Inductive domain_class : Type :=
| DOMAIN_TAG
| QBX_DOMAIN_STAGE1
| QBX_DOMAIN_STAGE2
| QBX_DOMAIN_QUAD_STAGE2.

Definition domain_class_eqb (a b : domain_class) : bool :=
  match a, b with
  | DOMAIN_TAG, DOMAIN_TAG => true
  | QBX_DOMAIN_STAGE1, QBX_DOMAIN_STAGE1 => true
  | QBX_DOMAIN_STAGE2, QBX_DOMAIN_STAGE2 => true
  | QBX_DOMAIN_QUAD_STAGE2, QBX_DOMAIN_QUAD_STAGE2 => true
  | _, _ => false
  end.

(** An instance of [DOMAIN_TAG] (or of a subclass): its class and its
    [tag] attribute. *)
Record domain : Type := mk_domain {
  dom_class : domain_class;
  dom_tag : tag
}.

(** [DOMAIN_TAG.__eq__]: [type(self) is type(other) and self.tag == other.tag]. *)
Definition domain_eq (a b : domain) : bool :=
  domain_class_eqb (dom_class a) (dom_class b) && tag_eqb (dom_tag a) (dom_tag b).

(** The granularity classes [QBX_DOF_NODE], [QBX_DOF_CENTER] and
    [QBX_DOF_ELEMENT]. *)
Inductive granularity : Type :=
| QBX_DOF_NODE
| QBX_DOF_CENTER
| QBX_DOF_ELEMENT.

Definition granularity_eqb (a b : granularity) : bool :=
  match a, b with
  | QBX_DOF_NODE, QBX_DOF_NODE => true
  | QBX_DOF_CENTER, QBX_DOF_CENTER => true
  | QBX_DOF_ELEMENT, QBX_DOF_ELEMENT => true
  | _, _ => false
  end.

Record DOFDescriptor : Type := mk_dofdesc {
  dd_domain : domain;
  dd_granularity : granularity
}.

(** [DOFDescriptor.__eq__]; both sides are descriptors, so the test
    [type(self) is type(other)] holds. *)
Definition DOFDescriptor_eq (a b : DOFDescriptor) : bool :=
  domain_eq (dd_domain a) (dd_domain b)
  && granularity_eqb (dd_granularity a) (dd_granularity b).

(** A geometry object as the [isinstance] tests of execution.py see it.
    The classes themselves ([QBXLayerPotentialSource], [TargetBase],
    [PotentialSource], [Discretization]) are declared outside these
    modules, so an object carries the answer to each test. *)
Record geometry : Type := mk_geometry {
  geo_id : nat;
  is_QBXLayerPotentialSource : bool;
  is_TargetBase : bool;
  is_PotentialSource : bool;
  is_Discretization : bool;
  geo_ambient_dim : nat
}.

(** The Python values that reach the functions below. *)
Inductive pyval : Type :=
| VNone
| VStr (s : string)
| VDefaultSource
| VDefaultTarget
| VDomain (d : domain)
| VGranularity (g : granularity)
| VDesc (d : DOFDescriptor)
| VTuple (items : list pyval)
| VList (items : list pyval)
| VGeom (g : geometry)
| VDict (l : loc)
| VCollection (c : loc)
| VBound (b : loc)
| VObj (id : nat).

(** ** Attributes that execution.py reads and primitives.py does not define

    [DOFDescriptor.__init__] assigns [domain] and [granularity] and
    nothing else; the expression nodes keep what they are given as
    [where]; the granularity classes are called [QBX_DOF_NODE],
    [QBX_DOF_CENTER] and [QBX_DOF_ELEMENT].  None of the classes defines
    [__getattr__], so each of the reads below raises [AttributeError],
    whatever the object is. *)

(** [dofdesc.geometry]. *)
Definition DOFDescriptor_geometry (dofdesc : DOFDescriptor) : result tag :=
  Raise (AttributeError "DOFDescriptor object has no attribute geometry").

(** [dofdesc.discr_stage]. *)
Definition DOFDescriptor_discr_stage (dofdesc : DOFDescriptor) : result pyval :=
  Raise (AttributeError "DOFDescriptor object has no attribute discr_stage").

(** [expr.dofdesc], for a node [expr] of any class of primitives.py. *)
Definition Expression_dofdesc {N A : Type} (node : N) : result A :=
  Raise (AttributeError "object has no attribute dofdesc").

(** [sym.GRANULARITY_NODE] and [sym.GRANULARITY_ELEMENT]. *)
Definition sym_GRANULARITY_NODE : result granularity :=
  Raise (AttributeError "module has no attribute GRANULARITY_NODE").

Definition sym_GRANULARITY_ELEMENT : result granularity :=
  Raise (AttributeError "module has no attribute GRANULARITY_ELEMENT").

(** ** primitives.py: building descriptors *)

(** [DOFDescriptor.__init__(self, domain, granularity=None)]. *)
Definition DOFDescriptor_init (domain_arg granularity_arg : pyval) : result DOFDescriptor :=
  let domain1 :=
    match domain_arg with
    | VDefaultSource => VDomain (mk_domain DOMAIN_TAG TagDefaultSource)
    | VDefaultTarget => VDomain (mk_domain DOMAIN_TAG TagDefaultTarget)
    | VStr s => VDomain (mk_domain DOMAIN_TAG (TagStr s))
    | other => other
    end in
  let granularity1 :=
    match granularity_arg with
    | VNone => VGranularity QBX_DOF_NODE
    | other => other
    end in
  match domain1 with
  | VDomain d =>
      match granularity1 with
      | VGranularity g => Ok (mk_dofdesc d g)
      | _ => Raise (ValueError "unknown granularity")
      end
  | _ => Raise (ValueError "unknown domain tag")
  end.

(** [as_dofdesc(desc)]. *)
Definition as_dofdesc (desc : pyval) : result DOFDescriptor :=
  match desc with
  | VDesc d => Ok d
  | _ => DOFDescriptor_init desc VNone
  end.

(** [cse_scope]: pymbolic's scopes and the one pytential adds. *)
Module cse_scope.
Definition EVALUATION : string := "pymbolic_eval".
Definition EXPRESSION : string := "pymbolic_expr".
Definition GLOBAL : string := "pymbolic_global".
Definition DISCRETIZATION : string := "pytential_discretization".
End cse_scope.

(** ** Symbolic expressions

    The node kinds the properties below talk about.  [Var] and [Sum]
    are handled by the inherited pymbolic evaluator; the other two have
    a [map_...] method in execution.py.  The [extra_vars] dictionary of
    an [IterativeInverse] is kept as its list of items, and its [where]
    is a descriptor. *)

Inductive expr : Type :=
| Var (name : string)
| Sum (a b : expr)
| CommonSubexpression (child : expr) (scope : string)
| IterativeInverse (expression rhs : expr) (variable_name : string)
    (extra_vars : var_items) (where_ : DOFDescriptor)
with var_items : Type :=
| NoVars
| ConsVar (name : string) (e : expr) (rest : var_items).

Scheme expr_mut := Induction for expr Sort Prop
with var_items_mut := Induction for var_items Sort Prop.

(** Equality of expressions as dictionary keys (structural, as
    pymbolic's [Expression.__eq__]). *)
Fixpoint expr_eqb (x y : expr) {struct x} : bool :=
  match x, y with
  | Var n, Var m => String.eqb n m
  | Sum a b, Sum c d => expr_eqb a c && expr_eqb b d
  | CommonSubexpression c s, CommonSubexpression c' s' =>
      expr_eqb c c' && String.eqb s s'
  | IterativeInverse e r n vs d, IterativeInverse e' r' n' vs' d' =>
      expr_eqb e e' && expr_eqb r r' && String.eqb n n'
      && var_items_eqb vs vs' && DOFDescriptor_eq d d'
  | _, _ => false
  end
with var_items_eqb (x y : var_items) {struct x} : bool :=
  match x, y with
  | NoVars, NoVars => true
  | ConsVar n e r, ConsVar n' e' r' =>
      String.eqb n n' && expr_eqb e e' && var_items_eqb r r'
  | _, _ => false
  end.

(** ** The object store *)

(** A places dictionary: insertion-ordered items with distinct keys. *)
Definition pydict : Type := list (tag * pyval).

(** A cache: a dictionary keyed by expressions. *)
Definition cache : Type := list (expr * pyval).

(** The attribute [caches] of a collection or of a bound expression: a
    dictionary from cache names to caches. *)
Definition caches : Type := list (string * cache).

(** The attributes of a [GeometryCollection] instance.  [gc_ambient_dim_memo]
    is the slot [memoize_method] adds for the property [ambient_dim]. *)
Record GeometryCollection : Type := mk_collection {
  gc_places : loc;
  gc_caches : caches;
  gc_auto_where : DOFDescriptor * DOFDescriptor;
  gc_ambient_dim_memo : option nat
}.

(** The attributes of a [BoundExpression] instance.  [be_code] names the
    compiled instruction sequence, an object of the compiler.
    [__init__] does not assign [iprec]; [be_iprec] is [None] until some
    caller sets that attribute, and reading it before raises. *)
Record BoundExpression : Type := mk_bound {
  be_places : loc;
  be_sym_op_expr : expr;
  be_caches : caches;
  be_code : nat;
  be_iprec : option pyval
}.

Record World : Type := mk_world {
  dicts : list pydict;
  collections : list GeometryCollection;
  bound_exprs : list BoundExpression
}.

Definition empty_world : World := mk_world [] [] [].

(** Computations on the store that may raise. *)
Definition M (A : Type) : Type := World -> result A * World.

Definition ret {A : Type} (a : A) : M A := fun w => (Ok a, w).

Definition raise {A : Type} (e : exn) : M A := fun w => (Raise e, w).

Definition bind_M {A B : Type} (m : M A) (k : A -> M B) : M B :=
  fun w =>
    match m w with
    | (Ok a, w') => k a w'
    | (Raise e, w') => (Raise e, w')
    end.

Definition lift {A : Type} (r : result A) : M A := fun w => (r, w).

Declare Scope py_scope.
Delimit Scope py_scope with py.
Notation "x <- m ;; k" := (bind_M m (fun x => k))
  (at level 61, m at next level, right associativity) : py_scope.
Notation "m ;;; k" := (bind_M m (fun _ => k))
  (at level 61, right associativity) : py_scope.
Open Scope py_scope.

(** Runs [f] on each element in turn and stops at the first exception. *)
Fixpoint for_each {A : Type} (f : A -> M unit) (l : list A) : M unit :=
  match l with
  | [] => ret tt
  | a :: rest => f a ;;; for_each f rest
  end.

Fixpoint map_M {A B : Type} (f : A -> M B) (l : list A) : M (list B) :=
  match l with
  | [] => ret []
  | a :: rest => b <- f a ;; bs <- map_M f rest ;; ret (b :: bs)
  end.

(** A location that names nothing; no Python program can hold one. *)
Definition dangling : exn := ExternalError "dangling reference" 0.

Fixpoint update_nth {A : Type} (n : nat) (f : A -> A) (l : list A) : list A :=
  match l, n with
  | [], _ => []
  | a :: rest, O => f a :: rest
  | a :: rest, S m => a :: update_nth m f rest
  end.

(** *** Dictionaries *)

Fixpoint dict_get (k : tag) (d : pydict) : option pyval :=
  match d with
  | [] => None
  | (k', v) :: rest => if tag_eqb k k' then Some v else dict_get k rest
  end.

(** [d[k] = v]: overwrite in place, or append a new item. *)
Fixpoint dict_set (k : tag) (v : pyval) (d : pydict) : pydict :=
  match d with
  | [] => [(k, v)]
  | (k', v') :: rest =>
      if tag_eqb k k' then (k', v) :: rest else (k', v') :: dict_set k v rest
  end.

(** [d.update(other)]. *)
Definition dict_update (d other : pydict) : pydict :=
  fold_left (fun acc kv => dict_set (fst kv) (snd kv) acc) other d.

Definition dict_values (d : pydict) : list pyval := map snd d.
Definition dict_keys (d : pydict) : list tag := map fst d.

Definition alloc_dict (d : pydict) : M loc :=
  fun w => (Ok (List.length (dicts w)),
            mk_world (dicts w ++ [d]) (collections w) (bound_exprs w)).

Definition read_dict (l : loc) : M pydict :=
  fun w =>
    match nth_error (dicts w) l with
    | Some d => (Ok d, w)
    | None => (Raise dangling, w)
    end.

Definition modify_dict (l : loc) (f : pydict -> pydict) : M unit :=
  fun w =>
    match nth_error (dicts w) l with
    | Some _ => (Ok tt, mk_world (update_nth l f (dicts w)) (collections w) (bound_exprs w))
    | None => (Raise dangling, w)
    end.

Definition dict_setitem (l : loc) (k : tag) (v : pyval) : M unit :=
  modify_dict l (dict_set k v).

(** [d.copy()]: a new dictionary object with the same items. *)
Definition dict_copy (l : loc) : M loc :=
  d <- read_dict l ;; alloc_dict d.

(** *** Collections and bound expressions in the store *)

Definition alloc_collection (c : GeometryCollection) : M loc :=
  fun w => (Ok (List.length (collections w)),
            mk_world (dicts w) (collections w ++ [c]) (bound_exprs w)).

Definition read_collection (c : loc) : M GeometryCollection :=
  fun w =>
    match nth_error (collections w) c with
    | Some g => (Ok g, w)
    | None => (Raise dangling, w)
    end.

Definition modify_collection (c : loc) (f : GeometryCollection -> GeometryCollection) : M unit :=
  fun w =>
    match nth_error (collections w) c with
    | Some _ => (Ok tt, mk_world (dicts w) (update_nth c f (collections w)) (bound_exprs w))
    | None => (Raise dangling, w)
    end.

Definition alloc_bound (b : BoundExpression) : M loc :=
  fun w => (Ok (List.length (bound_exprs w)),
            mk_world (dicts w) (collections w) (bound_exprs w ++ [b])).

Definition read_bound (b : loc) : M BoundExpression :=
  fun w =>
    match nth_error (bound_exprs w) b with
    | Some x => (Ok x, w)
    | None => (Raise dangling, w)
    end.

Definition modify_bound (b : loc) (f : BoundExpression -> BoundExpression) : M unit :=
  fun w =>
    match nth_error (bound_exprs w) b with
    | Some _ => (Ok tt, mk_world (dicts w) (collections w) (update_nth b f (bound_exprs w)))
    | None => (Raise dangling, w)
    end.

(** *** Named caches *)

Fixpoint caches_get (name : string) (cs : caches) : option cache :=
  match cs with
  | [] => None
  | (n, c) :: rest => if String.eqb name n then Some c else caches_get name rest
  end.

(** [caches.setdefault(name, {})], as far as the dictionary [caches]
    itself changes. *)
Definition caches_setdefault (name : string) (cs : caches) : caches :=
  match caches_get name cs with
  | Some _ => cs
  | None => cs ++ [(name, [])]
  end.

Fixpoint caches_modify (name : string) (f : cache -> cache) (cs : caches) : caches :=
  match cs with
  | [] => []
  | (n, c) :: rest =>
      if String.eqb name n then (n, f c) :: rest
      else (n, c) :: caches_modify name f rest
  end.

Fixpoint cache_get (k : expr) (c : cache) : option pyval :=
  match c with
  | [] => None
  | (k', v) :: rest => if expr_eqb k k' then Some v else cache_get k rest
  end.

Fixpoint cache_set (k : expr) (v : pyval) (c : cache) : cache :=
  match c with
  | [] => [(k, v)]
  | (k', v') :: rest =>
      if expr_eqb k k' then (k', v) :: rest else (k', v') :: cache_set k v rest
  end.

(** The dictionary object a [get_cache] call returns: the entry [name]
    of the [caches] of one collection or of one bound expression.
    Nothing in execution.py rebinds such an entry, so the pair of owner
    and name identifies the object. *)
Inductive cache_ref : Type :=
| CollectionCache (c : loc) (name : string)
| BoundCache (b : loc) (name : string).

Definition set_gc_caches (cs : caches) (g : GeometryCollection) : GeometryCollection :=
  mk_collection (gc_places g) cs (gc_auto_where g) (gc_ambient_dim_memo g).

Definition set_be_caches (cs : caches) (b : BoundExpression) : BoundExpression :=
  mk_bound (be_places b) (be_sym_op_expr b) cs (be_code b) (be_iprec b).

(** The cache a reference names, if its owner and its name exist. *)
Definition cache_of (r : cache_ref) (w : World) : option cache :=
  match r with
  | CollectionCache c name =>
      match nth_error (collections w) c with
      | Some g => caches_get name (gc_caches g)
      | None => None
      end
  | BoundCache b name =>
      match nth_error (bound_exprs w) b with
      | Some x => caches_get name (be_caches x)
      | None => None
      end
  end.

(** [cache[key]]. *)
Definition cache_getitem (r : cache_ref) (key : expr) : M pyval :=
  fun w =>
    match cache_of r w with
    | Some c =>
        match cache_get key c with
        | Some v => (Ok v, w)
        | None => (Raise (KeyError "cache"), w)
        end
    | None => (Raise dangling, w)
    end.

(** [cache[key] = value]. *)
Definition cache_setitem (r : cache_ref) (key : expr) (value : pyval) : M unit :=
  match r with
  | CollectionCache c name =>
      modify_collection c
        (fun g => set_gc_caches (caches_modify name (cache_set key value) (gc_caches g)) g)
  | BoundCache b name =>
      modify_bound b
        (fun x => set_be_caches (caches_modify name (cache_set key value) (be_caches x)) x)
  end.

(** [try: body  except KeyError: handler]. *)
Definition try_except_KeyError {A : Type} (body handler : M A) : M A :=
  fun w =>
    match body w with
    | (Raise (KeyError _), w') => handler w'
    | other => other
    end.

(** ** execution.py: expression preparation *)

(** [_prepare_auto_where(auto_where, places=None)]; [places] is the
    collection object, of which only [auto_where] is read. *)
Definition _prepare_auto_where (auto_where : pyval) (places : option GeometryCollection)
  : result (DOFDescriptor * DOFDescriptor) :=
  result_bind
    (match auto_where with
     | VNone =>
         match places with
         | None => Ok (VDefaultSource, VDefaultTarget)
         | Some p => Ok (VDesc (fst (gc_auto_where p)), VDesc (snd (gc_auto_where p)))
         end
     | VTuple items | VList items =>
         match items with
         | [auto_source; auto_target] => Ok (auto_source, auto_target)
         | _ => Raise (ValueError "unpack")
         end
     | other => Ok (other, other)
     end)
    (fun st =>
       result_bind (as_dofdesc (fst st)) (fun auto_source =>
       result_bind (as_dofdesc (snd st)) (fun auto_target =>
       Ok (auto_source, auto_target)))).

(** ** execution.py: GeometryCollection *)

(** [pytools.single_valued]: the first item, after asserting that the
    others equal it; an empty iterable is a [ValueError]. *)
Definition single_valued (items : list nat) : result nat :=
  match items with
  | [] => Raise (ValueError "empty iterable passed to single_valued")
  | first_item :: others =>
      if forallb (fun other_item => Nat.eqb other_item first_item) others
      then Ok first_item
      else Raise AssertionError
  end.

Definition isinstance_QBXLayerPotentialSource (v : pyval) : bool :=
  match v with VGeom g => is_QBXLayerPotentialSource g | _ => false end.

Definition isinstance_TargetBase (v : pyval) : bool :=
  match v with VGeom g => is_TargetBase g | _ => false end.

Definition isinstance_PotentialSource (v : pyval) : bool :=
  match v with VGeom g => is_PotentialSource g | _ => false end.

Definition isinstance_Discretization (v : pyval) : bool :=
  match v with VGeom g => is_Discretization g | _ => false end.

(** [six.itervalues(obj)] and iteration over [obj]: only dictionaries
    answer; a geometry object, a collection, a list or a scalar has no
    [values] method. *)
Definition itervalues (obj : pyval) : M (list pyval) :=
  match obj with
  | VDict l => d <- read_dict l ;; ret (dict_values d)
  | _ => raise (AttributeError "object has no attribute values")
  end.

Definition iterkeys (obj : pyval) : M (list tag) :=
  match obj with
  | VDict l => d <- read_dict l ;; ret (dict_keys d)
  | _ => raise (TypeError "object is not iterable")
  end.

Section Runtime.

(** The two tests of the Python runtime that [_is_valid_identifier]
    relies on: the value of its local [is_identifier] (the regular
    expression under Python 2, [str.isidentifier] otherwise) and
    [keyword.iskeyword]. *)
Variable is_identifier : string -> bool.
Variable iskeyword : string -> bool.

Definition _is_valid_identifier (name : string) : bool :=
  is_identifier name && negb (iskeyword name).

(** The two validation loops that end [__init__], over the values and
    over the names of [self.places]. *)
Definition check_places (self_places : pyval) : M unit :=
  (* for p in six.itervalues(self.places) *)
  values <- itervalues self_places ;;
  for_each (fun p =>
              if isinstance_PotentialSource p || isinstance_TargetBase p
                 || isinstance_Discretization p
              then ret tt
              else raise (TypeError "Must pass discretization, targets or layer potential sources as places"))
           values ;;;
  (* for name in self.places *)
  names <- iterkeys self_places ;;
  for_each (fun name =>
              match name with
              | TagStr s =>
                  if _is_valid_identifier s then ret tt
                  else raise (ValueError "not a valid identifier")
              | _ => ret tt
              end)
           names.

(** [GeometryCollection.__init__(self, places, auto_where=None)]; the
    new object enters the store when [__init__] returns. *)
Definition GeometryCollection_init (places auto_where : pyval) : M loc :=
  (* self.places = {} ; self.caches = {} *)
  new_dict <- alloc_dict [] ;;
  aw <- lift (_prepare_auto_where auto_where None) ;;
  (* if isinstance(places, QBXLayerPotentialSource) ... elif TargetBase *)
  aw1 <- (if isinstance_QBXLayerPotentialSource places then
            geometry <- lift (DOFDescriptor_geometry (fst aw)) ;;
            dict_setitem new_dict geometry places ;;;
            ret (fst aw, fst aw)
          else if isinstance_TargetBase places then
            geometry <- lift (DOFDescriptor_geometry (snd aw)) ;;
            dict_setitem new_dict geometry places ;;;
            ret (snd aw, snd aw)
          else ret aw) ;;
  let auto_source := fst aw1 in
  let auto_target := snd aw1 in
  (* if isinstance(places, (Discretization, PotentialSource)) ... elif tuple ... else *)
  self_places <- (if isinstance_Discretization places || isinstance_PotentialSource places then
                    source_geometry <- lift (DOFDescriptor_geometry auto_source) ;;
                    dict_setitem new_dict source_geometry places ;;;
                    target_geometry <- lift (DOFDescriptor_geometry auto_target) ;;
                    dict_setitem new_dict target_geometry places ;;;
                    ret (VDict new_dict)
                  else
                    match places with
                    | VTuple [source_discr; target_discr] =>
                        source_geometry <- lift (DOFDescriptor_geometry auto_source) ;;
                        dict_setitem new_dict source_geometry source_discr ;;;
                        target_geometry <- lift (DOFDescriptor_geometry auto_target) ;;
                        dict_setitem new_dict target_geometry target_discr ;;;
                        ret (VDict new_dict)
                    | VTuple _ => raise (ValueError "unpack")
                    | _ => ret places
                    end) ;;
  check_places self_places ;;;
  match self_places with
  | VDict l => alloc_collection (mk_collection l [] (auto_source, auto_target) None)
  | _ => raise dangling
  end.

(** The property [ambient_dim], memoized on the instance. *)
Definition ambient_dim (self : loc) : M nat :=
  g <- read_collection self ;;
  match gc_ambient_dim_memo g with
  | Some n => ret n
  | None =>
      d <- read_dict (gc_places g) ;;
      dims <- map_M (fun p =>
                       match p with
                       | VGeom x => ret (geo_ambient_dim x)
                       | _ => raise (AttributeError "object has no attribute ambient_dim")
                       end)
                    (dict_values d) ;;
      n <- lift (single_valued dims) ;;
      modify_collection self
        (fun g => mk_collection (gc_places g) (gc_caches g) (gc_auto_where g) (Some n)) ;;;
      ret n
  end.

(** [get_geometry(self, geometry)]. *)
Definition get_geometry (self : loc) (geometry_name : tag) : M pyval :=
  g <- read_collection self ;;
  d <- read_dict (gc_places g) ;;
  match dict_get geometry_name d with
  | Some v => ret v
  | None => raise (KeyError "geometry not in the collection")
  end.

(** [copy(self, places=None, auto_where=None)], for [places] a
    dictionary or [None]. *)
Definition GeometryCollection_copy (self : loc) (places : option loc) (auto_where : pyval)
  : M loc :=
  g <- read_collection self ;;
  let places1 := match places with None => gc_places g | Some l => l end in
  copied <- dict_copy places1 ;;
  GeometryCollection_init (VDict copied)
    (match auto_where with
     | VNone => VTuple [VDesc (fst (gc_auto_where g)); VDesc (snd (gc_auto_where g))]
     | other => other
     end).

(** The argument of [merge]: a dictionary or a collection ([None]
    stands for any other falsy value). *)
Inductive merge_arg : Type :=
| MergeNone
| MergeDict (l : loc)
| MergeCollection (c : loc).

(** [merge(self, places)]. *)
Definition GeometryCollection_merge (self : loc) (places : merge_arg) : M loc :=
  g <- read_collection self ;;
  new_places <- dict_copy (gc_places g) ;;
  (match places with
   | MergeNone => ret tt
   | MergeDict l =>
       d <- read_dict l ;;
       match d with
       | [] => ret tt
       | _ => modify_dict new_places (fun np => dict_update np d)
       end
   | MergeCollection c =>
       other <- read_collection c ;;
       d <- read_dict (gc_places other) ;;
       modify_dict new_places (fun np => dict_update np d)
   end) ;;;
  GeometryCollection_copy self (Some new_places) VNone.

(** [GeometryCollection.get_cache(self, name)]. *)
Definition GeometryCollection_get_cache (self : loc) (name : string) : M cache_ref :=
  modify_collection self
    (fun g => set_gc_caches (caches_setdefault name (gc_caches g)) g) ;;;
  ret (CollectionCache self name).

End Runtime.

(** ** execution.py: bound expressions and the evaluation mapper *)

(** [BoundExpression.get_cache(self, name)]. *)
Definition BoundExpression_get_cache (self : loc) (name : string) : M cache_ref :=
  modify_bound self
    (fun b => set_be_caches (caches_setdefault name (be_caches b)) b) ;;;
  ret (BoundCache self name).

(** The attributes [EvaluationMapperBase.__init__] sets. *)
Record EvaluationMapperBase : Type := mk_mapper {
  em_bound_expr : loc;
  em_places : loc;
  em_queue : nat;
  em_context : list (string * pyval)
}.

(** [EvaluationMapperBase.__init__(self, bound_expr, queue, context=None)]. *)
Definition EvaluationMapperBase_init (bound_expr : loc) (queue : nat)
    (context : option (list (string * pyval))) : M EvaluationMapperBase :=
  b <- read_bound bound_expr ;;
  ret (mk_mapper bound_expr (be_places b) queue
         (match context with None => [] | Some c => c end)).

Section Engine.

(** What the mapper calls and this module does not define: the
    dispatcher [self.rec] it inherits from pymbolic, the compiler
    behind [BoundExpression.__init__] and the method [execute] of the
    compiled code. *)
Variable rec : EvaluationMapperBase -> expr -> M pyval.
Variable OperatorCompiler : loc -> expr -> M nat.
Variable execute : nat -> EvaluationMapperBase -> M pyval.

(** [BoundExpression.__init__(self, places, sym_op_expr)]. *)
Definition BoundExpression_init (places : loc) (sym_op_expr : expr) : M loc :=
  code <- OperatorCompiler places sym_op_expr ;;
  alloc_bound (mk_bound places sym_op_expr [] code None).

(** [BoundExpression.eval(self, queue, context=None, timing_data=None)]. *)
Definition BoundExpression_eval (self : loc) (queue : nat)
    (context : option (list (string * pyval))) : M pyval :=
  exec_mapper <- EvaluationMapperBase_init self queue context ;;
  b <- read_bound self ;;
  execute (be_code b) exec_mapper.

(** The [try ... except KeyError] of [map_common_subexpression]:
    [rec = cache[expr.child]], and on a miss
    [rec = self.rec(expr.child); cache[expr.child] = rec]. *)
Definition cse_lookup_or_compute (self : EvaluationMapperBase) (cache : cache_ref)
    (child : expr) : M pyval :=
  try_except_KeyError
    (cache_getitem cache child)
    (value <- rec self child ;;
     cache_setitem cache child value ;;;
     ret value).

(** [map_common_subexpression(self, expr)] for a node with attributes
    [child] and [scope]. *)
Definition map_common_subexpression (self : EvaluationMapperBase)
    (child : expr) (scope : string) : M pyval :=
  if String.eqb scope cse_scope.EXPRESSION then
    cache <- BoundExpression_get_cache (em_bound_expr self) "cse" ;;
    cse_lookup_or_compute self cache child
  else if String.eqb scope cse_scope.DISCRETIZATION then
    cache <- GeometryCollection_get_cache (em_places self) "cse" ;;
    cse_lookup_or_compute self cache child
  else
    rec self child.

(** [map_inverse(self, expr)].  Python evaluates the arguments of a
    call before the call.  On a miss the second argument of [bind],
    [self.places.get_geometry(expr.dofdesc.geometry)], reads
    [expr.dofdesc]; on a hit the second argument of
    [bound_op.scipy_op], [expr.dofdesc], does.  The read raises, so
    neither [bind] nor [scipy_op] is called, nothing is stored in the
    cache, and [expr.rhs] and [gmres] are never reached. *)
Definition map_inverse (self : EvaluationMapperBase) (e : expr) : M pyval :=
  b <- read_bound (em_bound_expr self) ;;
  bound_op_cache <- GeometryCollection_get_cache (be_places b) "bound_op" ;;
  bound_op <- try_except_KeyError
                (cache_getitem bound_op_cache e)
                (* bound_op = bind(expr.expression, ...get_geometry(expr.dofdesc.geometry), ...) *)
                (lift (Expression_dofdesc e)) ;;
  (* scipy_op = bound_op.scipy_op(expr.variable_name, expr.dofdesc, ...) *)
  lift (Expression_dofdesc e).

End Engine.

(** ** execution.py: elementwise reductions *)

(** [a[start:stop]] for non-negative bounds. *)
Definition py_slice {A : Type} (a : list A) (start stop : nat) : list A :=
  skipn start (firstn stop a).

(** Writing [vals] through the view [a[start:start+len(vals)]]. *)
Definition set_window {A : Type} (a : list A) (start : nat) (vals : list A) : list A :=
  firstn start a ++ vals ++ skipn (start + List.length vals) a.

(** One element group, as the discretization and its mesh describe it:
    the number of elements, the number of nodes per element, and the
    offsets of the group in the global node and element numberings. *)
Record element_group : Type := mk_group {
  nelements : nat;
  nunit_nodes : nat;
  node_nr_base : nat;
  element_nr_base : nat
}.

Record discretization : Type := mk_discr {
  groups : list element_group;
  nnodes : nat;
  mesh_nelements : nat
}.

(** Groups are numbered consecutively: each starts where the previous
    one ends.  [shapes] gives (elements, nodes per element) per group. *)
Fixpoint make_groups (shapes : list (nat * nat)) (node_base el_base : nat)
  : list element_group :=
  match shapes with
  | [] => []
  | (ne, nd) :: rest =>
      mk_group ne nd node_base el_base
        :: make_groups rest (node_base + ne * nd) (el_base + ne)
  end.

Definition total_nodes (shapes : list (nat * nat)) : nat :=
  fold_right (fun s acc => fst s * snd s + acc) 0 shapes.

Definition total_elements (shapes : list (nat * nat)) : nat :=
  fold_right (fun s acc => fst s + acc) 0 shapes.

Definition make_discretization (shapes : list (nat * nat)) : discretization :=
  mk_discr (make_groups shapes 0 0) (total_nodes shapes) (total_elements shapes).

Section ElementwiseReduction.

(** The entries of a device array, loopy's reduction
    [name(jdof, operand[el, jdof])] over the nodes of one element,
    and the contents of a freshly allocated ([cl.array.empty])
    array. *)
Variable T : Type.
Variable reduction : string -> list T -> T.
Variable uninitialized : nat -> T.

(** What the mapper calls for the node:
    [self.places.get_discretization(geometry, discr_stage)] and the
    evaluation [self.rec] of the operand, a device array. *)
Variable get_discretization : tag -> pyval -> result discretization.
Variable rec : expr -> result (list T).

Definition cl_array_empty (n : nat) : list T := map uninitialized (seq 0 n).

(** The nodes of element [el] of [group] in a global node array. *)
Definition element_dofs (group : element_group) (global_array : list T) (el : nat) : list T :=
  py_slice global_array
    (node_nr_base group + el * nunit_nodes group)
    (node_nr_base group + el * nunit_nodes group + nunit_nodes group).

(** [group.view(global_array)], read: shape (nelements, nunit_nodes). *)
Definition group_view (group : element_group) (global_array : list T) : list (list T) :=
  map (element_dofs group global_array) (seq 0 (nelements group)).

(** [result[el, idof] = reduction(jdof, operand[el, jdof])]. *)
Definition node_knl (reduction_name : string) (operand : list (list T)) : list (list T) :=
  map (fun row => repeat (reduction reduction_name row) (List.length row)) operand.

(** [result[el] = reduction(jdof, operand[el, jdof])]. *)
Definition element_knl (reduction_name : string) (operand : list (list T)) : list T :=
  map (reduction reduction_name) operand.

(** The kernel's output written through [discr.groups[g].view(result)]. *)
Definition write_group_view (group : element_group) (result : list T)
    (out : list (list T)) : list T :=
  set_window result (node_nr_base group) (List.concat out).

(** The kernel's output written through [mesh_el_view(discr.mesh, g, result)]. *)
Definition write_mesh_el_view (group : element_group) (result : list T)
    (out : list T) : list T :=
  set_window result (element_nr_base group) out.

(** The local function [_reduce], once per granularity. *)
Definition _reduce_node (reduction_name : string) (discr : discretization)
    (operand : list T) : list T :=
  fold_left
    (fun result group =>
       write_group_view group result (node_knl reduction_name (group_view group operand)))
    (groups discr) (cl_array_empty (nnodes discr)).

Definition _reduce_element (reduction_name : string) (discr : discretization)
    (operand : list T) : list T :=
  fold_left
    (fun result group =>
       write_mesh_el_view group result (element_knl reduction_name (group_view group operand)))
    (groups discr) (cl_array_empty (mesh_nelements discr)).

(** [_map_elementwise_reduction(self, reduction_name, expr)] for a node
    with the attributes [operand] and [where] of an [ElementwiseSum],
    [ElementwiseMin] or [ElementwiseMax]. *)
Definition _map_elementwise_reduction (reduction_name : string)
    (operand_expr : expr) (where_ : pyval) : result (list T) :=
  (* discr = self.places.get_discretization(
       expr.dofdesc.geometry, expr.dofdesc.discr_stage) *)
  result_bind (Expression_dofdesc (operand_expr, where_)) (fun dofdesc : DOFDescriptor =>
  result_bind (DOFDescriptor_geometry dofdesc) (fun geometry =>
  result_bind (Expression_dofdesc (operand_expr, where_)) (fun dofdesc' : DOFDescriptor =>
  result_bind (DOFDescriptor_discr_stage dofdesc') (fun discr_stage =>
  result_bind (get_discretization geometry discr_stage) (fun discr =>
  result_bind (rec operand_expr) (fun operand =>
  if negb (Nat.eqb (List.length operand) (nnodes discr)) then Raise AssertionError
  else
    (* granularity = expr.dofdesc.granularity *)
    result_bind (Expression_dofdesc (operand_expr, where_)) (fun dofdesc'' : DOFDescriptor =>
    let granularity := dd_granularity dofdesc'' in
    result_bind sym_GRANULARITY_NODE (fun GRANULARITY_NODE =>
    if granularity_eqb granularity GRANULARITY_NODE
    then Ok (_reduce_node reduction_name discr operand)
    else
      result_bind sym_GRANULARITY_ELEMENT (fun GRANULARITY_ELEMENT =>
      if granularity_eqb granularity GRANULARITY_ELEMENT
      then Ok (_reduce_element reduction_name discr operand)
      else Raise (ValueError "unsupported granularity")))))))))).

Definition map_elementwise_sum := _map_elementwise_reduction "sum".
Definition map_elementwise_min := _map_elementwise_reduction "min".
Definition map_elementwise_max := _map_elementwise_reduction "max".

End ElementwiseReduction.

(** ** execution.py: the scipy-like mat-vec operator *)

(** [_prepare_domains(nresults, places, domains, default_domain)]. *)
Definition _prepare_domains (nresults : nat) (domains default_domain : pyval)
  : result (list pyval) :=
  match domains with
  | VNone => Ok (repeat default_domain nresults)
  | VList items | VTuple items =>
      result_bind
        ((fix as_dofdescs (ds : list pyval) : result (list pyval) :=
            match ds with
            | [] => Ok []
            | d :: rest =>
                result_bind (as_dofdesc d) (fun dd =>
                result_bind (as_dofdescs rest) (fun dds => Ok (VDesc dd :: dds)))
            end) items)
        (fun dds =>
           if Nat.eqb (List.length dds) nresults then Ok dds else Raise AssertionError)
  | other => Ok (repeat other nresults)
  end.

Inductive residency : Type :=
| Host
| Device.

Section MatVec.

Variable T : Type.
Variable uninitialized : nat -> T.

(** A [numpy.ndarray] ([Host]) or a [pyopencl.array.Array] ([Device]). *)
Record array : Type := mk_array {
  arr_residency : residency;
  arr_data : list T
}.

(** What is bound to a name or comes out of an evaluation: one array
    or an object array of arrays. *)
Inductive value : Type :=
| Arr (a : array)
| ObjArray (items : list array).

(** [discr_nnodes dom_name] stands for the whole of
    [self.places.get_discretization(dom_name.geometry,
    dom_name.discr_stage).nnodes], attribute reads and lookup together,
    which may raise; [bound_expr_call] is the call
    [bound_expr(queue, **args)] of a bound expression. *)
Variable discr_nnodes : DOFDescriptor -> result nat.
Variable bound_expr_call : nat -> list (string * value) -> result value.

Record MatVecOp : Type := mk_matvec {
  mv_bound_expr : nat;
  mv_arg_name : string;
  mv_total_dofs : nat;
  mv_starts_and_ends : list (nat * nat);
  mv_extra_args : list (string * value)
}.

(** The size the loop of [scipy_op] gives one domain: 1 for [None],
    the node count of its discretization otherwise. *)
Definition domain_size (dom_name : pyval) : result nat :=
  match dom_name with
  | VNone => Ok 1
  | VDesc d => discr_nnodes d
  | _ => Raise (AttributeError "object has no attribute geometry")
  end.

(** The loop of [scipy_op] over the prepared domains. *)
Fixpoint starts_and_ends_from (domains : list pyval) (total_dofs : nat)
  : result (nat * list (nat * nat)) :=
  match domains with
  | [] => Ok (total_dofs, [])
  | dom_name :: rest =>
      result_bind (domain_size dom_name)
        (fun size =>
           result_bind (starts_and_ends_from rest (total_dofs + size))
             (fun r => Ok (fst r, (total_dofs, total_dofs + size) :: snd r)))
  end.

(** [BoundExpression.scipy_op(self, queue, arg_name, dtype, domains, **extra_args)];
    [nresults] is the number of components of [self.code.result] and
    [auto_target] is [self.places.auto_target]. *)
Definition scipy_op (self : nat) (nresults : nat) (auto_target : DOFDescriptor)
    (arg_name : string) (domains : pyval) (extra_args : list (string * value))
  : result MatVecOp :=
  result_bind (_prepare_domains nresults domains (VDesc auto_target)) (fun doms =>
  result_bind (starts_and_ends_from doms 0) (fun r =>
  Ok (mk_matvec self arg_name (fst r) (snd r) extra_args))).

Fixpoint args_set (name : string) (v : value) (args : list (string * value))
  : list (string * value) :=
  match args with
  | [] => [(name, v)]
  | (n, v') :: rest =>
      if String.eqb name n then (n, v) :: rest else (n, v') :: args_set name v rest
  end.

(** [joined_result[start:end] = res_i]: both sides have one shape. *)
Definition set_slice (joined : list T) (start stop : nat) (res_i : list T)
  : result (list T) :=
  if Nat.eqb (List.length (py_slice joined start stop)) (List.length res_i)
  then Ok (set_window joined start res_i)
  else Raise (ValueError "cannot assign between arrays of differing shapes").

(** [for res_i, (start, end) in zip(result, self.starts_and_ends)]. *)
Fixpoint join_results (joined : list T) (result_items : list array)
    (starts_and_ends : list (nat * nat)) : result (list T) :=
  match result_items, starts_and_ends with
  | res_i :: items, (start, stop) :: rest =>
      result_bind (set_slice joined start stop (arr_data res_i))
        (fun joined' => join_results joined' items rest)
  | _, _ => Ok joined
  end.

(** [MatVecOp.matvec(self, x)].  A split evaluation has to return an
    object array; walking over a single device array is left to
    pyopencl and reported as a [TypeError] here. *)
Definition matvec (self : MatVecOp) (x : array) : result value :=
  let out_host := match arr_residency x with Host => true | Device => false end in
  let x_dev := mk_array Device (arr_data x) in
  let do_split := Nat.ltb 1 (List.length (mv_starts_and_ends self)) in
  let x_arg :=
    if do_split then
      ObjArray (map (fun se => mk_array Device (py_slice (arr_data x_dev) (fst se) (snd se)))
                    (mv_starts_and_ends self))
    else Arr x_dev in
  let args := args_set (mv_arg_name self) x_arg (mv_extra_args self) in
  result_bind (bound_expr_call (mv_bound_expr self) args) (fun res =>
  result_bind
    (if do_split then
       match res with
       | ObjArray items =>
           result_bind
             (join_results (map uninitialized (seq 0 (mv_total_dofs self)))
                           items (mv_starts_and_ends self))
             (fun joined => Ok (Arr (mk_array Device joined)))
       | Arr _ => Raise (TypeError "result of a split operator is not an object array")
       end
     else Ok res)
    (fun res' =>
       if out_host then
         match res' with
         | Arr a => Ok (Arr (mk_array Host (arr_data a)))
         | ObjArray _ => Raise (AttributeError "object array has no attribute get")
         end
       else Ok res')).

End MatVec.

(** ** Loops whose body may raise *)

(** [[f(a) for a in l]]: the first failure is the failure of the
    whole. *)
Fixpoint map_result {A B : Type} (f : A -> result B) (l : list A) : result (list B) :=
  match l with
  | [] => Ok []
  | a :: rest =>
      result_bind (f a) (fun b =>
      result_bind (map_result f rest) (fun bs => Ok (b :: bs)))
  end.

(** [for a in l: s = f(s, a)]. *)
Fixpoint fold_result {A S : Type} (f : S -> A -> result S) (l : list A) (s : S) : result S :=
  match l with
  | [] => Ok s
  | a :: rest => result_bind (f s a) (fold_result f rest)
  end.

(** ** execution.py: binding an expression *)

Section Binding.

Variable is_identifier : string -> bool.
Variable iskeyword : string -> bool.

(** What [_prepare_expr] and [BoundExpression.__init__] call and this
    module does not define: the mappers [ToTargetTagger],
    [DerivativeBinder] and [InterpolationPreprocessor] of
    [pytential.symbolic.mappers], the test for
    [LayerPotentialSourceBase], the method [preprocess_optemplate] of
    such a source, and the operator compiler. *)
Variable ToTargetTagger : DOFDescriptor -> DOFDescriptor -> expr -> M expr.
Variable DerivativeBinder : expr -> M expr.
Variable isinstance_LayerPotentialSourceBase : pyval -> bool.
Variable preprocess_optemplate : pyval -> tag -> loc -> expr -> M expr.
Variable InterpolationPreprocessor : loc -> expr -> M expr.
Variable OperatorCompiler : loc -> expr -> M nat.

(** [for name, place in six.iteritems(places.places)], over the items
    the dictionary has when the loop starts. *)
Fixpoint preprocess_places (places : loc) (items : list (tag * pyval)) (e : expr)
  : M expr :=
  match items with
  | [] => ret e
  | (name, place) :: rest =>
      e' <- (if isinstance_LayerPotentialSourceBase place
             then preprocess_optemplate place name places e
             else ret e) ;;
      preprocess_places places rest e'
  end.

(** [_prepare_expr(places, expr, auto_where=None)]. *)
Definition _prepare_expr (places : loc) (e : expr) (auto_where : pyval) : M expr :=
  g <- read_collection places ;;
  aw <- lift (_prepare_auto_where auto_where (Some g)) ;;
  e1 <- ToTargetTagger (fst aw) (snd aw) e ;;
  e2 <- DerivativeBinder e1 ;;
  d <- read_dict (gc_places g) ;;
  e3 <- preprocess_places places d e2 ;;
  InterpolationPreprocessor places e3.

(** [bind(places, expr, auto_where=None)]. *)
Definition bind (places : pyval) (e : expr) (auto_where : pyval) : M loc :=
  pa <- (match places with
         | VCollection c => ret (c, auto_where)
         | _ =>
             c <- GeometryCollection_init is_identifier iskeyword places auto_where ;;
             g <- read_collection c ;;
             ret (c, VTuple [VDesc (fst (gc_auto_where g)); VDesc (snd (gc_auto_where g))])
         end) ;;
  e' <- _prepare_expr (fst pa) e (snd pa) ;;
  BoundExpression_init OperatorCompiler (fst pa) e'.

End Binding.

(** ** execution.py: assembling a matrix from blocks *)

Fixpoint cumsum_from (acc : nat) (l : list nat) : list nat :=
  match l with
  | [] => []
  | x :: rest => (acc + x) :: cumsum_from (acc + x) rest
  end.

(** [numpy.cumsum(l)]. *)
Definition cumsum (l : list nat) : list nat := cumsum_from 0 l.

Section BlockMatrix.

(** The entries of the matrix and the number zero among them. *)
Variable T : Type.
Variable zero : T.

(** A two-dimensional [numpy.ndarray]: its shape and its entries. *)
Record ndarray : Type := mk_ndarray {
  shape0 : nat;
  shape1 : nat;
  item : nat -> nat -> T
}.

(** An entry of [blocks], as [build_matrix] fills it: the number 0
    (what [is_zero] tests for) or an array. *)
Inductive block : Type :=
| ZeroBlock
| ArrayBlock (a : ndarray).

(** The object array [blocks]. *)
Record block_array : Type := mk_block_array {
  nblock_rows : nat;
  nblock_columns : nat;
  block_at : nat -> nat -> block
}.

(** [single_valued(blocks[ibrow, ibcol].shape[0] for ibcol in
    range(ncolumns) if not is_zero(blocks[ibrow, ibcol]))]. *)
Definition block_row_height (blocks : block_array) (ibrow : nat) : result nat :=
  single_valued
    (flat_map (fun ibcol =>
                 match block_at blocks ibrow ibcol with
                 | ArrayBlock a => [shape0 a]
                 | ZeroBlock => []
                 end)
              (seq 0 (nblock_columns blocks))).

(** [single_valued(blocks[ibrow, ibcol].shape[1] for ibrow in
    range(nrows) if not is_zero(blocks[ibrow, ibcol]))]. *)
Definition block_column_width (blocks : block_array) (ibcol : nat) : result nat :=
  single_valued
    (flat_map (fun ibrow =>
                 match block_at blocks ibrow ibcol with
                 | ArrayBlock a => [shape1 a]
                 | ZeroBlock => []
                 end)
              (seq 0 (nblock_rows blocks))).

(** Whether an extent [n] of the right hand side fits a window of
    extent [m]: it is [m], or it is 1 and the entry is repeated. *)
Definition broadcastable (n m : nat) : bool := Nat.eqb n m || Nat.eqb n 1.

(** [result[r0:r1, c0:c1] = b]: the bounds of the slices are cut off at
    the shape of [result], the number 0 fills the window, an array has
    to fit it. *)
Definition assign_block (result_ : ndarray) (r0 r1 c0 c1 : nat) (b : block)
  : result ndarray :=
  let rlo := Nat.min r0 (shape0 result_) in
  let rhi := Nat.min r1 (shape0 result_) in
  let clo := Nat.min c0 (shape1 result_) in
  let chi := Nat.min c1 (shape1 result_) in
  let inside := fun r c =>
    Nat.leb rlo r && Nat.ltb r rhi && Nat.leb clo c && Nat.ltb c chi in
  match b with
  | ZeroBlock =>
      Ok (mk_ndarray (shape0 result_) (shape1 result_)
            (fun r c => if inside r c then zero else item result_ r c))
  | ArrayBlock a =>
      if broadcastable (shape0 a) (rhi - rlo) && broadcastable (shape1 a) (chi - clo)
      then Ok (mk_ndarray (shape0 result_) (shape1 result_)
                 (fun r c =>
                    if inside r c
                    then item a (if Nat.eqb (shape0 a) (rhi - rlo) then r - rlo else 0)
                                (if Nat.eqb (shape1 a) (chi - clo) then c - clo else 0)
                    else item result_ r c))
      else Raise (ValueError "could not broadcast input array")
  end.

(** [_bmat(blocks, dtypes)]; the dtypes only decide how the entries
    are stored. *)
Definition _bmat (blocks : block_array) : result ndarray :=
  let nrows := nblock_rows blocks in
  let ncolumns := nblock_columns blocks in
  result_bind (map_result (block_row_height blocks) (seq 0 nrows)) (fun heights =>
  let brs := cumsum (0 :: heights) in
  result_bind (map_result (block_column_width blocks) (seq 0 ncolumns)) (fun widths =>
  let bcs := cumsum (0 :: widths) in
  let result0 := mk_ndarray (last brs 0) (last bcs 0) (fun _ _ => zero) in
  fold_result
    (fun result_ ibcol =>
       fold_result
         (fun result_ ibrow =>
            assign_block result_
              (nth ibrow brs 0) (nth (ibrow + 1) brs 0)
              (nth ibcol bcs 0) (nth (ibcol + 1) bcs 0)
              (block_at blocks ibrow ibcol))
         (seq 0 nrows) result_)
    (seq 0 ncolumns) result0)).

End BlockMatrix.

(** ** Python's [sorted] *)

(** [sorted(items)] for items compared by [leb]: each item goes before
    the first item that is not smaller, so equal items keep their
    order. *)
Fixpoint insert_sorted {A : Type} (leb : A -> A -> bool) (x : A) (l : list A) : list A :=
  match l with
  | [] => [x]
  | y :: rest => if leb x y then x :: l else y :: insert_sorted leb x rest
  end.

Definition sorted {A : Type} (leb : A -> A -> bool) (l : list A) : list A :=
  fold_right (insert_sorted leb) [] l.

(** ** primitives.py: derivatives along reference axes *)

(** What may come as [ref_axes]: an integer, a tuple of pairs of
    integers (axis, number of derivatives) as the docstring asks for,
    or an object that is neither an integer nor a tuple (a list,
    [None], a string).  Tuples with other items are not covered. *)
Inductive ref_axes_arg : Type :=
| RefInt (axis : Z)
| RefTuple (axes : list (Z * Z))
| RefNotTuple.

(** The order of pairs of integers, first components first. *)
Definition pair_leb (a b : Z * Z) : bool :=
  (fst a <? fst b)%Z || ((fst a =? fst b)%Z && (snd a <=? snd b)%Z).

Definition pair_eqb (a b : Z * Z) : bool :=
  (fst a =? fst b)%Z && (snd a =? snd b)%Z.

Fixpoint pairs_eqb (x y : list (Z * Z)) : bool :=
  match x, y with
  | [], [] => true
  | a :: x', b :: y' => pair_eqb a b && pairs_eqb x' y'
  | _, _ => false
  end.

(** [len(dict(ref_axes))]: the number of different first components. *)
Definition dict_len (pairs : list (Z * Z)) : nat :=
  List.length (nodup Z.eq_dec (map fst pairs)).

(** The attributes of a [NumReferenceDerivative]. *)
Record NumReferenceDerivative : Type := mk_num_reference_derivative {
  nrd_ref_axes : list (Z * Z);
  nrd_operand : expr;
  nrd_where : pyval
}.

(** [NumReferenceDerivative.__init__(self, ref_axes, operand, where=None)]
    for an operand that is one expression. *)
Definition NumReferenceDerivative_init (ref_axes : ref_axes_arg) (operand : expr)
    (where_ : pyval) : result NumReferenceDerivative :=
  let ref_axes1 :=
    match ref_axes with
    | RefInt i => RefTuple [(i, 1%Z)]
    | other => other
    end in
  match ref_axes1 with
  | RefTuple axes =>
      if negb (pairs_eqb (sorted pair_leb axes) axes)
      then Raise (ValueError "ref_axes must be sorted")
      else if negb (Nat.eqb (dict_len axes) (List.length axes))
      then Raise (ValueError "ref_axes must not contain an axis more than once")
      else Ok (mk_num_reference_derivative axes operand where_)
  | _ => Raise (ValueError "ref_axes must be a tuple")
  end.

(** [reference_jacobian(func, output_dim, dim, where=None)] for a
    sequence [func] of expressions: the rows of the object array
    [jac]. *)
Definition reference_jacobian (func : list expr) (output_dim dim : nat) (where_ : pyval)
  : result (list (list NumReferenceDerivative)) :=
  map_result
    (fun i =>
       match nth_error func i with
       | Some func_component =>
           map_result
             (fun j => NumReferenceDerivative_init (RefInt (Z.of_nat j)) func_component where_)
             (seq 0 dim)
       | None => Raise (ExternalError "IndexError" i)
       end)
    (seq 0 output_dim).

(** ** primitives.py: kernel arguments *)

(** A dictionary with string keys (keyword arguments, kernel
    arguments): its items in insertion order, with distinct keys. *)
Definition kwdict (V : Type) : Type := list (string * V).

Fixpoint kw_get {V : Type} (k : string) (d : kwdict V) : option V :=
  match d with
  | [] => None
  | (k', v) :: rest => if String.eqb k k' then Some v else kw_get k rest
  end.

Fixpoint kw_set {V : Type} (k : string) (v : V) (d : kwdict V) : kwdict V :=
  match d with
  | [] => [(k, v)]
  | (k', v') :: rest =>
      if String.eqb k k' then (k', v) :: rest else (k', v') :: kw_set k v rest
  end.

(** [k in d]. *)
Definition kw_mem {V : Type} (k : string) (d : kwdict V) : bool :=
  match kw_get k d with Some _ => true | None => false end.

(** The value of a kernel argument: a one-dimensional [numpy.ndarray]
    or another object. *)
Inductive kernel_arg : Type :=
| KArray (items : list pyval)
| KValue (v : pyval).

(** The order [sorted] puts the items of a dictionary in: two items of
    one dictionary differ in their keys, so the keys decide. *)
Definition item_leb {V : Type} (a b : string * V) : bool := String.leb (fst a) (fst b).

(** [hashable_kernel_args(kernel_arguments)]. *)
Definition hashable_kernel_args (kernel_arguments : kwdict kernel_arg)
  : list (string * kernel_arg) :=
  map (fun kv =>
         (fst kv,
          match snd kv with
          | KArray items => KValue (VTuple items)
          | val => val
          end))
      (sorted item_leb kernel_arguments).

(** ** primitives.py: layer potentials *)

(** What may come as [qbx_forced_limit]: an integer, a string, [None]
    or an object equal to none of these. *)
Inductive forced_limit : Type :=
| LimitInt (side : Z)
| LimitStr (s : string)
| LimitNone
| LimitObj (id : nat).

(** [qbx_forced_limit in [-1, +1, -2, +2, "avg", None]]. *)
Definition forced_limit_allowed (qbx_forced_limit : forced_limit) : bool :=
  match qbx_forced_limit with
  | LimitInt z => (z =? -1)%Z || (z =? 1)%Z || (z =? -2)%Z || (z =? 2)%Z
  | LimitStr s => String.eqb s "avg"
  | LimitNone => true
  | LimitObj _ => false
  end.

(** What may come as [kernel_arguments]: [None], a tuple of pairs or a
    dictionary. *)
Inductive kernel_arguments_arg : Type :=
| ArgsNone
| ArgsTuple (pairs : list (string * kernel_arg))
| ArgsDict (d : kwdict kernel_arg).

(** [dict(pairs)]. *)
Definition dict_of_pairs {V : Type} (pairs : list (string * V)) : kwdict V :=
  fold_left (fun d kv => kw_set (fst kv) (snd kv) d) pairs [].

Section LayerPotential.

(** Kernels are objects of [sumpy]: [to_kernel_and_args] gives the
    kernel proper and the arguments that came with it, and
    [kernel_arg_names] is the set of the names of
    [kernel.get_args() + kernel.get_source_args()]. *)
Variable kernel : Type.
Variable to_kernel_and_args : kernel -> kernel * kwdict kernel_arg.
Variable kernel_arg_names : kernel -> list string.

Record IntG : Type := mk_IntG {
  ig_kernel : kernel;
  ig_density : expr;
  ig_qbx_forced_limit : forced_limit;
  ig_source : pyval;
  ig_target : pyval;
  ig_kernel_arguments : kwdict kernel_arg
}.

(** [for name, val in kernel_arguments_2.items()]. *)
Fixpoint add_kernel_arguments_2 (items : list (string * kernel_arg))
    (kernel_arguments : kwdict kernel_arg) : result (kwdict kernel_arg) :=
  match items with
  | [] => Ok kernel_arguments
  | (name, val) :: rest =>
      if kw_mem name kernel_arguments
      then Raise (ValueError "already set in kernel_arguments")
      else add_kernel_arguments_2 rest (kw_set name val kernel_arguments)
  end.

(** [for name, val in kwargs.items()]. *)
Fixpoint add_kwargs (names : list string) (items : list (string * kernel_arg))
    (kernel_arguments : kwdict kernel_arg) : result (kwdict kernel_arg) :=
  match items with
  | [] => Ok kernel_arguments
  | (name, val) :: rest =>
      if kw_mem name kernel_arguments
      then Raise (ValueError "already set in kernel_arguments")
      else if negb (existsb (String.eqb name) names)
      then Raise (TypeError "not recognized as kernel argument")
      else add_kwargs names rest (kw_set name val kernel_arguments)
  end.

(** [IntG.__init__(self, kernel, density, qbx_forced_limit, source=None,
    target=None, kernel_arguments=None, **kwargs)]: the attributes of
    the new node.  The second test of [missing_args] is the source's. *)
Definition IntG_init (kernel_ : kernel) (density : expr)
    (qbx_forced_limit : forced_limit) (source target : pyval)
    (kernel_arguments : kernel_arguments_arg) (kwargs : kwdict kernel_arg)
  : result IntG :=
  let kernel_arguments0 :=
    match kernel_arguments with
    | ArgsNone => []
    | ArgsTuple pairs => dict_of_pairs pairs
    | ArgsDict d => d
    end in
  let kernel1 := fst (to_kernel_and_args kernel_) in
  let kernel_arguments_2 := snd (to_kernel_and_args kernel_) in
  result_bind (add_kernel_arguments_2 kernel_arguments_2 kernel_arguments0)
    (fun kernel_arguments1 =>
  if negb (forced_limit_allowed qbx_forced_limit)
  then Raise (ValueError "invalid value of qbx_forced_limit")
  else
    let names := kernel_arg_names kernel1 in
    result_bind (add_kwargs names kwargs kernel_arguments1)
      (fun kernel_arguments2 =>
    let provided_arg_names := map fst kernel_arguments2 in
    let missing_args :=
      filter (fun name => negb (existsb (String.eqb name) provided_arg_names)) names in
    match missing_args with
    | _ :: _ => Raise (TypeError "kernel argument(s) not supplied")
    | [] =>
        let extraneous_args :=
          filter (fun name => negb (existsb (String.eqb name) names)) provided_arg_names in
        match missing_args with
        | _ :: _ => Raise (TypeError "kernel arguments not recognized")
        | [] =>
            Ok (mk_IntG kernel1 density qbx_forced_limit source target kernel_arguments2)
        end
    end)).

End LayerPotential.

(** ** Sample runtime tests

    The identifier test and the keyword table of Python 3, restricted
    to ASCII names; used where a property is run on concrete names. *)

Definition is_ascii_letter (c : ascii) : bool :=
  let n := nat_of_ascii c in
  (Nat.leb 65 n && Nat.leb n 90) || (Nat.leb 97 n && Nat.leb n 122) || Nat.eqb n 95.

Definition is_ascii_digit (c : ascii) : bool :=
  let n := nat_of_ascii c in Nat.leb 48 n && Nat.leb n 57.

Fixpoint all_chars (f : ascii -> bool) (s : string) : bool :=
  match s with
  | EmptyString => true
  | String c rest => f c && all_chars f rest
  end.

Definition ascii_isidentifier (s : string) : bool :=
  match s with
  | EmptyString => false
  | String c rest =>
      is_ascii_letter c
      && all_chars (fun x => is_ascii_letter x || is_ascii_digit x) rest
  end.

Definition python3_keywords : list string :=
  ["False"; "None"; "True"; "and"; "as"; "assert"; "async"; "await";
   "break"; "class"; "continue"; "def"; "del"; "elif"; "else"; "except";
   "finally"; "for"; "from"; "global"; "if"; "import"; "in"; "is";
   "lambda"; "nonlocal"; "not"; "or"; "pass"; "raise"; "return"; "try";
   "while"; "with"; "yield"].

Definition python3_iskeyword (s : string) : bool :=
  existsb (String.eqb s) python3_keywords.

(** * Vocabulary of the properties

    The predicates the statements below are written with, the small
    collaborators the properties are run with, and the stores and
    objects they are run on. *)

(** What the validation pass of the constructor accepts. *)
Definition supported_geometry (v : pyval) : bool :=
  isinstance_PotentialSource v || isinstance_TargetBase v || isinstance_Discretization v.

Section PlacesValidity.

Variable is_identifier : string -> bool.
Variable iskeyword : string -> bool.

Definition valid_name (k : tag) : bool :=
  match k with
  | TagStr s => _is_valid_identifier is_identifier iskeyword s
  | _ => true
  end.

(** The items of a places dictionary the constructor accepts: supported
    geometries under names that, when strings, are valid identifiers. *)
Definition valid_places (d : pydict) : Prop :=
  Forall (fun kv => valid_name (fst kv) = true /\ supported_geometry (snd kv) = true) d.

End PlacesValidity.

(** The inputs claim C9 calls valid. *)
Definition valid_desc_input (x : pyval) : Prop :=
  match x with
  | VDesc _ | VStr _ | VDefaultSource | VDefaultTarget => True
  | _ => False
  end.

(** An [auto_where] that is neither [None] nor a list or tuple. *)
Definition single_auto_where (v : pyval) : Prop :=
  match v with
  | VNone | VTuple _ | VList _ => False
  | _ => True
  end.

(** Two discretizations of different ambient dimension in one places
    dictionary, held at location 0 of the store. *)
Definition curve_2d : geometry := mk_geometry 1 false false false true 2.
Definition surface_3d : geometry := mk_geometry 2 false false false true 3.
Definition mixed_places : pydict :=
  [(TagStr "curve", VGeom curve_2d); (TagStr "surface", VGeom surface_3d)].
Definition mixed_world : World := mk_world [mixed_places] [] [].

Definition ambient_dim_of (v : pyval) : nat :=
  match v with
  | VGeom x => geo_ambient_dim x
  | _ => 0
  end.

(** The dictionary [merge] reads from its argument (nothing for a falsy
    argument). *)
Definition merge_arg_dict (w : World) (arg : merge_arg) (darg : pydict) : Prop :=
  match arg with
  | MergeNone => darg = []
  | MergeDict l => nth_error (dicts w) l = Some darg
  | MergeCollection c =>
      exists oc, nth_error (collections w) c = Some oc
                 /\ nth_error (dicts w) (gc_places oc) = Some darg
  end.

(** What a client of a collection's cache does: fetch the cache by name
    and store a value under a key. *)
Definition store_in_cache (c : loc) (name : string) (key : expr) (value : pyval) : M unit :=
  cache <- GeometryCollection_get_cache c name ;;
  cache_setitem cache key value.

(** Claim C2 as it is worded: a places dictionary with two geometries
    of different ambient dimension makes the constructor raise. *)
Definition init_rejects_mixed_ambient_dims (is_identifier iskeyword : string -> bool) : Prop :=
  forall (w : World) (l : loc) (d : pydict) (aw : pyval) (g1 g2 : geometry),
    nth_error (dicts w) l = Some d ->
    In (VGeom g1) (dict_values d) -> In (VGeom g2) (dict_values d) ->
    geo_ambient_dim g1 <> geo_ambient_dim g2 ->
    exists (e : exn) (w' : World),
      GeometryCollection_init is_identifier iskeyword (VDict l) aw w = (Raise e, w').

(** A set of target points, and a layer potential source. *)
Definition points_target : geometry := mk_geometry 3 false true false false 2.
Definition qbx_source : geometry := mk_geometry 4 true false true false 2.

(** A collection over one curve, with a value in its cache ["cse"], and
    a dictionary to merge into it. *)
Definition default_auto_where : DOFDescriptor * DOFDescriptor :=
  (mk_dofdesc (mk_domain DOMAIN_TAG TagDefaultSource) QBX_DOF_NODE,
   mk_dofdesc (mk_domain DOMAIN_TAG TagDefaultTarget) QBX_DOF_NODE).
Definition curve_places : pydict :=
  [(TagStr "curve", VGeom curve_2d); (TagStr "probe", VGeom points_target)].
Definition curve_collection : GeometryCollection :=
  mk_collection 0 [("cse", [(Var "sigma", VObj 7)])] default_auto_where None.
Definition more_places : pydict :=
  [(TagStr "probe", VGeom qbx_source); (TagStr "far", VGeom points_target)].
Definition merge_world : World :=
  mk_world [curve_places; more_places] [curve_collection] [].

(** Groups that follow one another: each starts where the previous one
    ends. *)
Fixpoint consecutive {G : Type} (base size : G -> nat) (start : nat) (gs : list G) : Prop :=
  match gs with
  | [] => True
  | g :: rest => base g = start /\ consecutive base size (start + size g) rest
  end.

Definition sum_sizes {G : Type} (size : G -> nat) (gs : list G) : nat :=
  fold_right (fun g acc => size g + acc) 0 gs.

(** The value a cache holds for a key, if the cache exists and holds
    one. *)
Definition cache_lookup (r : cache_ref) (key : expr) (w : World) : option pyval :=
  match cache_of r w with
  | Some c => cache_get key c
  | None => None
  end.

(** Caches only grow: every named cache is still there and every entry
    has kept its value. *)
Definition cache_le (c c' : cache) : Prop :=
  forall k v, cache_get k c = Some v -> cache_get k c' = Some v.

Definition caches_le (cs cs' : caches) : Prop :=
  forall name c, caches_get name cs = Some c ->
                 exists c', caches_get name cs' = Some c' /\ cache_le c c'.

(** [extends w w']: from [w] to [w'] no collection and no bound
    expression went away or was bound to other places, and their caches
    only grew. *)
Definition extends (w w' : World) : Prop :=
  (forall c g, nth_error (collections w) c = Some g ->
               exists g', nth_error (collections w') c = Some g'
                          /\ caches_le (gc_caches g) (gc_caches g'))
  /\ (forall b x, nth_error (bound_exprs w) b = Some x ->
                  exists x', nth_error (bound_exprs w') b = Some x'
                             /\ be_places x' = be_places x
                             /\ caches_le (be_caches x) (be_caches x')).

(** [get_cache] of the owner of a cache reference. *)
Definition get_cache_of (r : cache_ref) : M cache_ref :=
  match r with
  | CollectionCache c name => GeometryCollection_get_cache c name
  | BoundCache b name => BoundExpression_get_cache b name
  end.

Definition owner_exists (r : cache_ref) (w : World) : Prop :=
  match r with
  | CollectionCache c _ => exists g, nth_error (collections w) c = Some g
  | BoundCache b _ => exists x, nth_error (bound_exprs w) b = Some x
  end.

(** What [map_common_subexpression] does with the cache it picked. *)
Definition cached_eval (rec : EvaluationMapperBase -> expr -> M pyval)
    (self : EvaluationMapperBase) (r : cache_ref) (child : expr) : M pyval :=
  cache <- get_cache_of r ;;
  cse_lookup_or_compute rec self cache child.

(** A small evaluator to run the properties with: variables are looked
    up in the context, a sum adds opaque values by their numbers, a
    common subexpression goes through [map_common_subexpression]. *)
Fixpoint context_get (name : string) (context : list (string * pyval)) : option pyval :=
  match context with
  | [] => None
  | (n, v) :: rest => if String.eqb name n then Some v else context_get name rest
  end.

Fixpoint sample_rec (self : EvaluationMapperBase) (e : expr) : M pyval :=
  match e with
  | Var name =>
      match context_get name (em_context self) with
      | Some v => ret v
      | None => raise (ExternalError "UnknownVariableError" 0)
      end
  | Sum a b =>
      x <- sample_rec self a ;;
      y <- sample_rec self b ;;
      match x, y with
      | VObj i, VObj j => ret (VObj (i + j))
      | _, _ => raise (TypeError "unsupported operand types")
      end
  | CommonSubexpression child scope =>
      map_common_subexpression sample_rec self child scope
  | IterativeInverse _ _ _ _ _ =>
      raise (ExternalError "NotImplementedError" 0)
  end.

(** [memoized_in rec self child scope r w]: in the store [w], the node
    is served from the cache [r].  If [r] holds a value for [child], any
    evaluator returns that value and leaves the store alone.  If not,
    [child] is evaluated, its value is stored in [r] and returned; from
    then on, in every store that has only grown, any evaluator returns
    that value and leaves the store alone. *)
Definition memoized_in (rec : EvaluationMapperBase -> expr -> M pyval)
    (self : EvaluationMapperBase) (child : expr) (scope : string)
    (r : cache_ref) (w : World) : Prop :=
  (forall v, cache_lookup r child w = Some v ->
             forall rec', map_common_subexpression rec' self child scope w = (Ok v, w))
  /\ (cache_lookup r child w = None ->
      map_common_subexpression rec self child scope w
      = (get_cache_of r ;;;
         (value <- rec self child ;; cache_setitem r child value ;;; ret value)) w
      /\ forall v w',
           map_common_subexpression rec self child scope w = (Ok v, w') ->
           cache_lookup r child w' = Some v
           /\ forall rec' w2, extends w' w2 ->
                map_common_subexpression rec' self child scope w2 = (Ok v, w2)).

(** One collection over the curve, one bound expression over it, and a
    mapper that knows the density [sigma]. *)
Definition cse_world : World :=
  mk_world [curve_places]
           [mk_collection 0 [] default_auto_where None]
           [mk_bound 0 (Var "sigma") [] 0 None].
Definition cse_mapper : EvaluationMapperBase := mk_mapper 0 0 0 [("sigma", VObj 3)].
Definition doubled_density : expr := Sum (Var "sigma") (Var "sigma").

(** Two bound expressions over one collection; only the first carries
    the attribute [iprec]. *)
Definition curve_descriptor : DOFDescriptor :=
  mk_dofdesc (mk_domain DOMAIN_TAG (TagStr "curve")) QBX_DOF_NODE.
Definition inverse_world : World :=
  mk_world [curve_places]
           [mk_collection 0 [] default_auto_where None]
           [mk_bound 0 (Var "u") [] 0 (Some VNone); mk_bound 0 (Var "v") [] 1 None].
Definition first_mapper : EvaluationMapperBase := mk_mapper 0 0 0 [("f", VObj 5)].
Definition second_mapper : EvaluationMapperBase := mk_mapper 1 0 0 [("f", VObj 5)].

(** An inverse node, and the same two bound expressions over a
    collection whose cache ["bound_op"] already holds an operator for
    the node. *)
Definition inverse_node : expr :=
  IterativeInverse (Var "u") (Var "f") "u" NoVars curve_descriptor.
Definition inverse_world_with_memo : World :=
  mk_world [curve_places]
           [mk_collection 0 [("bound_op", [(inverse_node, VBound 1)])]
              default_auto_where None]
           [mk_bound 0 (Var "u") [] 0 (Some VNone); mk_bound 0 (Var "v") [] 1 None].

(** Sum, minimum and maximum over natural numbers, by name. *)
Definition nat_reduction (name : string) (values : list nat) : nat :=
  if String.eqb name "sum" then fold_right Nat.add 0 values
  else if String.eqb name "max" then fold_right Nat.max 0 values
  else match values with
       | [] => 0
       | x :: rest => fold_right Nat.min x rest
       end.

(** Two elements of three nodes followed by one element of two nodes,
    found under the name "curve", and a density with one value per
    node. *)
Definition two_group_discr : discretization := make_discretization [(2, 3); (1, 2)].
Definition node_values : list nat := [1; 2; 3; 4; 5; 6; 7; 8].
Definition sample_get_discretization (geometry : tag) (discr_stage : pyval)
  : result discretization :=
  match geometry with
  | TagStr "curve" => Ok two_group_discr
  | _ => Raise (KeyError "geometry not in the collection")
  end.
Definition sample_operand (e : expr) : result (list nat) :=
  match e with
  | Var "sigma" => Ok node_values
  | _ => Raise (ExternalError "UnknownVariableError" 0)
  end.

(** Two declared domains of two and three nodes, and a bound expression
    that returns the density it is given. *)
Definition sample_nnodes (d : DOFDescriptor) : result nat :=
  match dom_tag (dd_domain d) with
  | TagStr "curve" => Ok 2
  | TagStr "probe" => Ok 3
  | _ => Raise (KeyError "geometry not in the collection")
  end.
Definition probe_descriptor : DOFDescriptor :=
  mk_dofdesc (mk_domain DOMAIN_TAG (TagStr "probe")) QBX_DOF_NODE.
Definition identity_call (bound_expr : nat) (args : list (string * value nat))
  : result (value nat) :=
  match args with
  | (_, v) :: _ => Ok v
  | [] => Raise (KeyError "u")
  end.

(** Places that are a collection already. *)
Definition is_collection (v : pyval) : bool :=
  match v with VCollection _ => true | _ => false end.

(** A places dictionary with a number where a geometry should be, under
    a name that is a keyword. *)
Definition broken_places : pydict :=
  [(TagStr "curve", VGeom curve_2d); (TagStr "class", VObj 1)].
Definition broken_world : World := mk_world [broken_places] [] [].

(** The store after the first bound expression has evaluated the common
    subexpression [f] with the given scope, and an evaluator that
    cannot evaluate anything. *)
Definition world_after_cse (scope : string) : World :=
  snd (map_common_subexpression sample_rec first_mapper (Var "f") scope inverse_world).
Definition failing_rec (self : EvaluationMapperBase) (e : expr) : M pyval :=
  raise (ExternalError "UnknownVariableError" 0).

(** What [hashable_kernel_args] makes of a value. *)
Definition hashable_value (val : kernel_arg) : kernel_arg :=
  match val with
  | KArray items => KValue (VTuple items)
  | other => other
  end.

Definition is_array (val : kernel_arg) : bool :=
  match val with KArray _ => true | KValue _ => false end.

(** Kernel arguments given in two orders. *)
Definition wave_arguments : kwdict kernel_arg :=
  [("k", KValue (VObj 2)); ("alpha", KArray [VObj 1; VObj 3])].
Definition wave_arguments_reordered : kwdict kernel_arg :=
  [("alpha", KArray [VObj 1; VObj 3]); ("k", KValue (VObj 2))].

(** The axes of the pairs increase strictly. *)
Definition axes_increase (axes : list (Z * Z)) : Prop :=
  StronglySorted (fun a b => (fst a < fst b)%Z) axes.

(** The dictionary [IntG.__init__] starts from. *)
Definition initial_kernel_arguments (kernel_arguments : kernel_arguments_arg)
  : kwdict kernel_arg :=
  match kernel_arguments with
  | ArgsNone => []
  | ArgsTuple pairs => dict_of_pairs pairs
  | ArgsDict d => d
  end.

(** A kernel, given by its number, with the one argument [k] and no
    argument of its own; a layer potential over it whose
    [kernel_arguments] name something the kernel does not know. *)
Definition sample_to_kernel_and_args (kernel : nat) : nat * kwdict kernel_arg := (kernel, []).
Definition sample_kernel_arg_names (kernel : nat) : list string := ["k"].
Definition sample_layer_potential : IntG nat :=
  mk_IntG nat 0 (Var "sigma") (LimitInt 1) VNone VNone
    [("lam", KValue (VObj 9)); ("k", KValue (VObj 2))].

(** The sum of the first [i] sizes: where block [i] starts. *)
Fixpoint block_offset (size : nat -> nat) (i : nat) : nat :=
  match i with
  | O => 0
  | S k => block_offset size k + size k
  end.

(** Every block row and every block column holds an array, the arrays
    of block row [i] have [heights i] rows and those of block column
    [j] have [widths j] columns. *)
Definition uniform_blocks {T : Type} (blocks : block_array T)
    (heights widths : nat -> nat) : Prop :=
  (forall i, i < nblock_rows T blocks ->
             exists j a, j < nblock_columns T blocks
                         /\ block_at T blocks i j = ArrayBlock T a)
  /\ (forall j, j < nblock_columns T blocks ->
                exists i a, i < nblock_rows T blocks
                            /\ block_at T blocks i j = ArrayBlock T a)
  /\ (forall i j a, i < nblock_rows T blocks -> j < nblock_columns T blocks ->
                    block_at T blocks i j = ArrayBlock T a ->
                    shape0 T a = heights i /\ shape1 T a = widths j).

(** The entry of a block, a zero block being all zeros. *)
Definition block_item {T : Type} (zero : T) (b : block T) (r c : nat) : T :=
  match b with
  | ZeroBlock _ => zero
  | ArrayBlock _ a => item T a r c
  end.

(** What the loops of [_bmat] have written after the block columns
    before [j] and the first [k] blocks of block column [j]. *)
Definition written {T : Type} (zero : T) (blocks : block_array T)
    (heights widths : nat -> nat) (res : ndarray T) (j k : nat) : Prop :=
  shape0 T res = block_offset heights (nblock_rows T blocks)
  /\ shape1 T res = block_offset widths (nblock_columns T blocks)
  /\ forall i' j' r c,
       i' < nblock_rows T blocks -> j' < nblock_columns T blocks ->
       j' < j \/ (j' = j /\ i' < k) ->
       r < heights i' -> c < widths j' ->
       item T res (block_offset heights i' + r) (block_offset widths j' + c)
       = block_item zero (block_at T blocks i' j') r c.

(** * Properties *)

(** ** Descriptors *)

Lemma tag_eqb_eq (a b : tag) : tag_eqb a b = true <-> a = b.
Proof.
  destruct a, b; simpl; try (split; [discriminate | congruence]);
    try (split; reflexivity).
  - rewrite String.eqb_eq. split; congruence.
  - rewrite Nat.eqb_eq. split; congruence.
Qed.

Lemma tag_eqb_refl (a : tag) : tag_eqb a a = true.
Proof. apply tag_eqb_eq. reflexivity. Qed.

Lemma domain_class_eqb_eq (a b : domain_class) : domain_class_eqb a b = true <-> a = b.
Proof. destruct a, b; simpl; split; congruence. Qed.

Lemma granularity_eqb_eq (a b : granularity) : granularity_eqb a b = true <-> a = b.
Proof. destruct a, b; simpl; split; congruence. Qed.

Lemma domain_eq_eq (a b : domain) : domain_eq a b = true <-> a = b.
Proof.
  unfold domain_eq. rewrite andb_true_iff, domain_class_eqb_eq, tag_eqb_eq.
  destruct a, b; simpl. split.
  - intros [-> ->]. reflexivity.
  - intros H. inversion H. auto.
Qed.

Lemma DOFDescriptor_eq_eq (a b : DOFDescriptor) : DOFDescriptor_eq a b = true <-> a = b.
Proof.
  unfold DOFDescriptor_eq. rewrite andb_true_iff, domain_eq_eq, granularity_eqb_eq.
  destruct a, b; simpl. split.
  - intros [-> ->]. reflexivity.
  - intros H. inversion H. auto.
Qed.

Lemma DOFDescriptor_eq_refl (d : DOFDescriptor) : DOFDescriptor_eq d d = true.
Proof. apply DOFDescriptor_eq_eq. reflexivity. Qed.

(** C9.  For a descriptor, a string name or one of the default tags,
    [as_dofdesc] returns a descriptor [d], and applying [as_dofdesc] to
    [d] again returns a descriptor equal to [d] under [__eq__]; [__eq__]
    holds exactly when the two domains and the two granularities are
    equal. *)
Theorem as_dofdesc_idempotent (x : pyval) (Hx : valid_desc_input x) :
  exists d : DOFDescriptor,
    as_dofdesc x = Ok d
    /\ (exists d', result_bind (as_dofdesc x) (fun y => as_dofdesc (VDesc y)) = Ok d'
                   /\ DOFDescriptor_eq d' d = true)
    /\ (forall a b : DOFDescriptor,
          DOFDescriptor_eq a b = true
          <-> (domain_eq (dd_domain a) (dd_domain b) = true
               /\ dd_granularity a = dd_granularity b)).
Proof.
  assert (Heq : forall a b : DOFDescriptor,
             DOFDescriptor_eq a b = true
             <-> (domain_eq (dd_domain a) (dd_domain b) = true
                  /\ dd_granularity a = dd_granularity b)).
  { intros a b. unfold DOFDescriptor_eq.
    rewrite andb_true_iff, granularity_eqb_eq. tauto. }
  destruct x; simpl in Hx; try contradiction.
  - eexists. split; [reflexivity|]. split; [|exact Heq].
    eexists. split; [reflexivity|]. apply DOFDescriptor_eq_refl.
  - eexists. split; [reflexivity|]. split; [|exact Heq].
    eexists. split; [reflexivity|]. apply DOFDescriptor_eq_refl.
  - eexists. split; [reflexivity|]. split; [|exact Heq].
    eexists. split; [reflexivity|]. apply DOFDescriptor_eq_refl.
  - exists d. split; [reflexivity|]. split; [|exact Heq].
    exists d. split; [reflexivity|]. apply DOFDescriptor_eq_refl.
Qed.

Lemma as_dofdesc_idempotent_witness :
  exists d : DOFDescriptor,
    as_dofdesc (VStr "scatterer") = Ok d
    /\ (exists d', result_bind (as_dofdesc (VStr "scatterer"))
                     (fun y => as_dofdesc (VDesc y)) = Ok d'
                   /\ DOFDescriptor_eq d' d = true)
    /\ (forall a b : DOFDescriptor,
          DOFDescriptor_eq a b = true
          <-> (domain_eq (dd_domain a) (dd_domain b) = true
               /\ dd_granularity a = dd_granularity b)).
Proof. apply (as_dofdesc_idempotent (VStr "scatterer")). exact I. Defined.

(** ** Expression preparation *)

(** C8.  [_prepare_auto_where] resolves the default pair by precedence:
    a 2-tuple is taken as (source, target); a single value is used for
    both; with [None] the collection's own pair is used; with [None] and
    no collection the defaults [DEFAULT_SOURCE] and [DEFAULT_TARGET]
    are used; each time the components go through [as_dofdesc] and the
    result is a pair of descriptors. *)
Theorem prepare_auto_where_precedence :
  (forall (s t : pyval) (ds dt : DOFDescriptor) (places : option GeometryCollection),
      as_dofdesc s = Ok ds -> as_dofdesc t = Ok dt ->
      _prepare_auto_where (VTuple [s; t]) places = Ok (ds, dt))
  /\ (forall (v : pyval) (d : DOFDescriptor) (places : option GeometryCollection),
        single_auto_where v -> as_dofdesc v = Ok d ->
        _prepare_auto_where v places = Ok (d, d))
  /\ (forall gc : GeometryCollection,
        _prepare_auto_where VNone (Some gc) = Ok (gc_auto_where gc))
  /\ _prepare_auto_where VNone None
     = Ok (mk_dofdesc (mk_domain DOMAIN_TAG TagDefaultSource) QBX_DOF_NODE,
           mk_dofdesc (mk_domain DOMAIN_TAG TagDefaultTarget) QBX_DOF_NODE).
Proof.
  split; [|split; [|split]].
  - intros s t ds dt places Hs Ht. unfold _prepare_auto_where. simpl.
    rewrite Hs. simpl. rewrite Ht. reflexivity.
  - intros v d places Hv Hd. unfold _prepare_auto_where.
    destruct v; simpl in Hv; try contradiction; simpl;
      simpl in Hd; rewrite ?Hd; simpl; rewrite ?Hd; try reflexivity;
      try (inversion Hd; reflexivity).
  - intros gc. unfold _prepare_auto_where. simpl.
    destruct (gc_auto_where gc). reflexivity.
  - reflexivity.
Qed.

Lemma prepare_auto_where_precedence_witness :
  _prepare_auto_where (VTuple [VStr "source"; VDefaultTarget]) None
  = Ok (mk_dofdesc (mk_domain DOMAIN_TAG (TagStr "source")) QBX_DOF_NODE,
        mk_dofdesc (mk_domain DOMAIN_TAG TagDefaultTarget) QBX_DOF_NODE)
  /\ _prepare_auto_where (VStr "source") None
     = Ok (mk_dofdesc (mk_domain DOMAIN_TAG (TagStr "source")) QBX_DOF_NODE,
           mk_dofdesc (mk_domain DOMAIN_TAG (TagStr "source")) QBX_DOF_NODE).
Proof.
  split.
  - apply (proj1 prepare_auto_where_precedence); reflexivity.
  - apply (proj1 (proj2 prepare_auto_where_precedence)); [exact I | reflexivity].
Defined.

(** ** The store *)

Lemma nth_error_app_last {A : Type} (l : list A) (x : A) :
  nth_error (l ++ [x]) (List.length l) = Some x.
Proof. induction l; simpl; auto. Qed.

Lemma nth_error_app_old {A : Type} (l : list A) (x y : A) (n : nat) :
  nth_error l n = Some y -> nth_error (l ++ [x]) n = Some y.
Proof.
  revert n. induction l as [|a l IH]; intros [|n] H; simpl in *; try discriminate; auto.
Qed.

Lemma update_nth_app_last {A : Type} (l : list A) (x : A) (f : A -> A) :
  update_nth (List.length l) f (l ++ [x]) = l ++ [f x].
Proof. induction l; simpl; congruence. Qed.

Lemma nth_error_update_nth_same {A : Type} (l : list A) (n : nat) (f : A -> A) (x : A) :
  nth_error l n = Some x -> nth_error (update_nth n f l) n = Some (f x).
Proof.
  revert n. induction l as [|a l IH]; intros [|n] H; simpl in *;
    try discriminate; auto; congruence.
Qed.

Lemma nth_error_update_nth_other {A : Type} (l : list A) (n m : nat) (f : A -> A) :
  n <> m -> nth_error (update_nth n f l) m = nth_error l m.
Proof.
  revert n m. induction l as [|a l IH]; intros [|n] [|m] H; simpl; auto;
    try congruence.
Qed.

Lemma nth_error_bound {A : Type} (l : list A) (n : nat) (x : A) :
  nth_error l n = Some x -> n < List.length l.
Proof. intros H. apply nth_error_Some. congruence. Qed.

(** ** Dictionaries *)

Lemma dict_get_set_same (k : tag) (v : pyval) (d : pydict) :
  dict_get k (dict_set k v d) = Some v.
Proof.
  induction d as [|[k' v'] d IH]; simpl.
  - rewrite tag_eqb_refl. reflexivity.
  - destruct (tag_eqb k k') eqn:E; simpl; rewrite E; auto.
Qed.

Lemma dict_get_set_other (k k' : tag) (v : pyval) (d : pydict) :
  k <> k' -> dict_get k (dict_set k' v d) = dict_get k d.
Proof.
  intros Hne. induction d as [|[k1 v1] d IH]; simpl.
  - destruct (tag_eqb k k') eqn:E; auto. apply tag_eqb_eq in E. contradiction.
  - destruct (tag_eqb k' k1) eqn:E1; simpl.
    + apply tag_eqb_eq in E1. subst k1.
      destruct (tag_eqb k k') eqn:E; auto. apply tag_eqb_eq in E. contradiction.
    + destruct (tag_eqb k k1); auto.
Qed.

Lemma dict_get_not_in (k : tag) (d : pydict) :
  ~ In k (dict_keys d) -> dict_get k d = None.
Proof.
  induction d as [|[k' v'] d IH]; simpl; auto.
  intros H. destruct (tag_eqb k k') eqn:E.
  - apply tag_eqb_eq in E. subst. exfalso. apply H. auto.
  - apply IH. intros Hin. apply H. auto.
Qed.

(** After [d.update(other)], a key of [other] has the value [other]
    gives it and every other key keeps the value it had in [d]. *)
Lemma dict_get_update (k : tag) (other d : pydict) :
  NoDup (dict_keys other) ->
  dict_get k (dict_update d other)
  = match dict_get k other with
    | Some v => Some v
    | None => dict_get k d
    end.
Proof.
  unfold dict_update. revert d.
  induction other as [|[k' v'] other IH]; intros d Hnd; simpl; auto.
  inversion Hnd as [|? ? Hnotin Hnd']; subst.
  rewrite IH by assumption.
  destruct (tag_eqb k k') eqn:E.
  - apply tag_eqb_eq in E. subst k'.
    rewrite (dict_get_not_in k other Hnotin). apply dict_get_set_same.
  - destruct (dict_get k other); auto.
    apply dict_get_set_other. intros ->. rewrite tag_eqb_refl in E. discriminate.
Qed.

(** ** Running computations *)

Lemma bind_M_ok {A B : Type} (m : M A) (k : A -> M B) (w w' : World) (a : A) :
  m w = (Ok a, w') -> bind_M m k w = k a w'.
Proof. intros H. unfold bind_M. rewrite H. reflexivity. Qed.

Lemma bind_M_raise {A B : Type} (m : M A) (k : A -> M B) (w w' : World) (e : exn) :
  m w = (Raise e, w') -> bind_M m k w = (Raise e, w').
Proof. intros H. unfold bind_M. rewrite H. reflexivity. Qed.

Lemma read_dict_ok (l : loc) (d : pydict) (w : World) :
  nth_error (dicts w) l = Some d -> read_dict l w = (Ok d, w).
Proof. intros H. unfold read_dict. rewrite H. reflexivity. Qed.

Lemma read_collection_ok (c : loc) (g : GeometryCollection) (w : World) :
  nth_error (collections w) c = Some g -> read_collection c w = (Ok g, w).
Proof. intros H. unfold read_collection. rewrite H. reflexivity. Qed.

Lemma read_bound_ok (b : loc) (x : BoundExpression) (w : World) :
  nth_error (bound_exprs w) b = Some x -> read_bound b w = (Ok x, w).
Proof. intros H. unfold read_bound. rewrite H. reflexivity. Qed.

Lemma for_each_ok {A : Type} (f : A -> M unit) (l : list A) (w : World) :
  (forall a, In a l -> f a w = (Ok tt, w)) -> for_each f l w = (Ok tt, w).
Proof.
  induction l as [|a l IH]; intros H; simpl; auto.
  rewrite (bind_M_ok _ _ w w tt) by (apply H; simpl; auto).
  apply IH. intros b Hb. apply H. simpl. auto.
Qed.

(** ** GeometryCollection *)

Lemma supported_geometry_is_geom (v : pyval) :
  supported_geometry v = true -> exists g, v = VGeom g.
Proof.
  destruct v; unfold supported_geometry; simpl; try discriminate. eauto.
Qed.

Lemma single_valued_mismatch (l : list nat) (a b : nat) :
  In a l -> In b l -> a <> b -> single_valued l = Raise AssertionError.
Proof.
  destruct l as [|first others]; simpl; [contradiction|].
  intros Ha Hb Hne.
  destruct (forallb (fun o => Nat.eqb o first) others) eqn:E; auto.
  rewrite forallb_forall in E.
  assert (Hall : forall x, In x (first :: others) -> x = first).
  { intros x [Hx|Hx]; [congruence|]. apply Nat.eqb_eq. apply E. assumption. }
  exfalso. apply Hne. rewrite (Hall a), (Hall b); simpl; auto.
Qed.

Section RuntimeFacts.

Variable is_identifier : string -> bool.
Variable iskeyword : string -> bool.

Local Abbreviation valid_name := (valid_name is_identifier iskeyword).
Local Abbreviation valid_places := (valid_places is_identifier iskeyword).

Lemma valid_places_set (k : tag) (v : pyval) (d : pydict) :
  valid_name k = true -> supported_geometry v = true ->
  valid_places d -> valid_places (dict_set k v d).
Proof.
  intros Hk Hv Hd. induction Hd as [|[k' v'] d [Hk' Hv'] Hd IH]; simpl.
  - constructor; [split; assumption | constructor].
  - destruct (tag_eqb k k') eqn:E.
    + constructor; [split; assumption | assumption].
    + constructor; [split; assumption | assumption].
Qed.

Lemma valid_places_update (d other : pydict) :
  valid_places d -> valid_places other -> valid_places (dict_update d other).
Proof.
  unfold dict_update. intros Hd Ho. revert d Hd.
  induction Ho as [|[k v] other [Hk Hv] Ho IH]; intros d Hd; simpl; auto.
  apply IH. apply valid_places_set; assumption.
Qed.

Lemma check_places_ok (l : loc) (d : pydict) (w : World) :
  nth_error (dicts w) l = Some d ->
  valid_places d ->
  check_places is_identifier iskeyword (VDict l) w = (Ok tt, w).
Proof.
  intros Hl Hd. unfold check_places, itervalues, iterkeys.
  unfold valid_places in Hd. rewrite Forall_forall in Hd.
  rewrite (bind_M_ok _ _ w w (dict_values d))
    by (rewrite (bind_M_ok _ _ w w d) by (apply read_dict_ok; assumption); reflexivity).
  rewrite (bind_M_ok _ _ w w tt).
  - rewrite (bind_M_ok _ _ w w (dict_keys d))
      by (rewrite (bind_M_ok _ _ w w d) by (apply read_dict_ok; assumption); reflexivity).
    apply for_each_ok. intros k Hk.
    unfold dict_keys in Hk. apply in_map_iff in Hk. destruct Hk as [[k' v] [<- Hin]].
    destruct (Hd _ Hin) as [Hn _]. simpl in *.
    destruct k'; simpl in *; try reflexivity. rewrite Hn. reflexivity.
  - apply for_each_ok. intros p Hp.
    unfold dict_values in Hp. apply in_map_iff in Hp. destruct Hp as [[k v] [<- Hin]].
    destruct (Hd _ Hin) as [_ Hv]. unfold supported_geometry in Hv. simpl in *.
    rewrite Hv. reflexivity.
Qed.

(** The constructor on a valid dictionary: the dictionary itself becomes
    the places of a new collection with empty caches. *)
Lemma init_dict_ok (w : World) (l : loc) (d : pydict) (aw : pyval) (s t : DOFDescriptor) :
  nth_error (dicts w) l = Some d ->
  valid_places d ->
  _prepare_auto_where aw None = Ok (s, t) ->
  GeometryCollection_init is_identifier iskeyword (VDict l) aw w
  = (Ok (List.length (collections w)),
     mk_world (dicts w ++ [[]])
              (collections w ++ [mk_collection l [] (s, t) None])
              (bound_exprs w)).
Proof.
  intros Hl Hd Haw. unfold GeometryCollection_init.
  unfold bind_M at 1. simpl.
  unfold bind_M at 1. unfold lift. rewrite Haw.
  unfold bind_M at 1. simpl.
  unfold bind_M at 1. simpl.
  set (w1 := mk_world (dicts w ++ [[]]) (collections w) (bound_exprs w)).
  assert (Hl1 : nth_error (dicts w1) l = Some d)
    by (apply nth_error_app_old; assumption).
  rewrite (bind_M_ok _ _ w1 w1 tt (check_places_ok l d w1 Hl1 Hd)).
  reflexivity.
Qed.

End RuntimeFacts.

Lemma dict_setitem_last (ds : list pydict) (cs : list GeometryCollection)
    (bs : list BoundExpression) (x : pydict) (k : tag) (v : pyval) :
  dict_setitem (List.length ds) k v (mk_world (ds ++ [x]) cs bs)
  = (Ok tt, mk_world (ds ++ [dict_set k v x]) cs bs).
Proof.
  unfold dict_setitem, modify_dict. simpl.
  rewrite nth_error_app_last, update_nth_app_last. reflexivity.
Qed.

Section CollectionProperties.

Variable is_identifier : string -> bool.
Variable iskeyword : string -> bool.

Local Abbreviation valid_places := (valid_places is_identifier iskeyword).
Local Abbreviation valid_name := (valid_name is_identifier iskeyword).
Local Abbreviation init := (GeometryCollection_init is_identifier iskeyword).

Lemma map_M_ambient_dims (d : pydict) (w : World) :
  valid_places d ->
  map_M (fun p =>
           match p with
           | VGeom x => ret (geo_ambient_dim x)
           | _ => raise (AttributeError "object has no attribute ambient_dim")
           end)
        (dict_values d) w
  = (Ok (map ambient_dim_of (dict_values d)), w).
Proof.
  intros Hd. induction Hd as [|[k v] d [_ Hv] Hd IH]; simpl; auto.
  destruct (supported_geometry_is_geom v Hv) as [g ->].
  unfold bind_M at 1. simpl. unfold bind_M at 1. rewrite IH. reflexivity.
Qed.

(** C2, as the code has it.  The constructor does not look at ambient
    dimensions: on a dictionary of supported geometries under valid
    names it returns the collection, also when two of the geometries
    differ in ambient dimension; such a mismatch is raised by the first
    read of the property [ambient_dim]. *)
Theorem init_defers_ambient_dim_check (w : World) (l : loc) (d : pydict)
    (aw : pyval) (s t : DOFDescriptor) :
  nth_error (dicts w) l = Some d ->
  valid_places d ->
  _prepare_auto_where aw None = Ok (s, t) ->
  exists (c : loc) (w' : World),
    init (VDict l) aw w = (Ok c, w')
    /\ (exists g, nth_error (collections w') c = Some g
                  /\ gc_places g = l
                  /\ nth_error (dicts w') l = Some d)
    /\ (forall g1 g2 : geometry,
          In (VGeom g1) (dict_values d) -> In (VGeom g2) (dict_values d) ->
          geo_ambient_dim g1 <> geo_ambient_dim g2 ->
          ambient_dim c w' = (Raise AssertionError, w')).
Proof.
  intros Hl Hd Haw.
  rewrite (init_dict_ok is_identifier iskeyword w l d aw s t Hl Hd Haw).
  eexists. eexists. split; [reflexivity|].
  set (g := mk_collection l [] (s, t) None).
  set (w' := mk_world _ _ _).
  assert (Hg : nth_error (collections w') (List.length (collections w)) = Some g)
    by apply nth_error_app_last.
  assert (Hl' : nth_error (dicts w') l = Some d)
    by (apply nth_error_app_old; assumption).
  split.
  - exists g. auto.
  - intros g1 g2 H1 H2 Hne. unfold ambient_dim.
    rewrite (bind_M_ok _ _ w' w' g) by (apply read_collection_ok; assumption).
    change (gc_ambient_dim_memo g) with (@None nat). cbv iota.
    change (gc_places g) with l.
    rewrite (bind_M_ok _ _ w' w' d) by (apply read_dict_ok; assumption).
    rewrite (bind_M_ok _ _ w' w' _ (map_M_ambient_dims d w' Hd)).
    apply bind_M_raise. unfold lift. f_equal.
    apply (single_valued_mismatch _ (geo_ambient_dim g1) (geo_ambient_dim g2)); auto.
    + apply (in_map ambient_dim_of _ _ H1).
    + apply (in_map ambient_dim_of _ _ H2).
Qed.

(** C10, as the code has it.  From one geometry object the constructor
    never returns a collection.  A layer potential source, a target, a
    discretization or another potential source is to be stored under
    [auto_source.geometry] or [auto_target.geometry], and a descriptor
    has no attribute [geometry]: the constructor raises
    [AttributeError] at that read, for a bare target too, before the
    validation pass is reached.  An object of none of these classes
    takes the place of the places dictionary and fails in the
    validation pass.  In no case is a collection created. *)
Theorem init_single_geometry_raises (w : World) (g : geometry) (aw : pyval)
    (s t : DOFDescriptor) :
  _prepare_auto_where aw None = Ok (s, t) ->
  exists w' : World,
    init (VGeom g) aw w
    = (Raise (AttributeError
                (if is_QBXLayerPotentialSource g || is_TargetBase g
                    || is_Discretization g || is_PotentialSource g
                 then "DOFDescriptor object has no attribute geometry"
                 else "object has no attribute values")), w')
    /\ collections w' = collections w.
Proof.
  intros Haw.
  set (n := List.length (dicts w)).
  set (w1 := mk_world (dicts w ++ [[]]) (collections w) (bound_exprs w)).
  assert (Halloc : alloc_dict [] w = (Ok n, w1)) by reflexivity.
  assert (Hprep : lift (_prepare_auto_where aw None) w1 = (Ok (s, t), w1))
    by (unfold lift; rewrite Haw; reflexivity).
  exists w1. split; [|reflexivity].
  unfold GeometryCollection_init.
  rewrite (bind_M_ok _ _ w w1 n Halloc).
  rewrite (bind_M_ok _ _ w1 w1 (s, t) Hprep).
  simpl isinstance_QBXLayerPotentialSource. simpl isinstance_TargetBase.
  simpl isinstance_Discretization. simpl isinstance_PotentialSource.
  destruct (is_QBXLayerPotentialSource g); [reflexivity|].
  destruct (is_TargetBase g); [reflexivity|].
  rewrite (bind_M_ok _ _ w1 w1 (s, t)) by reflexivity.
  destruct (is_Discretization g); [reflexivity|].
  destruct (is_PotentialSource g); reflexivity.
Qed.

End CollectionProperties.

(** ** Caches *)

Lemma expr_eqb_refl (e : expr) : expr_eqb e e = true.
Proof.
  induction e using expr_mut
    with (P0 := fun vs => var_items_eqb vs vs = true); simpl;
    rewrite ?String.eqb_refl, ?DOFDescriptor_eq_refl;
    repeat match goal with H : _ = true |- _ => rewrite H; clear H end;
    reflexivity.
Qed.

Lemma expr_eqb_eq (x y : expr) : expr_eqb x y = true -> x = y.
Proof.
  revert y. induction x using expr_mut
    with (P0 := fun vs => forall vs', var_items_eqb vs vs' = true -> vs = vs');
    intros y H; destruct y; simpl in H; try discriminate;
    repeat match goal with
           | H : _ && _ = true |- _ => apply andb_true_iff in H; destruct H
           | H : String.eqb _ _ = true |- _ => apply String.eqb_eq in H
           | H : DOFDescriptor_eq _ _ = true |- _ => apply DOFDescriptor_eq_eq in H
           end;
    subst; f_equal; auto.
Qed.

Lemma cache_get_set_same (k : expr) (v : pyval) (c : cache) :
  cache_get k (cache_set k v c) = Some v.
Proof.
  induction c as [|[k' v'] c IH]; simpl.
  - rewrite expr_eqb_refl. reflexivity.
  - destruct (expr_eqb k k') eqn:E; simpl; rewrite E; auto.
Qed.

Lemma cache_get_set_other (k k' : expr) (v : pyval) (c : cache) :
  k <> k' -> cache_get k (cache_set k' v c) = cache_get k c.
Proof.
  intros Hne. induction c as [|[k1 v1] c IH]; simpl.
  - destruct (expr_eqb k k') eqn:E; auto. apply expr_eqb_eq in E. contradiction.
  - destruct (expr_eqb k' k1) eqn:E1; simpl.
    + apply expr_eqb_eq in E1. subst k1.
      destruct (expr_eqb k k') eqn:E; auto. apply expr_eqb_eq in E. contradiction.
    + destruct (expr_eqb k k1); auto.
Qed.

(** A stored key keeps its value when a key not yet in the cache is
    stored. *)
Lemma cache_get_set_preserved (k k' : expr) (v v' : pyval) (c : cache) :
  cache_get k c = Some v -> cache_get k' c = None ->
  cache_get k (cache_set k' v' c) = Some v.
Proof.
  intros Hk Hk'. rewrite cache_get_set_other; auto.
  intros ->. congruence.
Qed.

Lemma caches_get_setdefault_same (name : string) (cs : caches) :
  caches_get name (caches_setdefault name cs)
  = Some (match caches_get name cs with Some c => c | None => [] end).
Proof.
  unfold caches_setdefault. destruct (caches_get name cs) eqn:E; auto.
  induction cs as [|[n c] cs IH]; simpl in *.
  - rewrite String.eqb_refl. reflexivity.
  - destruct (String.eqb name n); [discriminate | auto].
Qed.

Lemma caches_get_setdefault_other (name name' : string) (cs : caches) :
  name <> name' ->
  caches_get name (caches_setdefault name' cs) = caches_get name cs.
Proof.
  intros Hne. unfold caches_setdefault. destruct (caches_get name' cs); auto.
  induction cs as [|[n c] cs IH]; simpl.
  - destruct (String.eqb name name') eqn:E; auto.
    apply String.eqb_eq in E. contradiction.
  - destruct (String.eqb name n); auto.
Qed.

Lemma caches_setdefault_present (name : string) (cs : caches) (c : cache) :
  caches_get name cs = Some c -> caches_setdefault name cs = cs.
Proof. intros H. unfold caches_setdefault. rewrite H. reflexivity. Qed.

Lemma caches_get_modify_same (name : string) (f : cache -> cache) (cs : caches) :
  caches_get name (caches_modify name f cs)
  = match caches_get name cs with Some c => Some (f c) | None => None end.
Proof.
  induction cs as [|[n c] cs IH]; simpl; auto.
  destruct (String.eqb name n) eqn:E; simpl; rewrite E; auto.
Qed.

Lemma caches_get_modify_other (name name' : string) (f : cache -> cache) (cs : caches) :
  name <> name' ->
  caches_get name (caches_modify name' f cs) = caches_get name cs.
Proof.
  intros Hne. induction cs as [|[n c] cs IH]; simpl; auto.
  destruct (String.eqb name' n) eqn:E1; simpl.
  - apply String.eqb_eq in E1. subst n.
    destruct (String.eqb name name') eqn:E; auto.
    apply String.eqb_eq in E. contradiction.
  - destruct (String.eqb name n); auto.
Qed.

(** ** Merging collections *)

Lemma modify_dict_last (ds : list pydict) (cs : list GeometryCollection)
    (bs : list BoundExpression) (x : pydict) (f : pydict -> pydict) :
  modify_dict (List.length ds) f (mk_world (ds ++ [x]) cs bs)
  = (Ok tt, mk_world (ds ++ [f x]) cs bs).
Proof.
  unfold modify_dict. simpl.
  rewrite nth_error_app_last, update_nth_app_last. reflexivity.
Qed.

Lemma modify_collection_ok (c : loc) (g : GeometryCollection)
    (f : GeometryCollection -> GeometryCollection) (w : World) :
  nth_error (collections w) c = Some g ->
  modify_collection c f w
  = (Ok tt, mk_world (dicts w) (update_nth c f (collections w)) (bound_exprs w)).
Proof. intros H. unfold modify_collection. rewrite H. reflexivity. Qed.

Lemma modify_bound_ok (b : loc) (x : BoundExpression)
    (f : BoundExpression -> BoundExpression) (w : World) :
  nth_error (bound_exprs w) b = Some x ->
  modify_bound b f w
  = (Ok tt, mk_world (dicts w) (collections w) (update_nth b f (bound_exprs w))).
Proof. intros H. unfold modify_bound. rewrite H. reflexivity. Qed.

(** Storing in a cache of collection [c] changes the record of [c] only,
    and afterwards the cache holds the value under the key. *)
Lemma store_in_cache_run (c : loc) (g : GeometryCollection) (name : string)
    (key : expr) (value : pyval) (w : World) :
  nth_error (collections w) c = Some g ->
  exists w'' : World,
    store_in_cache c name key value w = (Ok tt, w'')
    /\ dicts w'' = dicts w
    /\ (forall c', c' <> c -> nth_error (collections w'') c' = nth_error (collections w) c')
    /\ (exists ch, cache_of (CollectionCache c name) w'' = Some ch
                   /\ cache_get key ch = Some value).
Proof.
  intros Hc. unfold store_in_cache, GeometryCollection_get_cache.
  set (f1 := fun g0 => set_gc_caches (caches_setdefault name (gc_caches g0)) g0).
  set (f2 := fun g0 => set_gc_caches
                         (caches_modify name (cache_set key value) (gc_caches g0)) g0).
  set (w1 := mk_world (dicts w) (update_nth c f1 (collections w)) (bound_exprs w)).
  assert (H1 : nth_error (collections w1) c = Some (f1 g))
    by (apply nth_error_update_nth_same; assumption).
  exists (mk_world (dicts w1) (update_nth c f2 (collections w1)) (bound_exprs w1)).
  split.
  - rewrite (bind_M_ok _ _ w w1 (CollectionCache c name)).
    + unfold cache_setitem. fold f2. apply (modify_collection_ok c (f1 g)). assumption.
    + rewrite (bind_M_ok _ _ w w1 tt) by (apply (modify_collection_ok c g); assumption).
      reflexivity.
  - split; [reflexivity|]. split.
    + intros c' Hne. simpl.
      rewrite nth_error_update_nth_other by congruence.
      apply nth_error_update_nth_other. congruence.
    + unfold cache_of. cbn [collections].
      rewrite (nth_error_update_nth_same _ c f2 (f1 g) H1).
      unfold f2, f1. simpl. rewrite caches_get_modify_same, caches_get_setdefault_same.
      eexists. split; [reflexivity|]. apply cache_get_set_same.
Qed.

Section MergeProperties.

Variable is_identifier : string -> bool.
Variable iskeyword : string -> bool.

Local Abbreviation valid_places := (valid_places is_identifier iskeyword).
Local Abbreviation copy := (GeometryCollection_copy is_identifier iskeyword).
Local Abbreviation merge := (GeometryCollection_merge is_identifier iskeyword).

Lemma copy_dict_ok (w : World) (self : loc) (g : GeometryCollection) (l : loc) (d : pydict) :
  nth_error (collections w) self = Some g ->
  nth_error (dicts w) l = Some d ->
  valid_places d ->
  copy self (Some l) VNone w
  = (Ok (List.length (collections w)),
     mk_world ((dicts w ++ [d]) ++ [[]])
              (collections w
               ++ [mk_collection (List.length (dicts w)) [] (gc_auto_where g) None])
              (bound_exprs w)).
Proof.
  intros Hg Hl Hd. unfold GeometryCollection_copy.
  rewrite (bind_M_ok _ _ w w g) by (apply read_collection_ok; assumption).
  set (w1 := mk_world (dicts w ++ [d]) (collections w) (bound_exprs w)).
  rewrite (bind_M_ok _ _ w w1 (List.length (dicts w))).
  - destruct (gc_auto_where g) as [s t] eqn:Eaw.
    apply (init_dict_ok is_identifier iskeyword w1 (List.length (dicts w)) d).
    + apply nth_error_app_last.
    + assumption.
    + reflexivity.
  - unfold dict_copy.
    rewrite (bind_M_ok _ _ w w d) by (apply read_dict_ok; assumption).
    reflexivity.
Qed.

Lemma merge_run (w : World) (self : loc) (g : GeometryCollection) (d : pydict)
    (arg : merge_arg) (darg : pydict) :
  nth_error (collections w) self = Some g ->
  nth_error (dicts w) (gc_places g) = Some d ->
  merge_arg_dict w arg darg ->
  valid_places d -> valid_places darg ->
  merge self arg w
  = (Ok (List.length (collections w)),
     mk_world (((dicts w ++ [dict_update d darg]) ++ [dict_update d darg]) ++ [[]])
              (collections w
               ++ [mk_collection (List.length (dicts w ++ [dict_update d darg])) []
                                 (gc_auto_where g) None])
              (bound_exprs w)).
Proof.
  intros Hg Hd Harg Hvd Hvarg. unfold GeometryCollection_merge.
  rewrite (bind_M_ok _ _ w w g) by (apply read_collection_ok; assumption).
  set (n := List.length (dicts w)).
  set (w1 := mk_world (dicts w ++ [d]) (collections w) (bound_exprs w)).
  rewrite (bind_M_ok _ _ w w1 n)
    by (unfold dict_copy;
        rewrite (bind_M_ok _ _ w w d) by (apply read_dict_ok; assumption);
        reflexivity).
  set (dm := dict_update d darg).
  set (w2 := mk_world (dicts w ++ [dm]) (collections w) (bound_exprs w)).
  rewrite (bind_M_ok _ _ w1 w2 tt).
  - change (List.length (dicts w ++ [dm])) with (List.length (dicts w2)).
    change (collections w) with (collections w2).
    change (bound_exprs w) with (bound_exprs w2).
    change (dicts w ++ [dm]) with (dicts w2).
    apply (copy_dict_ok w2 self g n dm).
    + assumption.
    + apply nth_error_app_last.
    + apply valid_places_update; assumption.
  - destruct arg as [|l|c]; simpl in Harg.
    + subst darg. reflexivity.
    + rewrite (bind_M_ok _ _ w1 w1 darg)
        by (apply read_dict_ok; apply nth_error_app_old; assumption).
      destruct darg as [|kv rest] eqn:E.
      * reflexivity.
      * unfold n, w1. rewrite modify_dict_last. reflexivity.
    + destruct Harg as [oc [Hoc Hdo]].
      rewrite (bind_M_ok _ _ w1 w1 oc) by (apply read_collection_ok; assumption).
      rewrite (bind_M_ok _ _ w1 w1 darg)
        by (apply read_dict_ok; apply nth_error_app_old; assumption).
      unfold n, w1. rewrite modify_dict_last. reflexivity.
Qed.

(** C7.  [merge] returns a collection that is a new object with a new
    places dictionary; that dictionary has the entries of [self] with
    the argument's entries taking precedence; every collection and
    every dictionary that existed before, [self] and its places
    dictionary among them, is as it was; the new collection starts
    with empty caches, and a value stored in a cache of one of the two
    collections does not show in the other. *)
Theorem merge_fresh_collection (w : World) (self : loc) (g : GeometryCollection)
    (d : pydict) (arg : merge_arg) (darg : pydict) :
  nth_error (collections w) self = Some g ->
  nth_error (dicts w) (gc_places g) = Some d ->
  merge_arg_dict w arg darg ->
  valid_places d -> valid_places darg -> NoDup (dict_keys darg) ->
  exists (new : loc) (w' : World) (gn : GeometryCollection) (dn : pydict),
    merge self arg w = (Ok new, w')
    /\ nth_error (collections w) new = None
    /\ nth_error (collections w') new = Some gn
    /\ nth_error (dicts w) (gc_places gn) = None
    /\ nth_error (dicts w') (gc_places gn) = Some dn
    /\ (forall k, dict_get k dn
                  = match dict_get k darg with
                    | Some v => Some v
                    | None => dict_get k d
                    end)
    /\ gc_caches gn = []
    /\ gc_auto_where gn = gc_auto_where g
    /\ (forall c gc, nth_error (collections w) c = Some gc ->
                     nth_error (collections w') c = Some gc)
    /\ (forall l dl, nth_error (dicts w) l = Some dl ->
                     nth_error (dicts w') l = Some dl)
    /\ (forall name key value, exists w'',
           store_in_cache new name key value w' = (Ok tt, w'')
           /\ nth_error (collections w'') self = Some g)
    /\ (forall name key value, exists w'',
           store_in_cache self name key value w' = (Ok tt, w'')
           /\ nth_error (collections w'') new = Some gn).
Proof.
  intros Hg Hd Harg Hvd Hvarg Hnd.
  rewrite (merge_run w self g d arg darg Hg Hd Harg Hvd Hvarg).
  set (dm := dict_update d darg).
  set (gn := mk_collection (List.length (dicts w ++ [dm])) [] (gc_auto_where g) None).
  set (w' := mk_world _ _ _).
  assert (Hself : self < List.length (collections w)) by (eapply nth_error_bound; eauto).
  assert (Hnew : nth_error (collections w') (List.length (collections w)) = Some gn)
    by apply nth_error_app_last.
  assert (Hframe : forall c gc, nth_error (collections w) c = Some gc ->
                                nth_error (collections w') c = Some gc)
    by (intros c gc H; apply nth_error_app_old; assumption).
  exists (List.length (collections w)), w', gn, dm.
  split; [reflexivity|].
  split; [apply nth_error_None; lia|].
  split; [assumption|].
  split; [apply nth_error_None; simpl; rewrite length_app; simpl; lia|].
  split; [simpl; apply nth_error_app_old; apply nth_error_app_last|].
  split; [intros k; apply dict_get_update; assumption|].
  split; [reflexivity|].
  split; [reflexivity|].
  split; [assumption|].
  split; [intros l dl H; simpl; do 3 apply nth_error_app_old; assumption|].
  split.
  - intros name key value.
    destruct (store_in_cache_run _ gn name key value w' Hnew) as [w'' [Hrun [_ [Hother _]]]].
    exists w''. split; [assumption|].
    rewrite Hother by lia. apply Hframe. assumption.
  - intros name key value.
    destruct (store_in_cache_run self g name key value w' (Hframe _ _ Hg))
      as [w'' [Hrun [_ [Hother _]]]].
    exists w''. split; [assumption|].
    rewrite Hother by lia. assumption.
Qed.

End MergeProperties.

(** ** Concrete runs of the collection properties *)

(** The constructor accepts a curve in the plane next to a surface in
    space. *)
Lemma init_accepts_mixed_ambient_dims :
  fst (GeometryCollection_init ascii_isidentifier python3_iskeyword
         (VDict 0) VNone mixed_world) = Ok 0
  /\ ~ init_rejects_mixed_ambient_dims ascii_isidentifier python3_iskeyword.
Proof.
  split; [reflexivity|].
  intros H.
  destruct (H mixed_world 0 mixed_places VNone curve_2d surface_3d) as [e [w' Hr]].
  - reflexivity.
  - simpl. auto.
  - simpl. auto.
  - simpl. discriminate.
  - vm_compute in Hr. discriminate.
Qed.

Lemma mixed_places_valid : valid_places ascii_isidentifier python3_iskeyword mixed_places.
Proof. repeat constructor. Qed.

Lemma init_defers_ambient_dim_check_witness :
  exists (c : loc) (w' : World),
    GeometryCollection_init ascii_isidentifier python3_iskeyword (VDict 0) VNone mixed_world
    = (Ok c, w')
    /\ (exists g, nth_error (collections w') c = Some g
                  /\ gc_places g = 0
                  /\ nth_error (dicts w') 0 = Some mixed_places)
    /\ (forall g1 g2 : geometry,
          In (VGeom g1) (dict_values mixed_places) ->
          In (VGeom g2) (dict_values mixed_places) ->
          geo_ambient_dim g1 <> geo_ambient_dim g2 ->
          ambient_dim c w' = (Raise AssertionError, w')).
Proof.
  apply (init_defers_ambient_dim_check ascii_isidentifier python3_iskeyword
           mixed_world 0 mixed_places VNone
           (mk_dofdesc (mk_domain DOMAIN_TAG TagDefaultSource) QBX_DOF_NODE)
           (mk_dofdesc (mk_domain DOMAIN_TAG TagDefaultTarget) QBX_DOF_NODE)).
  - reflexivity.
  - exact mixed_places_valid.
  - reflexivity.
Defined.

Lemma init_single_geometry_raises_witness :
  (exists w' : World,
      GeometryCollection_init ascii_isidentifier python3_iskeyword
        (VGeom curve_2d) VNone empty_world
      = (Raise (AttributeError "DOFDescriptor object has no attribute geometry"), w')
      /\ collections w' = collections empty_world)
  /\ (exists w' : World,
        GeometryCollection_init ascii_isidentifier python3_iskeyword
          (VGeom qbx_source) VNone empty_world
        = (Raise (AttributeError "DOFDescriptor object has no attribute geometry"), w')
        /\ collections w' = collections empty_world)
  /\ (exists w' : World,
        GeometryCollection_init ascii_isidentifier python3_iskeyword
          (VGeom points_target) VNone empty_world
        = (Raise (AttributeError "DOFDescriptor object has no attribute geometry"), w')
        /\ collections w' = collections empty_world).
Proof.
  split; [|split].
  - apply (init_single_geometry_raises ascii_isidentifier python3_iskeyword
             empty_world curve_2d VNone _ _ eq_refl).
  - apply (init_single_geometry_raises ascii_isidentifier python3_iskeyword
             empty_world qbx_source VNone _ _ eq_refl).
  - apply (init_single_geometry_raises ascii_isidentifier python3_iskeyword
             empty_world points_target VNone _ _ eq_refl).
Defined.

Lemma merge_fresh_collection_witness :
  exists (new : loc) (w' : World) (gn : GeometryCollection) (dn : pydict),
    GeometryCollection_merge ascii_isidentifier python3_iskeyword 0 (MergeDict 1) merge_world
    = (Ok new, w')
    /\ nth_error (collections w') new = Some gn
    /\ nth_error (dicts w') (gc_places gn) = Some dn
    /\ dict_get (TagStr "probe") dn = Some (VGeom qbx_source)
    /\ dict_get (TagStr "curve") dn = Some (VGeom curve_2d)
    /\ gc_caches gn = []
    /\ nth_error (collections w') 0 = Some curve_collection
    /\ nth_error (dicts w') 0 = Some curve_places.
Proof.
  destruct (merge_fresh_collection ascii_isidentifier python3_iskeyword
              merge_world 0 curve_collection curve_places (MergeDict 1) more_places)
    as [new [w' [gn [dn [H1 [_ [H3 [_ [H5 [H6 [H7 [_ [H9 [H10 _]]]]]]]]]]]]]].
  - reflexivity.
  - reflexivity.
  - reflexivity.
  - repeat constructor.
  - repeat constructor.
  - repeat constructor; simpl; intuition discriminate.
  - exists new, w', gn, dn.
    split; [exact H1|]. split; [exact H3|]. split; [exact H5|].
    split; [rewrite H6; reflexivity|]. split; [rewrite H6; reflexivity|].
    split; [exact H7|]. split; [apply H9; reflexivity | apply H10; reflexivity].
Defined.

(** ** Windows of arrays *)

Lemma length_py_slice {A : Type} (a : list A) (start stop : nat) :
  start <= stop -> stop <= List.length a ->
  List.length (py_slice a start stop) = stop - start.
Proof.
  intros H1 H2. unfold py_slice. rewrite length_skipn, length_firstn. lia.
Qed.

Lemma set_window_app {A : Type} (done rest vals : list A) :
  List.length vals <= List.length rest ->
  set_window (done ++ rest) (List.length done) vals
  = (done ++ vals) ++ skipn (List.length vals) rest.
Proof.
  intros H. unfold set_window.
  rewrite firstn_app, firstn_all, Nat.sub_diag. simpl. rewrite app_nil_r.
  rewrite skipn_app.
  rewrite (skipn_all2 done) by lia. simpl.
  replace (List.length done + List.length vals - List.length done)
    with (List.length vals) by lia.
  rewrite app_assoc. reflexivity.
Qed.

Lemma consecutive_bounds {G : Type} (base size : G -> nat) (gs : list G) (start : nat) (g : G) :
  consecutive base size start gs -> In g gs ->
  start <= base g /\ base g + size g <= start + sum_sizes size gs.
Proof.
  revert start. induction gs as [|h gs IH]; intros start Hc Hin; [contradiction|].
  destruct Hc as [Hb Hc]. simpl. destruct Hin as [-> | Hin].
  - lia.
  - destruct (IH _ Hc Hin). lia.
Qed.

(** Writing consecutive blocks one after the other fills the array with
    the blocks in order. *)
Lemma fold_set_window {A G : Type} (base size : G -> nat) (blk : G -> list A)
    (gs : list G) (done rest : list A) :
  consecutive base size (List.length done) gs ->
  (forall g, In g gs -> List.length (blk g) = size g) ->
  sum_sizes size gs <= List.length rest ->
  fold_left (fun res g => set_window res (base g) (blk g)) gs (done ++ rest)
  = (done ++ List.concat (map blk gs)) ++ skipn (sum_sizes size gs) rest.
Proof.
  revert done rest. induction gs as [|h gs IH]; intros done rest Hc Hlen Hsum; simpl.
  - rewrite app_nil_r. reflexivity.
  - destruct Hc as [Hb Hc]. simpl in Hsum.
    assert (Hh : List.length (blk h) = size h) by (apply Hlen; simpl; auto).
    rewrite Hb, set_window_app by lia.
    rewrite IH.
    + rewrite skipn_skipn, Hh.
      replace (sum_sizes size gs + size h) with (size h + sum_sizes size gs) by lia.
      rewrite <- !app_assoc. reflexivity.
    + rewrite length_app, Hh. assumption.
    + intros g Hg. apply Hlen. simpl. auto.
    + rewrite length_skipn. lia.
Qed.

Lemma nth_error_blocks {A G : Type} (base size : G -> nat) (blk : G -> list A)
    (gs : list G) (done : list A) (g : G) (j : nat) :
  consecutive base size (List.length done) gs ->
  (forall g', In g' gs -> List.length (blk g') = size g') ->
  In g gs -> j < size g ->
  nth_error (done ++ List.concat (map blk gs)) (base g + j) = nth_error (blk g) j.
Proof.
  revert done. induction gs as [|h gs IH]; intros done Hc Hlen Hin Hj; [contradiction|].
  destruct Hc as [Hb Hc]. simpl.
  assert (Hh : List.length (blk h) = size h) by (apply Hlen; simpl; auto).
  destruct Hin as [-> | Hin].
  - rewrite Hb, nth_error_app2 by lia.
    replace (List.length done + j - List.length done) with j by lia.
    apply nth_error_app1. lia.
  - rewrite app_assoc. apply IH; auto.
    + rewrite length_app, Hh. assumption.
    + intros g' Hg'. apply Hlen. simpl. auto.
Qed.

Lemma nth_error_concat_uniform {A : Type} (rows : list (list A)) (nd el idof : nat)
    (row : list A) :
  (forall r, In r rows -> List.length r = nd) ->
  nth_error rows el = Some row -> idof < nd ->
  nth_error (List.concat rows) (el * nd + idof) = nth_error row idof.
Proof.
  revert el. induction rows as [|r rows IH]; intros el Hlen Hel Hi.
  - destruct el; discriminate.
  - assert (Hr : List.length r = nd) by (apply Hlen; simpl; auto).
    destruct el as [|el]; simpl in *.
    + inversion Hel; subst r. apply nth_error_app1. lia.
    + rewrite nth_error_app2 by lia.
      replace (nd + el * nd + idof - List.length r) with (el * nd + idof) by lia.
      apply IH; auto.
Qed.

Lemma length_concat_uniform {A : Type} (rows : list (list A)) (nd : nat) :
  (forall r, In r rows -> List.length r = nd) ->
  List.length (List.concat rows) = List.length rows * nd.
Proof.
  induction rows as [|r rows IH]; intros Hlen; simpl; auto.
  rewrite length_app, IH by (intros; apply Hlen; simpl; auto).
  rewrite (Hlen r) by (simpl; auto). reflexivity.
Qed.

Lemma length_concat_blocks {A G : Type} (size : G -> nat) (blk : G -> list A) (gs : list G) :
  (forall g, In g gs -> List.length (blk g) = size g) ->
  List.length (List.concat (map blk gs)) = sum_sizes size gs.
Proof.
  induction gs as [|h gs IH]; intros Hlen; simpl; auto.
  rewrite length_app, IH by (intros; apply Hlen; simpl; auto).
  rewrite (Hlen h) by (simpl; auto). reflexivity.
Qed.

Lemma make_groups_consecutive_nodes (shapes : list (nat * nat)) (nb eb : nat) :
  consecutive node_nr_base (fun g => nelements g * nunit_nodes g) nb
    (make_groups shapes nb eb).
Proof.
  revert nb eb. induction shapes as [|[ne nd] shapes IH]; intros nb eb; simpl; auto.
Qed.

Lemma make_groups_consecutive_elements (shapes : list (nat * nat)) (nb eb : nat) :
  consecutive element_nr_base nelements eb (make_groups shapes nb eb).
Proof.
  revert nb eb. induction shapes as [|[ne nd] shapes IH]; intros nb eb; simpl; auto.
Qed.

Lemma sum_sizes_nodes (shapes : list (nat * nat)) (nb eb : nat) :
  sum_sizes (fun g => nelements g * nunit_nodes g) (make_groups shapes nb eb)
  = total_nodes shapes.
Proof.
  revert nb eb. induction shapes as [|[ne nd] shapes IH]; intros nb eb; simpl; auto.
Qed.

Lemma sum_sizes_elements (shapes : list (nat * nat)) (nb eb : nat) :
  sum_sizes nelements (make_groups shapes nb eb) = total_elements shapes.
Proof.
  revert nb eb. induction shapes as [|[ne nd] shapes IH]; intros nb eb; simpl; auto.
Qed.

(** ** Elementwise reductions *)

Section ReductionProperties.

Variable T : Type.
Variable reduction : string -> list T -> T.
Variable uninitialized : nat -> T.
Variable get_discretization : tag -> pyval -> result discretization.
Variable rec : expr -> result (list T).

Lemma group_view_row_length (grp : element_group) (operand : list T) (r : list T) :
  node_nr_base grp + nelements grp * nunit_nodes grp <= List.length operand ->
  In r (group_view T grp operand) -> List.length r = nunit_nodes grp.
Proof.
  intros Hb Hin. unfold group_view in Hin.
  apply in_map_iff in Hin. destruct Hin as [el [<- Hel]].
  apply in_seq in Hel. unfold element_dofs.
  rewrite length_py_slice; [lia | lia |].
  assert (el * nunit_nodes grp + nunit_nodes grp <= nelements grp * nunit_nodes grp) by nia.
  lia.
Qed.

Lemma group_view_nth (grp : element_group) (operand : list T) (el : nat) :
  el < nelements grp ->
  nth_error (group_view T grp operand) el = Some (element_dofs T grp operand el).
Proof.
  intros Hel. unfold group_view.
  rewrite nth_error_map, nth_error_seq.
  apply Nat.ltb_lt in Hel. rewrite Hel. reflexivity.
Qed.

Lemma length_group_view (grp : element_group) (operand : list T) :
  List.length (group_view T grp operand) = nelements grp.
Proof. unfold group_view. rewrite length_map, length_seq. reflexivity. Qed.

Lemma node_block_length (name : string) (grp : element_group) (operand : list T) :
  node_nr_base grp + nelements grp * nunit_nodes grp <= List.length operand ->
  List.length (List.concat (node_knl T reduction name (group_view T grp operand)))
  = nelements grp * nunit_nodes grp.
Proof.
  intros Hb. rewrite (length_concat_uniform _ (nunit_nodes grp)).
  - unfold node_knl. rewrite length_map, length_group_view. reflexivity.
  - intros r Hr. unfold node_knl in Hr. apply in_map_iff in Hr.
    destruct Hr as [row [<- Hrow]]. rewrite repeat_length.
    apply (group_view_row_length grp operand); assumption.
Qed.

Lemma node_block_nth (name : string) (grp : element_group) (operand : list T)
    (el idof : nat) :
  node_nr_base grp + nelements grp * nunit_nodes grp <= List.length operand ->
  el < nelements grp -> idof < nunit_nodes grp ->
  nth_error (List.concat (node_knl T reduction name (group_view T grp operand)))
            (el * nunit_nodes grp + idof)
  = Some (reduction name (element_dofs T grp operand el)).
Proof.
  intros Hb Hel Hi.
  rewrite (nth_error_concat_uniform _ (nunit_nodes grp) el idof
             (repeat (reduction name (element_dofs T grp operand el)) (nunit_nodes grp))).
  - apply nth_error_repeat. assumption.
  - intros r Hr. unfold node_knl in Hr. apply in_map_iff in Hr.
    destruct Hr as [row [<- Hrow]]. rewrite repeat_length.
    apply (group_view_row_length grp operand); assumption.
  - unfold node_knl. rewrite nth_error_map, group_view_nth by assumption.
    simpl. f_equal. f_equal.
    apply (group_view_row_length grp operand); auto.
    unfold group_view. apply in_map. apply in_seq. lia.
  - assumption.
Qed.

Lemma length_cl_array_empty (n : nat) :
  List.length (cl_array_empty T uninitialized n) = n.
Proof. unfold cl_array_empty. rewrite length_map, length_seq. reflexivity. Qed.

(** What the local function [_reduce] computes for an operand with one
    entry per node: with the node kernel an array of the operand's
    length in which every node of an element holds the reduction of
    that element's nodes, with the element kernel one value per mesh
    element, at the element's global number. *)
Lemma reduce_by_group_views (reduction_name : string)
    (shapes : list (nat * nat)) (operand : list T) :
  List.length operand = nnodes (make_discretization shapes) ->
  (exists res : list T,
     _reduce_node T reduction uninitialized reduction_name
       (make_discretization shapes) operand = res
     /\ List.length res = List.length operand
     /\ forall (grp : element_group) (el idof : nat),
          In grp (groups (make_discretization shapes)) ->
          el < nelements grp -> idof < nunit_nodes grp ->
          nth_error res (node_nr_base grp + el * nunit_nodes grp + idof)
          = Some (reduction reduction_name (element_dofs T grp operand el)))
  /\ (exists res : list T,
        _reduce_element T reduction uninitialized reduction_name
          (make_discretization shapes) operand = res
        /\ List.length res = mesh_nelements (make_discretization shapes)
        /\ forall (grp : element_group) (el : nat),
             In grp (groups (make_discretization shapes)) ->
             el < nelements grp ->
             nth_error res (element_nr_base grp + el)
             = Some (reduction reduction_name (element_dofs T grp operand el))).
Proof.
  intros Hlen. simpl in Hlen.
  set (gs := make_groups shapes 0 0).
  assert (Hsumn : sum_sizes (fun g => nelements g * nunit_nodes g) gs = total_nodes shapes)
    by apply sum_sizes_nodes.
  assert (Hsume : sum_sizes nelements gs = total_elements shapes)
    by apply sum_sizes_elements.
  assert (Hrange : forall g, In g gs ->
             node_nr_base g + nelements g * nunit_nodes g <= List.length operand).
  { intros g Hg.
    destruct (consecutive_bounds node_nr_base (fun g => nelements g * nunit_nodes g)
                gs 0 g (make_groups_consecutive_nodes shapes 0 0) Hg) as [_ H].
    rewrite Hsumn in H. lia. }
  split.
  -    set (blk := fun g => List.concat (node_knl T reduction reduction_name (group_view T g operand))).
    assert (Hblk : forall g, In g gs ->
               List.length (blk g) = nelements g * nunit_nodes g)
      by (intros g Hg; apply node_block_length; auto).
    assert (Hfold : _reduce_node T reduction uninitialized reduction_name
                      (make_discretization shapes) operand
                    = List.concat (map blk gs)).
    { unfold _reduce_node, write_group_view. simpl groups. simpl nnodes. fold gs.
      pose proof (fold_set_window node_nr_base (fun g => nelements g * nunit_nodes g)
                    blk gs [] (cl_array_empty T uninitialized (total_nodes shapes))
                    (make_groups_consecutive_nodes shapes 0 0) Hblk) as H.
      rewrite Hsumn in H.
      rewrite length_cl_array_empty in H. specialize (H (le_n _)).
      simpl app in H. unfold blk in H. rewrite H.
      rewrite skipn_all2 by (rewrite length_cl_array_empty; lia).
      apply app_nil_r. }
    exists (List.concat (map blk gs)). split; [exact Hfold|]. split.
    + rewrite Hlen, (length_concat_blocks _ blk gs Hblk), Hsumn. reflexivity.
    + intros grp el idof Hgrp Hel Hi. simpl groups in Hgrp. fold gs in Hgrp.
      rewrite <- Nat.add_assoc.
      pose proof (nth_error_blocks node_nr_base (fun g => nelements g * nunit_nodes g)
                    blk gs [] grp (el * nunit_nodes grp + idof)
                    (make_groups_consecutive_nodes shapes 0 0) Hblk Hgrp) as H.
      simpl app in H. rewrite H by nia.
      apply node_block_nth; auto.
  - set (blk := fun g => element_knl T reduction reduction_name (group_view T g operand)).
    assert (Hblk : forall g, In g gs -> List.length (blk g) = nelements g).
    { intros g Hg. unfold blk, element_knl.
      rewrite length_map. apply length_group_view. }
    pose proof (fold_set_window element_nr_base nelements
                  blk gs [] (cl_array_empty T uninitialized (total_elements shapes))
                  (make_groups_consecutive_elements shapes 0 0) Hblk) as H.
    rewrite Hsume in H.
    rewrite length_cl_array_empty in H. specialize (H (le_n _)).
    simpl app in H.
    rewrite skipn_all2 in H by (rewrite length_cl_array_empty; lia).
    rewrite app_nil_r in H.
    exists (List.concat (map blk gs)). split; [|split].
    + unfold _reduce_element, write_mesh_el_view.
      simpl groups. simpl mesh_nelements. fold gs. exact H.
    + simpl mesh_nelements.
      rewrite (length_concat_blocks _ blk gs Hblk), Hsume. reflexivity.
    + intros grp el Hgrp Hel. simpl groups in Hgrp. fold gs in Hgrp.
      pose proof (nth_error_blocks element_nr_base nelements
                    blk gs [] grp el
                    (make_groups_consecutive_elements shapes 0 0) Hblk Hgrp Hel) as Hn.
      simpl app in Hn. rewrite Hn.
      unfold blk, element_knl.
      rewrite nth_error_map, group_view_nth by assumption. reflexivity.
Qed.


(** C4, as the code has it.  The method starts by reading
    [expr.dofdesc], and the nodes [ElementwiseSum], [ElementwiseMin]
    and [ElementwiseMax] keep [where] and have no such attribute: every
    call raises [AttributeError] there, whatever the reduction, the
    operand, [where] and the collection are, before the discretization
    is looked up, the operand is evaluated or a granularity is
    compared. *)
Theorem elementwise_reduction_raises (reduction_name : string) (operand_expr : expr)
    (where_ : pyval) :
  _map_elementwise_reduction T reduction uninitialized get_discretization rec
    reduction_name operand_expr where_
  = Raise (AttributeError "object has no attribute dofdesc")
  /\ map_elementwise_sum T reduction uninitialized get_discretization rec operand_expr where_
     = Raise (AttributeError "object has no attribute dofdesc")
  /\ map_elementwise_min T reduction uninitialized get_discretization rec operand_expr where_
     = Raise (AttributeError "object has no attribute dofdesc")
  /\ map_elementwise_max T reduction uninitialized get_discretization rec operand_expr where_
     = Raise (AttributeError "object has no attribute dofdesc").
Proof.
  unfold map_elementwise_sum, map_elementwise_min, map_elementwise_max,
    _map_elementwise_reduction, Expression_dofdesc.
  repeat split.
Qed.

End ReductionProperties.

(** ** Memoization in named caches *)

Lemma caches_le_refl (cs : caches) : caches_le cs cs.
Proof. intros name c H. exists c. split; [assumption | intros k v Hk; assumption]. Qed.

Lemma caches_le_trans (a b c : caches) : caches_le a b -> caches_le b c -> caches_le a c.
Proof.
  intros Hab Hbc name ca Ha.
  destruct (Hab _ _ Ha) as [cb [Hb Hle1]].
  destruct (Hbc _ _ Hb) as [cc [Hc Hle2]].
  exists cc. split; [assumption|]. intros k v Hk. apply Hle2, Hle1, Hk.
Qed.

Lemma extends_refl (w : World) : extends w w.
Proof.
  split.
  - intros c g H. exists g. split; [assumption | apply caches_le_refl].
  - intros b x H. exists x. split; [assumption|]. split; [reflexivity | apply caches_le_refl].
Qed.

Lemma extends_trans (w1 w2 w3 : World) : extends w1 w2 -> extends w2 w3 -> extends w1 w3.
Proof.
  intros [Hc12 Hb12] [Hc23 Hb23]. split.
  - intros c g H. destruct (Hc12 _ _ H) as [g2 [H2 Hle2]].
    destruct (Hc23 _ _ H2) as [g3 [H3 Hle3]].
    exists g3. split; [assumption | eapply caches_le_trans; eauto].
  - intros b x H. destruct (Hb12 _ _ H) as [x2 [H2 [Hp2 Hle2]]].
    destruct (Hb23 _ _ H2) as [x3 [H3 [Hp3 Hle3]]].
    exists x3. split; [assumption|]. split; [congruence | eapply caches_le_trans; eauto].
Qed.

Lemma extends_lookup (w w' : World) (r : cache_ref) (k : expr) (v : pyval) :
  extends w w' -> cache_lookup r k w = Some v -> cache_lookup r k w' = Some v.
Proof.
  intros [Hc Hb] H. unfold cache_lookup, cache_of in *. destruct r as [c name | b name].
  - destruct (nth_error (collections w) c) as [g|] eqn:Eg; [|discriminate].
    destruct (caches_get name (gc_caches g)) as [ch|] eqn:Ech; [|discriminate].
    destruct (Hc _ _ Eg) as [g' [Eg' Hle]]. rewrite Eg'.
    destruct (Hle _ _ Ech) as [ch' [Ech' Hle']]. rewrite Ech'. apply Hle'. assumption.
  - destruct (nth_error (bound_exprs w) b) as [x|] eqn:Ex; [|discriminate].
    destruct (caches_get name (be_caches x)) as [ch|] eqn:Ech; [|discriminate].
    destruct (Hb _ _ Ex) as [x' [Ex' [_ Hle]]]. rewrite Ex'.
    destruct (Hle _ _ Ech) as [ch' [Ech' Hle']]. rewrite Ech'. apply Hle'. assumption.
Qed.

Lemma caches_le_setdefault (name : string) (cs : caches) :
  caches_le cs (caches_setdefault name cs).
Proof.
  intros n c H. destruct (String.eqb n name) eqn:E.
  - apply String.eqb_eq in E. subst n.
    rewrite (caches_setdefault_present name cs c H).
    exists c. split; [assumption | intros k v Hk; assumption].
  - exists c. split.
    + rewrite caches_get_setdefault_other; [assumption|].
      intros ->. rewrite String.eqb_refl in E. discriminate.
    + intros k v Hk. assumption.
Qed.

Lemma update_nth_same {A : Type} (l : list A) (n : nat) (f : A -> A) (x : A) :
  nth_error l n = Some x -> f x = x -> update_nth n f l = l.
Proof.
  revert n. induction l as [|a l IH]; intros [|n] H Hf; simpl in *; try discriminate; auto.
  - inversion H; subst. rewrite Hf. reflexivity.
  - rewrite (IH n H Hf). reflexivity.
Qed.

(** Changing the record of one collection in a way that only grows its
    caches extends the store. *)
Lemma extends_update_collection (w : World) (c : loc) (g : GeometryCollection)
    (f : GeometryCollection -> GeometryCollection) :
  nth_error (collections w) c = Some g ->
  caches_le (gc_caches g) (gc_caches (f g)) ->
  extends w (mk_world (dicts w) (update_nth c f (collections w)) (bound_exprs w)).
Proof.
  intros Hg Hle. split; simpl.
  - intros c' g' H'. destruct (Nat.eq_dec c c') as [<- | Hne].
    + rewrite Hg in H'. inversion H'; subst g'.
      exists (f g). split; [apply nth_error_update_nth_same; assumption | assumption].
    + exists g'. rewrite nth_error_update_nth_other by assumption.
      split; [assumption | apply caches_le_refl].
  - intros b x H. exists x. split; [assumption|].
    split; [reflexivity | apply caches_le_refl].
Qed.

Lemma extends_update_bound (w : World) (b : loc) (x : BoundExpression)
    (f : BoundExpression -> BoundExpression) :
  nth_error (bound_exprs w) b = Some x ->
  be_places (f x) = be_places x ->
  caches_le (be_caches x) (be_caches (f x)) ->
  extends w (mk_world (dicts w) (collections w) (update_nth b f (bound_exprs w))).
Proof.
  intros Hx Hp Hle. split; simpl.
  - intros c g H. exists g. split; [assumption | apply caches_le_refl].
  - intros b' x' H'. destruct (Nat.eq_dec b b') as [<- | Hne].
    + rewrite Hx in H'. inversion H'; subst x'.
      exists (f x). split; [apply nth_error_update_nth_same; assumption|].
      split; assumption.
    + exists x'. rewrite nth_error_update_nth_other by assumption.
      split; [assumption|]. split; [reflexivity | apply caches_le_refl].
Qed.

Lemma world_eta (w : World) : mk_world (dicts w) (collections w) (bound_exprs w) = w.
Proof. destruct w; reflexivity. Qed.

Lemma caches_le_store_after (cs cs1 : caches) (name : string) (key : expr) (value : pyval) :
  caches_le cs cs1 ->
  (forall c, caches_get name cs = Some c -> cache_get key c = None) ->
  caches_le cs (caches_modify name (cache_set key value) cs1).
Proof.
  intros Hle Hfresh n c H. destruct (Hle _ _ H) as [c1 [H1 Hle1]].
  destruct (String.eqb n name) eqn:E.
  - apply String.eqb_eq in E. subst n.
    rewrite caches_get_modify_same, H1.
    eexists. split; [reflexivity|]. intros k u Hk.
    rewrite cache_get_set_other.
    + apply Hle1. assumption.
    + intros ->. rewrite (Hfresh c H) in Hk. discriminate.
  - exists c1. split; [|assumption].
    rewrite caches_get_modify_other; [assumption|].
    intros ->. rewrite String.eqb_refl in E. discriminate.
Qed.

(** [get_cache] returns the reference, creates the cache when it is
    missing and changes nothing when it is there. *)
Lemma get_cache_of_run (r : cache_ref) (w : World) :
  owner_exists r w ->
  exists w0 : World,
    get_cache_of r w = (Ok r, w0)
    /\ extends w w0
    /\ (exists c, cache_of r w0 = Some c)
    /\ (forall k, cache_lookup r k w0 = cache_lookup r k w)
    /\ (forall c, cache_of r w = Some c -> w0 = w).
Proof.
  destruct r as [c name | b name]; intros [o Ho]; simpl.
  - unfold GeometryCollection_get_cache.
    set (f := fun g => set_gc_caches (caches_setdefault name (gc_caches g)) g).
    exists (mk_world (dicts w) (update_nth c f (collections w)) (bound_exprs w)).
    split; [rewrite (bind_M_ok _ _ _ _ tt (modify_collection_ok c o f w Ho)); reflexivity|].
    split; [apply (extends_update_collection w c o f Ho); apply caches_le_setdefault|].
    unfold cache_lookup, cache_of. cbn [collections].
    rewrite (nth_error_update_nth_same _ c f o Ho), Ho. unfold f. simpl.
    rewrite caches_get_setdefault_same.
    split; [eexists; reflexivity|]. split.
    + intros k. destruct (caches_get name (gc_caches o)); reflexivity.
    + intros ch Hch. rewrite (update_nth_same _ c _ o Ho).
      * apply world_eta.
      * rewrite (caches_setdefault_present _ _ _ Hch). destruct o; reflexivity.
  - unfold BoundExpression_get_cache.
    set (f := fun x => set_be_caches (caches_setdefault name (be_caches x)) x).
    exists (mk_world (dicts w) (collections w) (update_nth b f (bound_exprs w))).
    split; [rewrite (bind_M_ok _ _ _ _ tt (modify_bound_ok b o f w Ho)); reflexivity|].
    split; [apply (extends_update_bound w b o f Ho);
            [reflexivity | apply caches_le_setdefault]|].
    unfold cache_lookup, cache_of. cbn [bound_exprs].
    rewrite (nth_error_update_nth_same _ b f o Ho), Ho. unfold f. simpl.
    rewrite caches_get_setdefault_same.
    split; [eexists; reflexivity|]. split.
    + intros k. destruct (caches_get name (be_caches o)); reflexivity.
    + intros ch Hch. rewrite (update_nth_same _ b _ o Ho).
      * apply world_eta.
      * rewrite (caches_setdefault_present _ _ _ Hch). destruct o; reflexivity.
Qed.

Lemma extends_cache_of (w w' : World) (r : cache_ref) (c : cache) :
  extends w w' -> cache_of r w = Some c -> exists c', cache_of r w' = Some c'.
Proof.
  intros [Hc Hb] H. unfold cache_of in *. destruct r as [o name | o name].
  - destruct (nth_error (collections w) o) as [g|] eqn:Eg; [|discriminate].
    destruct (Hc _ _ Eg) as [g' [Eg' Hle]]. rewrite Eg'.
    destruct (Hle _ _ H) as [c' [Hc' _]]. eauto.
  - destruct (nth_error (bound_exprs w) o) as [x|] eqn:Ex; [|discriminate].
    destruct (Hb _ _ Ex) as [x' [Ex' [_ Hle]]]. rewrite Ex'.
    destruct (Hle _ _ H) as [c' [Hc' _]]. eauto.
Qed.

(** Storing a value for a key that had none in [w]: the store succeeds
    in any later store [w1] that still has the cache, the key then has
    the value, and everything [w] held is kept. *)
Lemma cache_setitem_run (r : cache_ref) (key : expr) (value : pyval)
    (w w1 : World) (c1 : cache) :
  extends w w1 ->
  cache_lookup r key w = None ->
  cache_of r w1 = Some c1 ->
  exists w' : World,
    cache_setitem r key value w1 = (Ok tt, w')
    /\ cache_lookup r key w' = Some value
    /\ extends w w'.
Proof.
  intros Hext Hmiss Hc1. pose proof Hext as [Hcs Hbs].
  unfold cache_lookup, cache_of in *. destruct r as [o name | o name]; simpl.
  - destruct (nth_error (collections w1) o) as [g1|] eqn:Eg1; [|discriminate].
    set (f := fun g => set_gc_caches
                         (caches_modify name (cache_set key value) (gc_caches g)) g).
    exists (mk_world (dicts w1) (update_nth o f (collections w1)) (bound_exprs w1)).
    split; [apply (modify_collection_ok o g1); assumption|].
    cbn [collections bound_exprs]. split.
    + rewrite (nth_error_update_nth_same _ o f g1 Eg1). unfold f. simpl.
      rewrite caches_get_modify_same, Hc1. apply cache_get_set_same.
    + unfold extends. cbn [collections bound_exprs]. split.
      * intros c g Hg. destruct (Hcs _ _ Hg) as [g' [Hg' Hle]].
        destruct (Nat.eq_dec o c) as [<- | Hne].
        -- rewrite Eg1 in Hg'. inversion Hg'; subst g'.
           exists (f g1). split; [apply nth_error_update_nth_same; assumption|].
           unfold f. simpl. apply caches_le_store_after; [assumption|].
           intros ch Hch. rewrite Hg, Hch in Hmiss. assumption.
        -- exists g'. rewrite nth_error_update_nth_other by assumption. auto.
      * assumption.
  - destruct (nth_error (bound_exprs w1) o) as [x1|] eqn:Ex1; [|discriminate].
    set (f := fun x => set_be_caches
                         (caches_modify name (cache_set key value) (be_caches x)) x).
    exists (mk_world (dicts w1) (collections w1) (update_nth o f (bound_exprs w1))).
    split; [apply (modify_bound_ok o x1); assumption|].
    cbn [collections bound_exprs]. split.
    + rewrite (nth_error_update_nth_same _ o f x1 Ex1). unfold f. simpl.
      rewrite caches_get_modify_same, Hc1. apply cache_get_set_same.
    + unfold extends. cbn [collections bound_exprs]. split.
      * assumption.
      * intros b x Hx. destruct (Hbs _ _ Hx) as [x' [Hx' [Hp Hle]]].
        destruct (Nat.eq_dec o b) as [<- | Hne].
        -- rewrite Ex1 in Hx'. inversion Hx'; subst x'.
           exists (f x1). split; [apply nth_error_update_nth_same; assumption|].
           split; [exact Hp|].
           unfold f. simpl. apply caches_le_store_after; [assumption|].
           intros ch Hch. rewrite Hx, Hch in Hmiss. assumption.
        -- exists x'. rewrite nth_error_update_nth_other by assumption. auto.
Qed.

Lemma cache_getitem_hit (r : cache_ref) (key : expr) (value : pyval) (w : World) :
  cache_lookup r key w = Some value -> cache_getitem r key w = (Ok value, w).
Proof.
  unfold cache_lookup, cache_getitem. destruct (cache_of r w); [|discriminate].
  intros ->. reflexivity.
Qed.

Lemma cache_getitem_miss (r : cache_ref) (key : expr) (c : cache) (w : World) :
  cache_of r w = Some c -> cache_lookup r key w = None ->
  cache_getitem r key w = (Raise (KeyError "cache"), w).
Proof.
  unfold cache_lookup, cache_getitem. intros ->. intros ->. reflexivity.
Qed.

(** ** Common subexpressions *)

Lemma get_cache_of_missing (r : cache_ref) (w : World) :
  ~ owner_exists r w -> get_cache_of r w = (Raise dangling, w).
Proof.
  destruct r as [c name | b name]; simpl; intros H.
  - unfold GeometryCollection_get_cache, bind_M, modify_collection.
    destruct (nth_error (collections w) c) eqn:E; [|reflexivity].
    exfalso. apply H. eauto.
  - unfold BoundExpression_get_cache, bind_M, modify_bound.
    destruct (nth_error (bound_exprs w) b) eqn:E; [|reflexivity].
    exfalso. apply H. eauto.
Qed.

Lemma owner_exists_dec (r : cache_ref) (w : World) :
  owner_exists r w \/ ~ owner_exists r w.
Proof.
  destruct r as [c name | b name]; simpl.
  - destruct (nth_error (collections w) c); [left; eauto | right; intros [g H]; discriminate].
  - destruct (nth_error (bound_exprs w) b); [left; eauto | right; intros [g H]; discriminate].
Qed.

Lemma lookup_owner_exists (r : cache_ref) (k : expr) (v : pyval) (w : World) :
  cache_lookup r k w = Some v ->
  owner_exists r w /\ exists c, cache_of r w = Some c.
Proof.
  unfold cache_lookup. destruct (cache_of r w) as [c|] eqn:E; [|discriminate].
  intros _. split; [|eauto].
  unfold cache_of in E. destruct r as [o name | o name]; simpl.
  - destruct (nth_error (collections w) o); [eauto | discriminate].
  - destruct (nth_error (bound_exprs w) o); [eauto | discriminate].
Qed.

Section CseProperties.

Variable rec : EvaluationMapperBase -> expr -> M pyval.

(** A hit: the memoized value, without evaluating anything and without
    changing the store. *)
Lemma cached_eval_hit (self : EvaluationMapperBase) (r : cache_ref) (child : expr)
    (v : pyval) (w : World) :
  cache_lookup r child w = Some v ->
  cached_eval rec self r child w = (Ok v, w).
Proof.
  intros Hv. destruct (lookup_owner_exists r child v w Hv) as [Ho [c Hc]].
  destruct (get_cache_of_run r w Ho) as [w0 [Hrun [_ [_ [_ Hsame]]]]].
  rewrite (Hsame c Hc) in Hrun. unfold cached_eval.
  rewrite (bind_M_ok _ _ _ _ _ Hrun).
  unfold cse_lookup_or_compute, try_except_KeyError.
  rewrite (cache_getitem_hit r child v w Hv). reflexivity.
Qed.

(** A miss: the child is evaluated once and its value is stored. *)
Lemma cached_eval_miss (self : EvaluationMapperBase) (r : cache_ref) (child : expr)
    (w : World) :
  owner_exists r w ->
  cache_lookup r child w = None ->
  cached_eval rec self r child w
  = (get_cache_of r ;;;
     (value <- rec self child ;; cache_setitem r child value ;;; ret value)) w.
Proof.
  intros Ho Hmiss.
  destruct (get_cache_of_run r w Ho) as [w0 [Hrun [_ [[c Hc] [Hlk _]]]]].
  unfold cached_eval. rewrite !(bind_M_ok _ _ _ _ _ Hrun).
  unfold cse_lookup_or_compute, try_except_KeyError.
  rewrite (cache_getitem_miss r child c w0 Hc) by (rewrite Hlk; assumption).
  reflexivity.
Qed.

Lemma cached_eval_grows (self : EvaluationMapperBase) (r : cache_ref) (child : expr)
    (w w' : World) (res : result pyval) :
  (forall w0 r0 w1, rec self child w0 = (r0, w1) -> extends w0 w1) ->
  cached_eval rec self r child w = (res, w') ->
  extends w w'
  /\ (cache_lookup r child w = None ->
      forall v, res = Ok v -> cache_lookup r child w' = Some v).
Proof.
  intros Hrec Hrun.
  destruct (owner_exists_dec r w) as [Ho | Hno].
  2:{ unfold cached_eval in Hrun.
      rewrite (bind_M_raise _ _ _ _ _ (get_cache_of_missing r w Hno)) in Hrun.
      inversion Hrun; subst. split; [apply extends_refl | discriminate]. }
  destruct (cache_lookup r child w) as [u|] eqn:Hlk.
  - rewrite (cached_eval_hit self r child u w Hlk) in Hrun.
    inversion Hrun; subst. split; [apply extends_refl | discriminate].
  - rewrite (cached_eval_miss self r child w Ho Hlk) in Hrun.
    destruct (get_cache_of_run r w Ho) as [w0 [Hget [Hext0 [[c Hc] [Hlk0 _]]]]].
    rewrite (bind_M_ok _ _ _ _ _ Hget) in Hrun.
    unfold bind_M at 1 in Hrun.
    destruct (rec self child w0) as [[v|e] w1] eqn:Erec.
    + pose proof (Hrec _ _ _ Erec) as Hext1.
      destruct (extends_cache_of w0 w1 r c Hext1 Hc) as [c1 Hc1].
      destruct (cache_setitem_run r child v w0 w1 c1 Hext1) as [w2 [Hset [Hlk2 Hext2]]];
        [rewrite Hlk0; assumption | assumption |].
      rewrite (bind_M_ok _ _ _ _ _ Hset) in Hrun. inversion Hrun; subst.
      split; [eapply extends_trans; eauto|].
      intros _ v' Hv'. inversion Hv'; subst. assumption.
    + inversion Hrun; subst.
      split; [eapply extends_trans; eauto using Hrec | discriminate].
Qed.

End CseProperties.

Lemma map_common_subexpression_grows (rec : EvaluationMapperBase -> expr -> M pyval)
    (self : EvaluationMapperBase) (child : expr) (scope : string)
    (w w' : World) (res : result pyval) :
  (forall w0 r0 w1, rec self child w0 = (r0, w1) -> extends w0 w1) ->
  map_common_subexpression rec self child scope w = (res, w') ->
  extends w w'.
Proof.
  intros Hrec. unfold map_common_subexpression.
  destruct (String.eqb scope cse_scope.EXPRESSION).
  - intros H. apply (cached_eval_grows rec self (BoundCache (em_bound_expr self) "cse")
                       child w w' res Hrec H).
  - destruct (String.eqb scope cse_scope.DISCRETIZATION).
    + intros H. apply (cached_eval_grows rec self (CollectionCache (em_places self) "cse")
                         child w w' res Hrec H).
    + apply Hrec.
Qed.

Lemma sample_rec_grows (self : EvaluationMapperBase) (e : expr) :
  forall w r w', sample_rec self e w = (r, w') -> extends w w'.
Proof.
  induction e as [name | a IHa b IHb | child IH scope | ]; intros w r w' H; simpl in H.
  - destruct (context_get name (em_context self)); inversion H; apply extends_refl.
  - unfold bind_M in H.
    destruct (sample_rec self a w) as [[x|ex] w1] eqn:Ea.
    + destruct (sample_rec self b w1) as [[y|ey] w2] eqn:Eb.
      * assert (w' = w2) by (destruct x, y; inversion H; reflexivity). subst w'.
        eapply extends_trans; eauto.
      * inversion H; subst. eapply extends_trans; eauto.
    + inversion H; subst. eauto.
  - apply (map_common_subexpression_grows sample_rec self child scope w w' r IH H).
  - inversion H. apply extends_refl.
Qed.

Lemma cached_eval_memoized (rec : EvaluationMapperBase -> expr -> M pyval)
    (self : EvaluationMapperBase) (child : expr) (r : cache_ref) (w : World) :
  (forall w0 r0 w1, rec self child w0 = (r0, w1) -> extends w0 w1) ->
  owner_exists r w ->
  (forall v, cache_lookup r child w = Some v ->
             forall rec', cached_eval rec' self r child w = (Ok v, w))
  /\ (cache_lookup r child w = None ->
      cached_eval rec self r child w
      = (get_cache_of r ;;;
         (value <- rec self child ;; cache_setitem r child value ;;; ret value)) w
      /\ forall v w',
           cached_eval rec self r child w = (Ok v, w') ->
           cache_lookup r child w' = Some v
           /\ forall rec' w2, extends w' w2 ->
                cached_eval rec' self r child w2 = (Ok v, w2)).
Proof.
  intros Hrec Ho. split.
  - intros v Hv rec'. apply cached_eval_hit. assumption.
  - intros Hmiss. split; [apply cached_eval_miss; assumption|].
    intros v w' Hrun.
    destruct (cached_eval_grows rec self r child w w' (Ok v) Hrec Hrun) as [_ Hst].
    split; [apply Hst; auto|].
    intros rec' w2 Hext. apply cached_eval_hit.
    apply (extends_lookup w' w2); auto.
Qed.

(** C6.  While evaluating the child only grows the caches (as every
    evaluation does), a common-subexpression node of expression scope
    is served from the cache ["cse"] of the bound expression and one of
    discretization scope from the cache ["cse"] of the geometry
    collection: a stored value is returned without evaluating and
    without changing the store, a missing one is computed once, stored
    and returned by every later evaluation.  With any other scope the
    node is the evaluation of its child and stores nothing itself.  No
    evaluation of the node removes or changes an entry of any cache. *)
Theorem cse_scope_memoization (rec : EvaluationMapperBase -> expr -> M pyval)
    (self : EvaluationMapperBase) (child : expr) (scope : string) (w : World)
    (b : BoundExpression) (g : GeometryCollection) :
  (forall w0 r0 w1, rec self child w0 = (r0, w1) -> extends w0 w1) ->
  nth_error (bound_exprs w) (em_bound_expr self) = Some b ->
  nth_error (collections w) (em_places self) = Some g ->
  (scope = cse_scope.EXPRESSION ->
   memoized_in rec self child scope (BoundCache (em_bound_expr self) "cse") w)
  /\ (scope = cse_scope.DISCRETIZATION ->
      memoized_in rec self child scope (CollectionCache (em_places self) "cse") w)
  /\ (scope <> cse_scope.EXPRESSION -> scope <> cse_scope.DISCRETIZATION ->
      map_common_subexpression rec self child scope w = rec self child w)
  /\ (forall res w',
        map_common_subexpression rec self child scope w = (res, w') -> extends w w').
Proof.
  intros Hrec Hb Hg. split; [|split; [|split]].
  - intros ->. unfold memoized_in.
    apply (cached_eval_memoized rec self child (BoundCache (em_bound_expr self) "cse") w Hrec).
    simpl. eauto.
  - intros ->. unfold memoized_in.
    apply (cached_eval_memoized rec self child (CollectionCache (em_places self) "cse") w Hrec).
    simpl. eauto.
  - intros H1 H2. unfold map_common_subexpression.
    destruct (String.eqb scope cse_scope.EXPRESSION) eqn:E1;
      [apply String.eqb_eq in E1; contradiction|].
    destruct (String.eqb scope cse_scope.DISCRETIZATION) eqn:E2;
      [apply String.eqb_eq in E2; contradiction|].
    reflexivity.
  - intros res w'. apply map_common_subexpression_grows. assumption.
Qed.

Lemma cse_scope_memoization_witness :
  memoized_in sample_rec cse_mapper doubled_density cse_scope.EXPRESSION
    (BoundCache 0 "cse") cse_world
  /\ memoized_in sample_rec cse_mapper doubled_density cse_scope.DISCRETIZATION
       (CollectionCache 0 "cse") cse_world.
Proof.
  destruct (cse_scope_memoization sample_rec cse_mapper doubled_density
              cse_scope.EXPRESSION cse_world
              (mk_bound 0 (Var "sigma") [] 0 None)
              (mk_collection 0 [] default_auto_where None)
              (sample_rec_grows cse_mapper doubled_density) eq_refl eq_refl)
    as [H1 _].
  destruct (cse_scope_memoization sample_rec cse_mapper doubled_density
              cse_scope.DISCRETIZATION cse_world
              (mk_bound 0 (Var "sigma") [] 0 None)
              (mk_collection 0 [] default_auto_where None)
              (sample_rec_grows cse_mapper doubled_density) eq_refl eq_refl)
    as [_ [H2 _]].
  split; [apply H1 | apply H2]; reflexivity.
Defined.

(** The second evaluation returns the stored value although its context
    no longer binds [sigma]. *)
Example cse_second_evaluation_is_a_hit :
  let w1 := snd (map_common_subexpression sample_rec cse_mapper doubled_density
                   cse_scope.EXPRESSION cse_world) in
  fst (map_common_subexpression sample_rec cse_mapper doubled_density
         cse_scope.EXPRESSION cse_world) = Ok (VObj 6)
  /\ map_common_subexpression sample_rec (mk_mapper 0 0 0 []) doubled_density
       cse_scope.EXPRESSION w1 = (Ok (VObj 6), w1)
  /\ fst (map_common_subexpression sample_rec (mk_mapper 0 0 0 []) doubled_density
            cse_scope.GLOBAL w1) = Raise (ExternalError "UnknownVariableError" 0).
Proof. repeat split. Qed.

(** ** Iterative inverses *)

(** C1, as the code has it.  [map_inverse] takes the cache ["bound_op"]
    of the geometry collection its bound expression is bound over,
    creating it when it is not there, and then raises [AttributeError]
    at a read of [expr.dofdesc], which an [IterativeInverse] does not
    have: on a miss while the arguments of [bind] are evaluated, on a
    hit while those of [scipy_op] are.  So no evaluation of an inverse
    node returns; nothing is stored in the cache, which keeps the
    entries it had; when the cache was there already the store is
    untouched. *)
Theorem map_inverse_raises (self : EvaluationMapperBase) (e : expr) (w : World)
    (b : BoundExpression) (g : GeometryCollection) :
  nth_error (bound_exprs w) (em_bound_expr self) = Some b ->
  nth_error (collections w) (be_places b) = Some g ->
  exists w' : World,
    map_inverse self e w = (Raise (AttributeError "object has no attribute dofdesc"), w')
    /\ extends w w'
    /\ (forall k, cache_lookup (CollectionCache (be_places b) "bound_op") k w'
                  = cache_lookup (CollectionCache (be_places b) "bound_op") k w)
    /\ (forall c, cache_of (CollectionCache (be_places b) "bound_op") w = Some c -> w' = w).
Proof.
  intros Hb Hg. unfold map_inverse.
  rewrite (bind_M_ok _ _ w w b) by (apply read_bound_ok; assumption).
  set (memo := CollectionCache (be_places b) "bound_op").
  assert (Ho : owner_exists memo w) by (simpl; eauto).
  destruct (get_cache_of_run memo w Ho) as [w0 [Hget [Hext [[c Hc] [Hlk Hsame]]]]].
  simpl get_cache_of in Hget. rewrite (bind_M_ok _ _ _ _ _ Hget).
  exists w0. split; [|split; [assumption | split; assumption]].
  unfold bind_M, try_except_KeyError.
  destruct (cache_lookup memo e w0) as [op|] eqn:Hop.
  - rewrite (cache_getitem_hit memo e op w0 Hop). reflexivity.
  - rewrite (cache_getitem_miss memo e c w0 Hc Hop). reflexivity.
Qed.

(** On a miss and on a hit. *)
Lemma map_inverse_raises_witness :
  (exists w' : World,
      map_inverse first_mapper inverse_node inverse_world
      = (Raise (AttributeError "object has no attribute dofdesc"), w')
      /\ cache_lookup (CollectionCache 0 "bound_op") inverse_node w' = None)
  /\ map_inverse second_mapper inverse_node inverse_world_with_memo
     = (Raise (AttributeError "object has no attribute dofdesc"), inverse_world_with_memo).
Proof.
  split.
  - destruct (map_inverse_raises first_mapper inverse_node inverse_world
                (mk_bound 0 (Var "u") [] 0 (Some VNone))
                (mk_collection 0 [] default_auto_where None) eq_refl eq_refl)
      as [w' [Hrun [_ [Hlk _]]]].
    exists w'. split; [exact Hrun|]. rewrite Hlk. reflexivity.
  - destruct (map_inverse_raises second_mapper inverse_node inverse_world_with_memo
                (mk_bound 0 (Var "v") [] 1 None)
                (mk_collection 0 [("bound_op", [(inverse_node, VBound 1)])]
                   default_auto_where None) eq_refl eq_refl)
      as [w' [Hrun [_ [_ Hsame]]]].
    rewrite (Hsame _ eq_refl) in Hrun. exact Hrun.
Defined.

(** ** A concrete reduction *)

Example reduce_sum_by_node :
  _reduce_node nat nat_reduction (fun _ => 0) "sum" two_group_discr node_values
  = [6; 6; 6; 15; 15; 15; 15; 15].
Proof. reflexivity. Qed.

Example reduce_max_by_element :
  _reduce_element nat nat_reduction (fun _ => 0) "max" two_group_discr node_values
  = [3; 6; 8].
Proof. reflexivity. Qed.

(** The reduction of the density on the curve, at any [where]. *)
Example elementwise_sum_on_the_curve :
  map_elementwise_sum nat nat_reduction (fun _ => 0) sample_get_discretization sample_operand
    (Var "sigma") (VStr "curve")
  = Raise (AttributeError "object has no attribute dofdesc").
Proof. reflexivity. Qed.

(** ** The mat-vec operator *)

Lemma as_dofdescs_run (items : list pyval) :
  (fix as_dofdescs (ds : list pyval) : result (list pyval) :=
     match ds with
     | [] => Ok []
     | d :: rest =>
         result_bind (as_dofdesc d) (fun dd =>
         result_bind (as_dofdescs rest) (fun dds => Ok (VDesc dd :: dds)))
     end) items
  = (fix go (ds : list pyval) : result (list pyval) :=
       match ds with
       | [] => Ok []
       | d :: rest =>
           match as_dofdesc d with
           | Ok dd => match go rest with
                      | Ok dds => Ok (VDesc dd :: dds)
                      | Raise e => Raise e
                      end
           | Raise e => Raise e
           end
       end) items.
Proof. induction items as [|d rest IH]; simpl; auto. Qed.

Lemma as_dofdescs_ok (items dds : list pyval) :
  (fix as_dofdescs (ds : list pyval) : result (list pyval) :=
     match ds with
     | [] => Ok []
     | d :: rest =>
         result_bind (as_dofdesc d) (fun dd =>
         result_bind (as_dofdescs rest) (fun dds => Ok (VDesc dd :: dds)))
     end) items = Ok dds ->
  Forall2 (fun d dd => exists x, as_dofdesc d = Ok x /\ dd = VDesc x) items dds.
Proof.
  revert dds. induction items as [|d rest IH]; intros dds H; simpl in H.
  - inversion H. constructor.
  - destruct (as_dofdesc d) as [x|e] eqn:Ed; simpl in H; [|discriminate].
    match type of H with
    | result_bind ?r _ = _ => destruct r as [rs|e] eqn:Er; simpl in H; [|discriminate]
    end.
    inversion H; subst. constructor; eauto.
Qed.

Lemma as_dofdescs_all (items : list pyval) :
  Forall (fun d => exists x, as_dofdesc d = Ok x) items ->
  exists dds,
    (fix as_dofdescs (ds : list pyval) : result (list pyval) :=
       match ds with
       | [] => Ok []
       | d :: rest =>
           result_bind (as_dofdesc d) (fun dd =>
           result_bind (as_dofdescs rest) (fun dds => Ok (VDesc dd :: dds)))
       end) items = Ok dds
    /\ List.length dds = List.length items.
Proof.
  induction 1 as [|d rest [x Hx] _ [dds [IH Hlen]]]; simpl.
  - exists []. auto.
  - rewrite Hx. simpl. rewrite IH. simpl. eexists. split; [reflexivity|].
    simpl. congruence.
Qed.

Lemma as_dofdescs_first_error (before after : list pyval) (d : pyval) (e : exn) :
  Forall (fun d => exists x, as_dofdesc d = Ok x) before ->
  as_dofdesc d = Raise e ->
  (fix as_dofdescs (ds : list pyval) : result (list pyval) :=
     match ds with
     | [] => Ok []
     | d :: rest =>
         result_bind (as_dofdesc d) (fun dd =>
         result_bind (as_dofdescs rest) (fun dds => Ok (VDesc dd :: dds)))
     end) (before ++ d :: after) = Raise e.
Proof.
  intros Hb Hd. induction Hb as [|b before [x Hx] _ IH]; simpl.
  - rewrite Hd. reflexivity.
  - rewrite Hx. simpl. rewrite IH. reflexivity.
Qed.

Section MatVecProperties.

Variable T : Type.
Variable uninitialized : nat -> T.
Variable discr_nnodes : DOFDescriptor -> result nat.
Variable bound_expr_call : nat -> list (string * value T) -> result (value T).

(** C5, as the code has it.  No domain that reaches the loop of
    [scipy_op] is [None], so the branch of the loop that gives [None]
    the size 1 is never taken: without declared domains every entry is
    the default target, a declared scalar is not [None], and the
    entries of a declared list or tuple have all gone through
    [as_dofdesc].  A declared list or tuple with a [None] entry gives
    no operator: [as_dofdesc] raises [ValueError] on [None] before any
    size is computed, whatever the entries after it, the number of
    results and the discretizations are. *)
Theorem scipy_op_rejects_declared_None (self nresults : nat) (auto_target : DOFDescriptor)
    (arg_name : string) (extra_args : list (string * value T)) :
  (forall (domains : pyval) (doms : list pyval),
      _prepare_domains nresults domains (VDesc auto_target) = Ok doms ->
      ~ In VNone doms)
  /\ (forall before after : list pyval,
        Forall (fun d => exists x, as_dofdesc d = Ok x) before ->
        scipy_op T discr_nnodes self nresults auto_target arg_name
          (VList (before ++ VNone :: after)) extra_args
        = Raise (ValueError "unknown domain tag")
        /\ scipy_op T discr_nnodes self nresults auto_target arg_name
             (VTuple (before ++ VNone :: after)) extra_args
           = Raise (ValueError "unknown domain tag")).
Proof.
  split.
  - assert (Hlist : forall items doms,
               _prepare_domains nresults (VList items) (VDesc auto_target) = Ok doms ->
               ~ In VNone doms).
    { intros items doms H Hin. unfold _prepare_domains in H.
      match type of H with
      | result_bind ?r _ = _ => destruct r as [dds|e] eqn:Er; simpl in H; [|discriminate]
      end.
      destruct (Nat.eqb (List.length dds) nresults); [|discriminate].
      inversion H; subst dds. clear H.
      pose proof (as_dofdescs_ok items doms Er) as HF. clear Er.
      induction HF as [|d dd items doms [x [_ Hdd]] _ IH]; simpl in Hin; [contradiction|].
      destruct Hin as [Hin | Hin]; [congruence | auto]. }
    intros domains doms H Hin.
    destruct domains;
      try (simpl in H; inversion H; subst doms; apply repeat_spec in Hin; discriminate).
    + apply (Hlist items doms); assumption.
    + apply (Hlist items doms); assumption.
  - intros before after Hb.
    assert (H : scipy_op T discr_nnodes self nresults auto_target arg_name
                  (VList (before ++ VNone :: after)) extra_args
                = Raise (ValueError "unknown domain tag")).
    { unfold scipy_op, _prepare_domains.
      rewrite (as_dofdescs_first_error before after VNone _ Hb eq_refl). reflexivity. }
    split; exact H.
Qed.

(** Two declared domains, the first of them [None]. *)
Example scipy_op_declared_None :
  scipy_op nat sample_nnodes 0 2 curve_descriptor "u" (VList [VNone; VStr "curve"]) []
  = Raise (ValueError "unknown domain tag").
Proof. reflexivity. Qed.

(** The offset table of a list of domains: one window per domain, of
    the size of the domain, each starting where the previous one
    ends. *)
Lemma starts_and_ends_consecutive (domains : list pyval) (start total : nat)
    (table : list (nat * nat)) :
  starts_and_ends_from discr_nnodes domains start = Ok (total, table) ->
  consecutive fst (fun se => snd se - fst se) start table
  /\ Forall2 (fun dom se => domain_size discr_nnodes dom = Ok (snd se - fst se)
                            /\ fst se <= snd se) domains table
  /\ total = start + sum_sizes (fun se => snd se - fst se) table.
Proof.
  revert start total table.
  induction domains as [|dom rest IH]; intros start total table H; simpl in H.
  - inversion H; subst. simpl. repeat split; auto.
  - destruct (domain_size discr_nnodes dom) as [size|e] eqn:Es; simpl in H; [|discriminate].
    destruct (starts_and_ends_from discr_nnodes rest (start + size))
      as [[total' table']|e] eqn:E; simpl in H; [|discriminate].
    inversion H; subst.
    destruct (IH _ _ _ E) as [Hc [Hf Ht]].
    simpl. replace (start + size - start) with size by lia.
    repeat split; auto.
    + constructor; [|assumption]. simpl.
      replace (start + size - start) with size by lia. split; [assumption | lia].
    + lia.
Qed.

Lemma concat_slices (x : list T) (table : list (nat * nat)) (start : nat) :
  consecutive fst (fun se => snd se - fst se) start table ->
  (forall se, In se table -> fst se <= snd se) ->
  List.concat (map (fun se => py_slice x (fst se) (snd se)) table)
  = py_slice x start (start + sum_sizes (fun se => snd se - fst se) table).
Proof.
  revert start. induction table as [|[s e] table IH]; intros start Hc Hle; simpl.
  - unfold py_slice. rewrite Nat.add_0_r.
    symmetry. apply skipn_all2. rewrite length_firstn. lia.
  - destruct Hc as [Hs Hc]. simpl in Hs, Hc. subst s.
    assert (Hse : start <= e) by (apply (Hle (start, e)); simpl; auto).
    replace (start + (e - start)) with e in Hc by lia.
    rewrite (IH e Hc) by (intros se Hin; apply Hle; simpl; auto).
    replace (start + (e - start + sum_sizes (fun se => snd se - fst se) table))
      with (e + sum_sizes (fun se => snd se - fst se) table) by lia.
    set (n := sum_sizes (fun se => snd se - fst se) table).
    unfold py_slice.
    rewrite <- (firstn_skipn (e - start) (skipn start (firstn (e + n) x))).
    f_equal.
    + rewrite firstn_skipn_comm. replace (start + (e - start)) with e by lia.
      rewrite firstn_firstn. replace (Init.Nat.min e (e + n)) with e by lia.
      reflexivity.
    + rewrite skipn_skipn. replace (e - start + start) with e by lia. reflexivity.
Qed.

(** Joining: results of the sizes of the windows are written one after
    the other. *)
Lemma join_results_blocks (table : list (nat * nat)) (items : list (array T))
    (done rest : list T) :
  consecutive fst (fun se => snd se - fst se) (List.length done) table ->
  Forall2 (fun item se => List.length (arr_data T item) = snd se - fst se
                          /\ fst se <= snd se) items table ->
  sum_sizes (fun se => snd se - fst se) table <= List.length rest ->
  join_results T (done ++ rest) items table
  = Ok ((done ++ List.concat (map (arr_data T) items))
        ++ skipn (sum_sizes (fun se => snd se - fst se) table) rest).
Proof.
  intros Hc Hf. revert done rest Hc.
  induction Hf as [|item [s e] items table [Hlen Hse] Hf IH]; intros done rest Hc Hr; simpl.
  - rewrite app_nil_r. reflexivity.
  - destruct Hc as [Hs Hc]. simpl in Hs, Hc, Hr, Hlen, Hse. subst s.
    unfold set_slice.
    rewrite length_py_slice by (rewrite ?length_app; lia).
    rewrite Hlen, Nat.eqb_refl. simpl result_bind.
    rewrite <- Hlen in Hr.
    rewrite set_window_app by lia.
    rewrite IH.
    + rewrite skipn_skipn, <- !app_assoc. rewrite Hlen.
      replace (sum_sizes (fun se => snd se - fst se) table + (e - List.length done))
        with (e - List.length done + sum_sizes (fun se => snd se - fst se) table) by lia.
      reflexivity.
    + rewrite length_app, Hlen. exact Hc.
    + rewrite length_skipn. lia.
Qed.

Lemma slices_fit (x : list T) (table : list (nat * nat)) (start : nat) :
  consecutive fst (fun se => snd se - fst se) start table ->
  (forall se, In se table -> fst se <= snd se) ->
  start + sum_sizes (fun se => snd se - fst se) table <= List.length x ->
  Forall2 (fun item se => List.length (arr_data T item) = snd se - fst se
                          /\ fst se <= snd se)
    (map (fun se => mk_array T Device (py_slice x (fst se) (snd se))) table) table.
Proof.
  revert start. induction table as [|[s e] table IH]; intros start Hc Hle Hx; simpl.
  - constructor.
  - destruct Hc as [Hs Hc]. simpl in Hs, Hc, Hx. subst s.
    assert (Hse : start <= e) by (apply (Hle (start, e)); simpl; auto).
    constructor.
    + simpl. split; [apply length_py_slice; lia | assumption].
    + apply (IH (start + (e - start))); auto.
      * intros se Hin. apply Hle. simpl. auto.
      * lia.
Qed.

Lemma map_arr_data_slices (x : list T) (table : list (nat * nat)) :
  map (arr_data T) (map (fun se => mk_array T Device (py_slice x (fst se) (snd se))) table)
  = map (fun se => py_slice x (fst se) (snd se)) table.
Proof. rewrite map_map. reflexivity. Qed.

(** What [matvec] returns for a split operator whose evaluation yields
    one result per window, each of the size of its window: the results
    one after the other, on the side the input was on. *)
Lemma matvec_joins (self : MatVecOp T) (x : array T) (items : list (array T)) :
  consecutive fst (fun se => snd se - fst se) 0 (mv_starts_and_ends T self) ->
  mv_total_dofs T self
  = sum_sizes (fun se => snd se - fst se) (mv_starts_and_ends T self) ->
  1 < List.length (mv_starts_and_ends T self) ->
  bound_expr_call (mv_bound_expr T self)
    (args_set T (mv_arg_name T self)
       (ObjArray T (map (fun se => mk_array T Device
                                     (py_slice (arr_data T x) (fst se) (snd se)))
                        (mv_starts_and_ends T self)))
       (mv_extra_args T self))
  = Ok (ObjArray T items) ->
  Forall2 (fun item se => List.length (arr_data T item) = snd se - fst se
                          /\ fst se <= snd se) items (mv_starts_and_ends T self) ->
  matvec T uninitialized bound_expr_call self x
  = Ok (Arr T (mk_array T (arr_residency T x) (List.concat (map (arr_data T) items)))).
Proof.
  intros Hc Htot Hsplit Hcall Hf. unfold matvec.
  apply Nat.ltb_lt in Hsplit. rewrite Hsplit. cbn [arr_data].
  rewrite Hcall. simpl result_bind.
  pose proof (join_results_blocks (mv_starts_and_ends T self) items []
                (map uninitialized (seq 0 (mv_total_dofs T self))) Hc Hf) as Hj.
  simpl app in Hj. rewrite length_map, length_seq in Hj.
  rewrite Hj by lia. simpl result_bind.
  rewrite <- Htot.
  rewrite skipn_all2 by (rewrite length_map, length_seq; lia).
  rewrite app_nil_r.
  destruct (arr_residency T x); reflexivity.
Qed.

(** For every operator [scipy_op] builds: its offset table has one
    window per declared domain, in declaration order, each starting
    where the previous one ends and as long as the loop's size of the
    domain (1 for [None], the node count for a descriptor), and the
    total is their sum.  With more than one window, [matvec] hands the
    bound expression the windows of the input and writes the results
    back in the same layout, so that segments handed back unchanged
    give the input back; and what [matvec] returns is on the host for
    a host input and on the device for a device input. *)
Theorem matvec_split_join (self nresults : nat) (auto_target : DOFDescriptor)
    (arg_name : string) (domains : pyval) (extra_args : list (string * value T))
    (op : MatVecOp T) :
  scipy_op T discr_nnodes self nresults auto_target arg_name domains extra_args = Ok op ->
  (exists doms : list pyval,
      _prepare_domains nresults domains (VDesc auto_target) = Ok doms
      /\ Forall2 (fun dom se => domain_size discr_nnodes dom = Ok (snd se - fst se)
                                /\ fst se <= snd se)
           doms (mv_starts_and_ends T op)
      /\ consecutive fst (fun se => snd se - fst se) 0 (mv_starts_and_ends T op)
      /\ mv_total_dofs T op
         = sum_sizes (fun se => snd se - fst se) (mv_starts_and_ends T op))
  /\ domain_size discr_nnodes VNone = Ok 1
  /\ (forall d, domain_size discr_nnodes (VDesc d) = discr_nnodes d)
  /\ (forall (x : array T) (items : list (array T)),
        1 < List.length (mv_starts_and_ends T op) ->
        bound_expr_call (mv_bound_expr T op)
          (args_set T (mv_arg_name T op)
             (ObjArray T (map (fun se => mk_array T Device
                                           (py_slice (arr_data T x) (fst se) (snd se)))
                              (mv_starts_and_ends T op)))
             (mv_extra_args T op))
        = Ok (ObjArray T items) ->
        Forall2 (fun item se => List.length (arr_data T item) = snd se - fst se
                                /\ fst se <= snd se) items (mv_starts_and_ends T op) ->
        matvec T uninitialized bound_expr_call op x
        = Ok (Arr T (mk_array T (arr_residency T x)
                       (List.concat (map (arr_data T) items)))))
  /\ (forall x : array T,
        1 < List.length (mv_starts_and_ends T op) ->
        List.length (arr_data T x) = mv_total_dofs T op ->
        (forall v, bound_expr_call (mv_bound_expr T op)
                     (args_set T (mv_arg_name T op) v (mv_extra_args T op)) = Ok v) ->
        matvec T uninitialized bound_expr_call op x = Ok (Arr T x))
  /\ (forall (x a : array T),
        (forall args r, bound_expr_call (mv_bound_expr T op) args = Ok (Arr T r) ->
                        arr_residency T r = Device) ->
        matvec T uninitialized bound_expr_call op x = Ok (Arr T a) ->
        arr_residency T a = arr_residency T x).
Proof.
  intros Hop. unfold scipy_op in Hop.
  destruct (_prepare_domains nresults domains (VDesc auto_target)) as [doms|e] eqn:Ed;
    simpl in Hop; [|discriminate].
  destruct (starts_and_ends_from discr_nnodes doms 0) as [[total table]|e] eqn:E;
    simpl in Hop; [|discriminate].
  inversion Hop; subst op. cbn [mv_starts_and_ends mv_total_dofs mv_bound_expr
                                mv_arg_name mv_extra_args].
  destruct (starts_and_ends_consecutive doms 0 total table E) as [Hc [Hf Ht]].
  simpl in Ht.
  assert (Hle : forall se, In se table -> fst se <= snd se).
  { clear - Hf. induction Hf as [|dom se doms table [_ Hse] Hf IH]; intros se' Hin.
    - contradiction.
    - destruct Hin as [<- | Hin]; auto. }
  split; [exists doms; auto|]. split; [reflexivity|]. split; [reflexivity|].
  split; [|split].
  - intros x items Hsplit Hcall Hitems.
    apply (matvec_joins (mk_matvec T self arg_name total table extra_args) x items
             Hc Ht Hsplit Hcall Hitems).
  - intros x Hsplit Hlen Hid. simpl in Hlen.
    assert (Hfit : Forall2 (fun item se => List.length (arr_data T item) = snd se - fst se
                                           /\ fst se <= snd se)
                     (map (fun se => mk_array T Device
                                       (py_slice (arr_data T x) (fst se) (snd se))) table)
                     table)
      by (apply (slices_fit (arr_data T x) table 0 Hc Hle); simpl; lia).
    rewrite (matvec_joins (mk_matvec T self arg_name total table extra_args) x
               (map (fun se => mk_array T Device (py_slice (arr_data T x) (fst se) (snd se)))
                    table) Hc Ht Hsplit (Hid _) Hfit).
    rewrite map_arr_data_slices, (concat_slices (arr_data T x) table 0 Hc Hle).
    simpl. rewrite <- Ht.
    assert (Hx : py_slice (arr_data T x) 0 total = arr_data T x).
    { unfold py_slice. simpl. apply firstn_all2. lia. }
    rewrite Hx. destruct x; reflexivity.
  - intros x a Hdev Hrun. unfold matvec in Hrun.
    cbn [mv_starts_and_ends mv_total_dofs mv_bound_expr mv_arg_name mv_extra_args] in Hrun.
    destruct (bound_expr_call self _) as [res|e] eqn:Ecall; simpl in Hrun; [|discriminate].
    destruct (Nat.ltb 1 (List.length table)).
    + destruct res as [r|items]; simpl in Hrun; [discriminate|].
      destruct (join_results T _ items table) as [joined|e]; simpl in Hrun; [|discriminate].
      destruct (arr_residency T x); inversion Hrun; reflexivity.
    + simpl in Hrun. destruct (arr_residency T x) eqn:Ex.
      * destruct res as [r|items]; inversion Hrun; reflexivity.
      * inversion Hrun; subst res. apply (Hdev _ _ Ecall).
Qed.

End MatVecProperties.

Example scipy_op_offsets_in_declaration_order :
  scipy_op nat sample_nnodes 0 2 curve_descriptor "u"
    (VList [VStr "curve"; VStr "probe"]) []
  = Ok (mk_matvec nat 0 "u" 5 [(0, 2); (2, 5)] []).
Proof. reflexivity. Qed.

Example matvec_splits_and_joins :
  matvec nat (fun _ => 0) identity_call (mk_matvec nat 0 "u" 5 [(0, 2); (2, 5)] [])
    (mk_array nat Host [10; 20; 30; 40; 50])
  = Ok (Arr nat (mk_array nat Host [10; 20; 30; 40; 50])).
Proof. reflexivity. Qed.

Lemma matvec_split_join_witness :
  matvec nat (fun _ => 0) identity_call (mk_matvec nat 0 "u" 5 [(0, 2); (2, 5)] [])
    (mk_array nat Device [10; 20; 30; 40; 50])
  = Ok (Arr nat (mk_array nat Device [10; 20; 30; 40; 50])).
Proof.
  apply (proj1 (proj2 (proj2 (proj2 (proj2
           (matvec_split_join nat (fun _ => 0) sample_nnodes identity_call
              0 2 curve_descriptor "u" (VList [VStr "curve"; VStr "probe"]) []
              (mk_matvec nat 0 "u" 5 [(0, 2); (2, 5)] []) eq_refl)))))).
  - simpl. lia.
  - reflexivity.
  - intros v. reflexivity.
Defined.

(** * Further properties of the collection, the operator and the primitives *)

(** ** The validation pass of the constructor *)

Lemma for_each_check {A : Type} (p : A -> bool) (e : exn) (l : list A) (w : World) :
  for_each (fun a => if p a then ret tt else raise e) l w
  = (if forallb p l then Ok tt else Raise e, w).
Proof.
  induction l as [|a l IH]; simpl; auto.
  unfold bind_M. destruct (p a); simpl; auto.
Qed.

Lemma for_each_ext {A : Type} (f g : A -> M unit) (l : list A) (w : World) :
  (forall a w0, f a w0 = g a w0) -> for_each f l w = for_each g l w.
Proof.
  intros H. revert w. induction l as [|a l IH]; intros w; simpl; auto.
  unfold bind_M. rewrite H. destruct (g a w) as [[[]|e] w1]; auto.
Qed.

Lemma forallb_Forall_map {A B : Type} (p : B -> bool) (f : A -> B) (l : list A) :
  forallb p (map f l) = true <-> Forall (fun a => p (f a) = true) l.
Proof.
  rewrite forallb_forall, Forall_forall. split.
  - intros H a Ha. apply H. apply in_map. assumption.
  - intros H b Hb. apply in_map_iff in Hb. destruct Hb as [a [<- Ha]]. auto.
Qed.

Lemma forallb_Exists_map {A B : Type} (p : B -> bool) (f : A -> B) (l : list A) :
  forallb p (map f l) = false <-> Exists (fun a => p (f a) = false) l.
Proof.
  induction l as [|a l IH]; simpl.
  - split; [discriminate | intros H; inversion H].
  - rewrite andb_false_iff, IH. split.
    + intros [H | H]; [left | right]; assumption.
    + intros H. inversion H; subst; auto.
Qed.

(** ** The places dictionary of a collection *)

Lemma get_geometry_run (w : World) (c : loc) (g : GeometryCollection) (d : pydict) (k : tag) :
  nth_error (collections w) c = Some g ->
  nth_error (dicts w) (gc_places g) = Some d ->
  get_geometry c k w
  = (match dict_get k d with
     | Some v => Ok v
     | None => Raise (KeyError "geometry not in the collection")
     end, w).
Proof.
  intros Hg Hd. unfold get_geometry.
  rewrite (bind_M_ok _ _ w w g) by (apply read_collection_ok; assumption).
  rewrite (bind_M_ok _ _ w w d) by (apply read_dict_ok; assumption).
  destruct (dict_get k d); reflexivity.
Qed.

Lemma dict_setitem_run (w : World) (l : loc) (d : pydict) (k : tag) (v : pyval) :
  nth_error (dicts w) l = Some d ->
  dict_setitem l k v w
  = (Ok tt, mk_world (update_nth l (dict_set k v) (dicts w)) (collections w) (bound_exprs w)).
Proof. intros H. unfold dict_setitem, modify_dict. rewrite H. reflexivity. Qed.

Section InitValidation.

Variable is_identifier : string -> bool.
Variable iskeyword : string -> bool.

Local Abbreviation valid_places := (valid_places is_identifier iskeyword).
Local Abbreviation valid_name := (valid_name is_identifier iskeyword).
Local Abbreviation init := (GeometryCollection_init is_identifier iskeyword).
Local Abbreviation copy := (GeometryCollection_copy is_identifier iskeyword).

Lemma check_places_run (l : loc) (d : pydict) (w : World) :
  nth_error (dicts w) l = Some d ->
  check_places is_identifier iskeyword (VDict l) w
  = (if forallb supported_geometry (dict_values d) then
       if forallb valid_name (dict_keys d) then Ok tt
       else Raise (ValueError "not a valid identifier")
     else Raise (TypeError "Must pass discretization, targets or layer potential sources as places"),
     w).
Proof.
  intros Hl. unfold check_places, itervalues, iterkeys.
  rewrite (bind_M_ok _ _ w w (dict_values d))
    by (rewrite (bind_M_ok _ _ w w d) by (apply read_dict_ok; assumption); reflexivity).
  unfold bind_M at 1.
  change (fun p : pyval =>
            if isinstance_PotentialSource p || isinstance_TargetBase p
               || isinstance_Discretization p
            then ret tt
            else raise (TypeError "Must pass discretization, targets or layer potential sources as places"))
    with (fun p : pyval =>
            if supported_geometry p then @ret unit tt
            else raise (TypeError "Must pass discretization, targets or layer potential sources as places")).
  rewrite for_each_check.
  destruct (forallb supported_geometry (dict_values d)); [|reflexivity].
  rewrite (bind_M_ok _ _ w w (dict_keys d))
    by (rewrite (bind_M_ok _ _ w w d) by (apply read_dict_ok; assumption); reflexivity).
  rewrite (for_each_ext _
             (fun name => if valid_name name then ret tt
                          else raise (ValueError "not a valid identifier"))).
  - apply for_each_check.
  - intros [s| | |i] w0; reflexivity.
Qed.

Lemma init_dict_run (w : World) (l : loc) (d : pydict) (aw : pyval) (s t : DOFDescriptor) :
  nth_error (dicts w) l = Some d ->
  _prepare_auto_where aw None = Ok (s, t) ->
  init (VDict l) aw w
  = if forallb supported_geometry (dict_values d) then
      if forallb valid_name (dict_keys d) then
        (Ok (List.length (collections w)),
         mk_world (dicts w ++ [[]])
                  (collections w ++ [mk_collection l [] (s, t) None])
                  (bound_exprs w))
      else (Raise (ValueError "not a valid identifier"),
            mk_world (dicts w ++ [[]]) (collections w) (bound_exprs w))
    else (Raise (TypeError "Must pass discretization, targets or layer potential sources as places"),
          mk_world (dicts w ++ [[]]) (collections w) (bound_exprs w)).
Proof.
  intros Hl Haw. unfold GeometryCollection_init.
  unfold bind_M at 1. simpl.
  unfold bind_M at 1. unfold lift. rewrite Haw.
  unfold bind_M at 1. simpl.
  unfold bind_M at 1. simpl.
  set (w1 := mk_world (dicts w ++ [[]]) (collections w) (bound_exprs w)).
  assert (Hl1 : nth_error (dicts w1) l = Some d)
    by (apply nth_error_app_old; assumption).
  match goal with |- bind_M _ _ ?x = _ => change x with w1 end.
  unfold bind_M. rewrite (check_places_run l d w1 Hl1).
  destruct (forallb supported_geometry (dict_values d)); [|reflexivity].
  destruct (forallb valid_name (dict_keys d)); reflexivity.
Qed.

Lemma valid_places_forallb (d : pydict) :
  valid_places d
  <-> forallb supported_geometry (dict_values d) = true
      /\ forallb valid_name (dict_keys d) = true.
Proof.
  unfold valid_places, dict_values, dict_keys.
  rewrite !forallb_Forall_map, !Forall_forall. split.
  - intros H. split; intros kv Hkv; apply (H kv Hkv).
  - intros [H1 H2] kv Hkv. split; [apply H2 | apply H1]; assumption.
Qed.

(** X1.  The constructor accepts a places dictionary exactly when every
    value is a supported geometry and every name that is a string is a
    valid identifier; a value of another kind is reported as a
    [TypeError], also when a name is invalid too, and an invalid name
    among supported values as a [ValueError]; in both cases no
    collection is created. *)
Theorem init_validates_places (w : World) (l : loc) (d : pydict) (aw : pyval)
    (s t : DOFDescriptor) :
  nth_error (dicts w) l = Some d ->
  _prepare_auto_where aw None = Ok (s, t) ->
  ((exists (c : loc) (w' : World), init (VDict l) aw w = (Ok c, w')) <-> valid_places d)
  /\ (Exists (fun kv => supported_geometry (snd kv) = false) d ->
      exists w' : World,
        init (VDict l) aw w
        = (Raise (TypeError "Must pass discretization, targets or layer potential sources as places"), w')
        /\ collections w' = collections w)
  /\ (Forall (fun kv => supported_geometry (snd kv) = true) d ->
      Exists (fun kv => valid_name (fst kv) = false) d ->
      exists w' : World,
        init (VDict l) aw w = (Raise (ValueError "not a valid identifier"), w')
        /\ collections w' = collections w).
Proof.
  intros Hl Haw. rewrite (init_dict_run w l d aw s t Hl Haw).
  rewrite valid_places_forallb.
  split; [|split].
  - split.
    + intros [c [w' H]].
      destruct (forallb supported_geometry (dict_values d)); [|discriminate].
      destruct (forallb valid_name (dict_keys d)); [auto | discriminate].
    + intros [-> ->]. eauto.
  - intros Hex. apply (forallb_Exists_map supported_geometry snd) in Hex.
    unfold dict_values. rewrite Hex. eauto.
  - intros Hall Hex.
    apply (forallb_Forall_map supported_geometry snd) in Hall.
    apply (forallb_Exists_map valid_name fst) in Hex.
    unfold dict_values, dict_keys. rewrite Hall, Hex. eauto.
Qed.

(** X2.  A collection built from a dictionary keeps that very
    dictionary: an entry the caller stores in it afterwards is
    what [get_geometry] returns, whatever the value is. *)
Theorem init_shares_places_dictionary (w : World) (l : loc) (d : pydict) (aw : pyval)
    (s t : DOFDescriptor) (k : tag) (v : pyval) :
  nth_error (dicts w) l = Some d ->
  valid_places d ->
  _prepare_auto_where aw None = Ok (s, t) ->
  exists (c : loc) (w1 w2 : World),
    init (VDict l) aw w = (Ok c, w1)
    /\ get_geometry c k w1
       = (match dict_get k d with
          | Some x => Ok x
          | None => Raise (KeyError "geometry not in the collection")
          end, w1)
    /\ dict_setitem l k v w1 = (Ok tt, w2)
    /\ get_geometry c k w2 = (Ok v, w2).
Proof.
  intros Hl Hd Haw.
  rewrite (init_dict_ok is_identifier iskeyword w l d aw s t Hl Hd Haw).
  set (g := mk_collection l [] (s, t) None).
  set (w1 := mk_world _ _ _).
  assert (Hg : nth_error (collections w1) (List.length (collections w)) = Some g)
    by apply nth_error_app_last.
  assert (Hl1 : nth_error (dicts w1) l = Some d)
    by (apply nth_error_app_old; assumption).
  eexists. exists w1. eexists.
  split; [reflexivity|].
  split; [apply (get_geometry_run w1 _ g d k Hg Hl1)|].
  split; [apply (dict_setitem_run w1 l d k v Hl1)|].
  rewrite (get_geometry_run _ _ g (dict_set k v d) k).
  - rewrite dict_get_set_same. reflexivity.
  - exact Hg.
  - cbn [dicts]. apply nth_error_update_nth_same. exact Hl1.
Qed.

(** X3.  [copy] returns a new collection over a new dictionary with the
    entries of the old one; its default pair is what
    [_prepare_auto_where] makes of the argument [auto_where] with the
    copied collection at hand; it starts without caches and without a
    memoized ambient dimension; the copied collection is as it was, and
    what is stored in its dictionary afterwards does not show in the
    copy. *)
Theorem copy_is_independent (w : World) (self : loc) (g : GeometryCollection)
    (d : pydict) (aw : pyval) (s t : DOFDescriptor) (k : tag) (v : pyval) :
  nth_error (collections w) self = Some g ->
  nth_error (dicts w) (gc_places g) = Some d ->
  valid_places d ->
  _prepare_auto_where aw (Some g) = Ok (s, t) ->
  exists (new : loc) (w1 : World) (gn : GeometryCollection),
    copy self None aw w = (Ok new, w1)
    /\ nth_error (collections w) new = None
    /\ nth_error (collections w1) new = Some gn
    /\ nth_error (dicts w) (gc_places gn) = None
    /\ nth_error (dicts w1) (gc_places gn) = Some d
    /\ gc_auto_where gn = (s, t)
    /\ gc_caches gn = []
    /\ gc_ambient_dim_memo gn = None
    /\ nth_error (collections w1) self = Some g
    /\ nth_error (dicts w1) (gc_places g) = Some d
    /\ exists w2 : World,
         dict_setitem (gc_places g) k v w1 = (Ok tt, w2)
         /\ get_geometry self k w2 = (Ok v, w2)
         /\ get_geometry new k w2
            = (match dict_get k d with
               | Some x => Ok x
               | None => Raise (KeyError "geometry not in the collection")
               end, w2).
Proof.
  intros Hg Hd Hv Haw.
  assert (Hl : gc_places g < List.length (dicts w)) by (eapply nth_error_bound; eauto).
  assert (Hs : self < List.length (collections w)) by (eapply nth_error_bound; eauto).
  assert (Haw' : _prepare_auto_where
                   (match aw with
                    | VNone => VTuple [VDesc (fst (gc_auto_where g)); VDesc (snd (gc_auto_where g))]
                    | other => other
                    end) None = Ok (s, t)).
  { destruct aw; exact Haw. }
  set (n := List.length (dicts w)).
  set (w0 := mk_world (dicts w ++ [d]) (collections w) (bound_exprs w)).
  assert (Hrun : copy self None aw w
                 = (Ok (List.length (collections w)),
                    mk_world ((dicts w ++ [d]) ++ [[]])
                             (collections w ++ [mk_collection n [] (s, t) None])
                             (bound_exprs w))).
  { unfold GeometryCollection_copy.
    rewrite (bind_M_ok _ _ w w g) by (apply read_collection_ok; assumption).
    rewrite (bind_M_ok _ _ w w0 n)
      by (unfold dict_copy;
          rewrite (bind_M_ok _ _ w w d) by (apply read_dict_ok; assumption);
          reflexivity).
    apply (init_dict_ok is_identifier iskeyword w0 n d _ s t); auto.
    apply nth_error_app_last. }
  rewrite Hrun.
  set (gn := mk_collection n [] (s, t) None).
  set (w1 := mk_world _ _ _).
  assert (Hgn : nth_error (collections w1) (List.length (collections w)) = Some gn)
    by apply nth_error_app_last.
  assert (Hg1 : nth_error (collections w1) self = Some g)
    by (apply nth_error_app_old; assumption).
  assert (Hd1 : nth_error (dicts w1) (gc_places g) = Some d)
    by (simpl; do 2 apply nth_error_app_old; assumption).
  assert (Hdn : nth_error (dicts w1) n = Some d)
    by (simpl; apply nth_error_app_old; apply nth_error_app_last).
  exists (List.length (collections w)), w1, gn.
  split; [reflexivity|].
  split; [apply nth_error_None; lia|].
  split; [exact Hgn|].
  split; [apply nth_error_None; simpl; unfold n; lia|].
  split; [exact Hdn|].
  split; [reflexivity|]. split; [reflexivity|]. split; [reflexivity|].
  split; [exact Hg1|]. split; [exact Hd1|].
  eexists. split; [apply (dict_setitem_run w1 _ d k v Hd1)|].
  split.
  - rewrite (get_geometry_run _ _ g (dict_set k v d) k).
    + rewrite dict_get_set_same. reflexivity.
    + exact Hg1.
    + cbn [dicts]. apply nth_error_update_nth_same. exact Hd1.
  - apply (get_geometry_run _ _ gn d k).
    + exact Hgn.
    + cbn [dicts]. change (gc_places gn) with n.
      rewrite nth_error_update_nth_other; [exact Hdn | unfold n; lia].
Qed.

(** X4.  The constructor never builds a collection from a tuple or a
    list.  A tuple is unpacked into two places first, so a tuple of
    another length is a [ValueError]; the first of two places is then
    to be stored under [auto_source.geometry], and that read raises
    [AttributeError], whatever the two places are.  A list is not
    taken apart at all: it takes the place of the places dictionary and
    fails in the validation pass. *)
Theorem init_sequence_of_places_raises (w : World) (aw : pyval) (s t : DOFDescriptor) :
  _prepare_auto_where aw None = Ok (s, t) ->
  (forall source_discr target_discr : pyval,
      exists w' : World,
        init (VTuple [source_discr; target_discr]) aw w
        = (Raise (AttributeError "DOFDescriptor object has no attribute geometry"), w')
        /\ collections w' = collections w)
  /\ (forall items : list pyval,
        List.length items <> 2 ->
        exists w' : World,
          init (VTuple items) aw w = (Raise (ValueError "unpack"), w')
          /\ collections w' = collections w)
  /\ (forall items : list pyval,
        exists w' : World,
          init (VList items) aw w
          = (Raise (AttributeError "object has no attribute values"), w')
          /\ collections w' = collections w).
Proof.
  intros Haw.
  set (n := List.length (dicts w)).
  set (w1 := mk_world (dicts w ++ [[]]) (collections w) (bound_exprs w)).
  assert (Halloc : alloc_dict [] w = (Ok n, w1)) by reflexivity.
  assert (Hprep : lift (_prepare_auto_where aw None) w1 = (Ok (s, t), w1))
    by (unfold lift; rewrite Haw; reflexivity).
  split; [|split].
  - intros source_discr target_discr. exists w1. split; [|reflexivity].
    unfold GeometryCollection_init.
    rewrite (bind_M_ok _ _ w w1 n Halloc).
    rewrite (bind_M_ok _ _ w1 w1 (s, t) Hprep).
    simpl isinstance_QBXLayerPotentialSource. simpl isinstance_TargetBase.
    simpl isinstance_Discretization. simpl isinstance_PotentialSource.
    cbv iota. simpl orb. cbv iota.
    rewrite (bind_M_ok _ _ w1 w1 (s, t)) by reflexivity.
    apply bind_M_raise. reflexivity.
  - intros items Hlen. exists w1. split; [|reflexivity].
    unfold GeometryCollection_init.
    rewrite (bind_M_ok _ _ w w1 n Halloc).
    rewrite (bind_M_ok _ _ w1 w1 (s, t) Hprep).
    simpl isinstance_QBXLayerPotentialSource. simpl isinstance_TargetBase.
    simpl isinstance_Discretization. simpl isinstance_PotentialSource.
    cbv iota. simpl orb. cbv iota.
    rewrite (bind_M_ok _ _ w1 w1 (s, t)) by reflexivity.
    apply bind_M_raise.
    destruct items as [|a [|b [|c rest]]]; try reflexivity.
    simpl in Hlen. congruence.
  - intros items. exists w1. split; [|reflexivity].
    unfold GeometryCollection_init.
    rewrite (bind_M_ok _ _ w w1 n Halloc).
    rewrite (bind_M_ok _ _ w1 w1 (s, t) Hprep).
    simpl isinstance_QBXLayerPotentialSource. simpl isinstance_TargetBase.
    simpl isinstance_Discretization. simpl isinstance_PotentialSource.
    cbv iota. simpl orb. cbv iota.
    rewrite (bind_M_ok _ _ w1 w1 (s, t)) by reflexivity.
    rewrite (bind_M_ok _ _ w1 w1 (VList items)) by reflexivity.
    reflexivity.
Qed.

End InitValidation.

Lemma init_validates_places_witness :
  ((exists (c : loc) (w' : World),
       GeometryCollection_init ascii_isidentifier python3_iskeyword (VDict 0) VNone broken_world
       = (Ok c, w'))
   <-> valid_places ascii_isidentifier python3_iskeyword broken_places)
  /\ exists w' : World,
       GeometryCollection_init ascii_isidentifier python3_iskeyword (VDict 0) VNone broken_world
       = (Raise (TypeError "Must pass discretization, targets or layer potential sources as places"), w')
       /\ collections w' = collections broken_world.
Proof.
  destruct (init_validates_places ascii_isidentifier python3_iskeyword
              broken_world 0 broken_places VNone _ _ eq_refl eq_refl) as [H1 [H2 _]].
  split; [exact H1|]. apply H2.
  apply Exists_cons_tl. apply Exists_cons_hd. reflexivity.
Defined.

Lemma init_shares_places_dictionary_witness :
  exists (c : loc) (w1 w2 : World),
    GeometryCollection_init ascii_isidentifier python3_iskeyword (VDict 0) VNone mixed_world
    = (Ok c, w1)
    /\ get_geometry c (TagStr "probe") w1
       = (Raise (KeyError "geometry not in the collection"), w1)
    /\ dict_setitem 0 (TagStr "probe") (VGeom points_target) w1 = (Ok tt, w2)
    /\ get_geometry c (TagStr "probe") w2 = (Ok (VGeom points_target), w2).
Proof.
  apply (init_shares_places_dictionary ascii_isidentifier python3_iskeyword
           mixed_world 0 mixed_places VNone _ _ (TagStr "probe") (VGeom points_target)
           eq_refl mixed_places_valid eq_refl).
Defined.

Lemma curve_places_valid : valid_places ascii_isidentifier python3_iskeyword curve_places.
Proof. repeat constructor. Qed.

Lemma copy_is_independent_witness :
  exists (new : loc) (w1 : World) (gn : GeometryCollection),
    GeometryCollection_copy ascii_isidentifier python3_iskeyword 0 None VNone merge_world
    = (Ok new, w1)
    /\ nth_error (collections merge_world) new = None
    /\ nth_error (collections w1) new = Some gn
    /\ nth_error (dicts merge_world) (gc_places gn) = None
    /\ nth_error (dicts w1) (gc_places gn) = Some curve_places
    /\ gc_auto_where gn = default_auto_where
    /\ gc_caches gn = []
    /\ gc_ambient_dim_memo gn = None
    /\ nth_error (collections w1) 0 = Some curve_collection
    /\ nth_error (dicts w1) 0 = Some curve_places
    /\ exists w2 : World,
         dict_setitem 0 (TagStr "far") (VGeom points_target) w1 = (Ok tt, w2)
         /\ get_geometry 0 (TagStr "far") w2 = (Ok (VGeom points_target), w2)
         /\ get_geometry new (TagStr "far") w2
            = (Raise (KeyError "geometry not in the collection"), w2).
Proof.
  apply (copy_is_independent ascii_isidentifier python3_iskeyword
           merge_world 0 curve_collection curve_places VNone _ _
           (TagStr "far") (VGeom points_target)
           eq_refl eq_refl curve_places_valid eq_refl).
Defined.

Lemma init_sequence_of_places_raises_witness :
  (exists w' : World,
      GeometryCollection_init ascii_isidentifier python3_iskeyword
        (VTuple [VGeom curve_2d; VGeom points_target]) VNone empty_world
      = (Raise (AttributeError "DOFDescriptor object has no attribute geometry"), w')
      /\ collections w' = collections empty_world)
  /\ (exists w' : World,
        GeometryCollection_init ascii_isidentifier python3_iskeyword
          (VTuple [VGeom curve_2d]) VNone empty_world
        = (Raise (ValueError "unpack"), w')
        /\ collections w' = collections empty_world)
  /\ (exists w' : World,
        GeometryCollection_init ascii_isidentifier python3_iskeyword
          (VList [VGeom curve_2d; VGeom points_target]) VNone empty_world
        = (Raise (AttributeError "object has no attribute values"), w')
        /\ collections w' = collections empty_world).
Proof.
  destruct (init_sequence_of_places_raises ascii_isidentifier python3_iskeyword
              empty_world VNone _ _ eq_refl) as [H1 [H2 H3]].
  split; [apply H1 | split; [apply H2; simpl; discriminate | apply H3]].
Defined.

(** ** The memoized ambient dimension *)

Lemma map_M_geometry_dims (vs : list pyval) (n : nat) (w : World) :
  (forall v, In v vs -> exists x, v = VGeom x /\ geo_ambient_dim x = n) ->
  map_M (fun p =>
           match p with
           | VGeom x => ret (geo_ambient_dim x)
           | _ => raise (AttributeError "object has no attribute ambient_dim")
           end) vs w
  = (Ok (repeat n (List.length vs)), w).
Proof.
  induction vs as [|v vs IH]; intros H; simpl; auto.
  destruct (H v (or_introl eq_refl)) as [x [-> Hx]].
  unfold bind_M at 1. simpl. unfold bind_M at 1.
  rewrite IH by (intros u Hu; apply H; simpl; auto).
  rewrite Hx. reflexivity.
Qed.

Lemma single_valued_repeat (n k : nat) :
  single_valued (repeat n (S k)) = Ok n.
Proof.
  simpl. replace (forallb (fun other_item => Nat.eqb other_item n) (repeat n k)) with true.
  - reflexivity.
  - symmetry. apply forallb_forall. intros x Hx.
    apply repeat_spec in Hx. subst. apply Nat.eqb_refl.
Qed.

Lemma ambient_dim_memo_hit (c : loc) (g : GeometryCollection) (n : nat) (w : World) :
  nth_error (collections w) c = Some g ->
  gc_ambient_dim_memo g = Some n ->
  ambient_dim c w = (Ok n, w).
Proof.
  intros Hg Hm. unfold ambient_dim.
  rewrite (bind_M_ok _ _ w w g) by (apply read_collection_ok; assumption).
  rewrite Hm. reflexivity.
Qed.

(** X5.  The first read of [ambient_dim] on a collection whose
    geometries share one ambient dimension returns it and leaves the
    dictionaries alone; from then on the property is that value
    whatever the places dictionary holds, also after a geometry of
    another dimension is stored in it.  On a collection without places
    the read raises and memoizes nothing. *)
Theorem ambient_dim_memoized (w : World) (c : loc) (g : GeometryCollection)
    (d : pydict) (n : nat) :
  nth_error (collections w) c = Some g ->
  gc_ambient_dim_memo g = None ->
  nth_error (dicts w) (gc_places g) = Some d ->
  (d <> [] ->
   (forall v, In v (dict_values d) -> exists x, v = VGeom x /\ geo_ambient_dim x = n) ->
   exists w1 : World,
     ambient_dim c w = (Ok n, w1)
     /\ dicts w1 = dicts w
     /\ (forall w2 : World,
           nth_error (collections w2) c = nth_error (collections w1) c ->
           ambient_dim c w2 = (Ok n, w2))
     /\ (forall (k : tag) (x : geometry),
           exists w2 : World,
             dict_setitem (gc_places g) k (VGeom x) w1 = (Ok tt, w2)
             /\ get_geometry c k w2 = (Ok (VGeom x), w2)
             /\ ambient_dim c w2 = (Ok n, w2)))
  /\ (d = [] ->
      ambient_dim c w
      = (Raise (ValueError "empty iterable passed to single_valued"), w)).
Proof.
  intros Hg Hm Hd. split.
  - intros Hne Hall.
    set (g1 := mk_collection (gc_places g) (gc_caches g) (gc_auto_where g) (Some n)).
    set (f := fun g0 => mk_collection (gc_places g0) (gc_caches g0) (gc_auto_where g0) (Some n)).
    set (w1 := mk_world (dicts w) (update_nth c f (collections w)) (bound_exprs w)).
    assert (Hg1 : nth_error (collections w1) c = Some g1)
      by (apply (nth_error_update_nth_same _ c f g Hg)).
    exists w1. split; [|split; [reflexivity|split]].
    + unfold ambient_dim.
      rewrite (bind_M_ok _ _ w w g) by (apply read_collection_ok; assumption).
      rewrite Hm.
      rewrite (bind_M_ok _ _ w w d) by (apply read_dict_ok; assumption).
      rewrite (bind_M_ok _ _ w w _ (map_M_geometry_dims _ n w Hall)).
      destruct d as [|kv d']; [congruence|]. simpl List.length.
      unfold lift. rewrite single_valued_repeat.
      unfold bind_M at 1.
      rewrite (bind_M_ok _ _ w w1 tt)
        by (apply (modify_collection_ok c g); assumption).
      reflexivity.
    + intros w2 H2. apply (ambient_dim_memo_hit c g1 n w2); [congruence | reflexivity].
    + intros k x.
      eexists. split.
      * apply (dict_setitem_run w1 _ d k (VGeom x) Hd).
      * split.
        -- unfold get_geometry.
           rewrite (bind_M_ok _ _ _ _ g1) by (apply read_collection_ok; exact Hg1).
           change (gc_places g1) with (gc_places g).
           rewrite (bind_M_ok _ _ _ _ (dict_set k (VGeom x) d))
             by (apply read_dict_ok; cbn [dicts];
                 apply nth_error_update_nth_same; exact Hd).
           rewrite dict_get_set_same. reflexivity.
        -- apply (ambient_dim_memo_hit c g1 n); [exact Hg1 | reflexivity].
  - intros ->. unfold ambient_dim.
    rewrite (bind_M_ok _ _ w w g) by (apply read_collection_ok; assumption).
    rewrite Hm.
    rewrite (bind_M_ok _ _ w w (@nil (tag * pyval))) by (apply read_dict_ok; assumption).
    reflexivity.
Qed.

Lemma ambient_dim_memoized_witness :
  exists w1 : World,
    ambient_dim 0 merge_world = (Ok 2, w1)
    /\ dicts w1 = dicts merge_world
    /\ (forall w2 : World,
          nth_error (collections w2) 0 = nth_error (collections w1) 0 ->
          ambient_dim 0 w2 = (Ok 2, w2))
    /\ (forall (k : tag) (x : geometry),
          exists w2 : World,
            dict_setitem 0 k (VGeom x) w1 = (Ok tt, w2)
            /\ get_geometry 0 k w2 = (Ok (VGeom x), w2)
            /\ ambient_dim 0 w2 = (Ok 2, w2)).
Proof.
  apply (proj1 (ambient_dim_memoized merge_world 0 curve_collection curve_places 2
                  eq_refl eq_refl eq_refl)).
  - discriminate.
  - intros v [<- | [<- | []]]; eexists; split; reflexivity.
Defined.

(** ** Named caches *)

Lemma cache_ref_neq_cases (r r' : cache_ref) :
  r' <> r ->
  match r, r' with
  | CollectionCache c name, CollectionCache c' name' => c' <> c \/ name' <> name
  | BoundCache b name, BoundCache b' name' => b' <> b \/ name' <> name
  | _, _ => True
  end.
Proof.
  intros Hne. destruct r as [c name | b name], r' as [c' name' | b' name']; auto.
  - destruct (Nat.eq_dec c' c) as [-> | ?]; auto.
    destruct (string_dec name' name) as [-> | ?]; auto.
  - destruct (Nat.eq_dec b' b) as [-> | ?]; auto.
    destruct (string_dec name' name) as [-> | ?]; auto.
Qed.

(** Storing under a key of a cache that exists: the key has the value,
    every other key of the cache and every other cache is as it was. *)
Lemma cache_setitem_lookup (r : cache_ref) (key : expr) (value : pyval) (w : World)
    (ch : cache) :
  cache_of r w = Some ch ->
  exists w' : World,
    cache_setitem r key value w = (Ok tt, w')
    /\ dicts w' = dicts w
    /\ cache_of r w' = Some (cache_set key value ch)
    /\ (forall r', r' <> r -> cache_of r' w' = cache_of r' w).
Proof.
  intros Hch. unfold cache_of in Hch. destruct r as [o name | o name]; simpl.
  - destruct (nth_error (collections w) o) as [g|] eqn:Eg; [|discriminate].
    set (f := fun g0 => set_gc_caches
                          (caches_modify name (cache_set key value) (gc_caches g0)) g0).
    exists (mk_world (dicts w) (update_nth o f (collections w)) (bound_exprs w)).
    split; [apply (modify_collection_ok o g); assumption|].
    split; [reflexivity|]. split.
    + unfold cache_of. cbn [collections].
      rewrite (nth_error_update_nth_same _ o f g Eg). unfold f. simpl.
      rewrite caches_get_modify_same, Hch. reflexivity.
    + intros r' Hne. apply (cache_ref_neq_cases (CollectionCache o name)) in Hne.
      unfold cache_of. cbn [collections bound_exprs].
      destruct r' as [c' name' | b' name']; [|reflexivity].
      destruct (Nat.eq_dec o c') as [<- | Hoc].
      * rewrite (nth_error_update_nth_same _ o f g Eg), Eg. unfold f. simpl.
        apply caches_get_modify_other. destruct Hne; congruence.
      * rewrite nth_error_update_nth_other by assumption. reflexivity.
  - destruct (nth_error (bound_exprs w) o) as [x|] eqn:Ex; [|discriminate].
    set (f := fun x0 => set_be_caches
                          (caches_modify name (cache_set key value) (be_caches x0)) x0).
    exists (mk_world (dicts w) (collections w) (update_nth o f (bound_exprs w))).
    split; [apply (modify_bound_ok o x); assumption|].
    split; [reflexivity|]. split.
    + unfold cache_of. cbn [bound_exprs].
      rewrite (nth_error_update_nth_same _ o f x Ex). unfold f. simpl.
      rewrite caches_get_modify_same, Hch. reflexivity.
    + intros r' Hne. apply (cache_ref_neq_cases (BoundCache o name)) in Hne.
      unfold cache_of. cbn [collections bound_exprs].
      destruct r' as [c' name' | b' name']; [reflexivity|].
      destruct (Nat.eq_dec o b') as [<- | Hoc].
      * rewrite (nth_error_update_nth_same _ o f x Ex), Ex. unfold f. simpl.
        apply caches_get_modify_other. destruct Hne; congruence.
      * rewrite nth_error_update_nth_other by assumption. reflexivity.
Qed.

(** [get_cache] creates at most the cache it is asked for. *)
Lemma get_cache_of_others (r r' : cache_ref) (w w0 : World) :
  get_cache_of r w = (Ok r, w0) -> r' <> r -> cache_of r' w0 = cache_of r' w.
Proof.
  intros Hrun Hne. apply (cache_ref_neq_cases r) in Hne.
  destruct r as [o name | o name]; simpl in Hrun.
  - unfold GeometryCollection_get_cache, bind_M, modify_collection in Hrun.
    destruct (nth_error (collections w) o) as [g|] eqn:Eg; [|discriminate].
    inversion Hrun; subst w0. clear Hrun.
    unfold cache_of. cbn [collections bound_exprs].
    destruct r' as [c' name' | b' name']; [|reflexivity].
    destruct (Nat.eq_dec o c') as [<- | Hoc].
    + erewrite nth_error_update_nth_same by eassumption. rewrite Eg. simpl.
      apply caches_get_setdefault_other. destruct Hne; congruence.
    + rewrite nth_error_update_nth_other by assumption. reflexivity.
  - unfold BoundExpression_get_cache, bind_M, modify_bound in Hrun.
    destruct (nth_error (bound_exprs w) o) as [x|] eqn:Ex; [|discriminate].
    inversion Hrun; subst w0. clear Hrun.
    unfold cache_of. cbn [collections bound_exprs].
    destruct r' as [c' name' | b' name']; [reflexivity|].
    destruct (Nat.eq_dec o b') as [<- | Hoc].
    + erewrite nth_error_update_nth_same by eassumption. rewrite Ex. simpl.
      apply caches_get_setdefault_other. destruct Hne; congruence.
    + rewrite nth_error_update_nth_other by assumption. reflexivity.
Qed.

(** X6.  [get_cache] hands out one dictionary per owner and name: a
    value stored through it is found by every later [get_cache] of
    that owner and name, which changes nothing any more; the other keys
    of the cache keep their values, and no other cache of any
    collection or bound expression changes. *)
Theorem get_cache_one_dictionary_per_name (r : cache_ref) (key : expr) (value : pyval)
    (w : World) :
  owner_exists r w ->
  exists w1 w2 : World,
    get_cache_of r w = (Ok r, w1)
    /\ cache_setitem r key value w1 = (Ok tt, w2)
    /\ get_cache_of r w2 = (Ok r, w2)
    /\ cache_getitem r key w2 = (Ok value, w2)
    /\ (forall k, k <> key -> cache_lookup r k w2 = cache_lookup r k w)
    /\ (forall r' k, r' <> r -> cache_lookup r' k w2 = cache_lookup r' k w).
Proof.
  intros Ho.
  destruct (get_cache_of_run r w Ho) as [w1 [Hget [Hext [[ch Hch] [Hlk _]]]]].
  destruct (cache_setitem_lookup r key value w1 ch Hch) as [w2 [Hset [_ [Hch2 Hoth]]]].
  exists w1, w2.
  split; [exact Hget|]. split; [exact Hset|].
  assert (Ho2 : owner_exists r w2).
  { unfold cache_of in Hch2. destruct r as [o name | o name]; simpl.
    - destruct (nth_error (collections w2) o); [eauto | discriminate].
    - destruct (nth_error (bound_exprs w2) o); [eauto | discriminate]. }
  split.
  { destruct (get_cache_of_run r w2 Ho2) as [w3 [Hget3 [_ [_ [_ Hsame]]]]].
    rewrite (Hsame _ Hch2) in Hget3. exact Hget3. }
  split.
  { apply cache_getitem_hit. unfold cache_lookup. rewrite Hch2.
    apply cache_get_set_same. }
  split.
  - intros k Hk. rewrite <- Hlk. unfold cache_lookup. rewrite Hch2, Hch.
    apply cache_get_set_other. assumption.
  - intros r' k Hne. unfold cache_lookup.
    rewrite (Hoth r' Hne), (get_cache_of_others r r' w w1 Hget Hne). reflexivity.
Qed.

Lemma get_cache_one_dictionary_per_name_witness :
  exists w1 w2 : World,
    get_cache_of (CollectionCache 0 "cse") cse_world = (Ok (CollectionCache 0 "cse"), w1)
    /\ cache_setitem (CollectionCache 0 "cse") (Var "sigma") (VObj 3) w1 = (Ok tt, w2)
    /\ get_cache_of (CollectionCache 0 "cse") w2 = (Ok (CollectionCache 0 "cse"), w2)
    /\ cache_getitem (CollectionCache 0 "cse") (Var "sigma") w2 = (Ok (VObj 3), w2)
    /\ (forall k, k <> Var "sigma" ->
                  cache_lookup (CollectionCache 0 "cse") k w2
                  = cache_lookup (CollectionCache 0 "cse") k cse_world)
    /\ (forall r' k, r' <> CollectionCache 0 "cse" ->
                     cache_lookup r' k w2 = cache_lookup r' k cse_world).
Proof.
  apply (get_cache_one_dictionary_per_name (CollectionCache 0 "cse") (Var "sigma") (VObj 3)
           cse_world).
  exists (mk_collection 0 [] default_auto_where None). reflexivity.
Defined.

(** ** Domains of a linear operator *)

(** X7.  What [_prepare_domains] returns has one entry per result.
    Without declared domains every entry is the default; a declared
    value that is neither a list nor a tuple is repeated as it is; the
    entries of a declared list or tuple are turned into descriptors one
    by one, so the list has to have one entry per result
    ([AssertionError] otherwise), and the first entry that is no
    descriptor, name or default tag raises before the length is looked
    at. *)
Theorem prepare_domains_one_per_result (nresults : nat) (default_domain : pyval) :
  (forall domains doms,
      _prepare_domains nresults domains default_domain = Ok doms ->
      List.length doms = nresults)
  /\ _prepare_domains nresults VNone default_domain = Ok (repeat default_domain nresults)
  /\ (forall domains,
        match domains with VNone | VList _ | VTuple _ => False | _ => True end ->
        _prepare_domains nresults domains default_domain = Ok (repeat domains nresults))
  /\ (forall items doms,
        _prepare_domains nresults (VList items) default_domain = Ok doms
        \/ _prepare_domains nresults (VTuple items) default_domain = Ok doms ->
        List.length items = nresults
        /\ Forall2 (fun d dd => exists x, as_dofdesc d = Ok x /\ dd = VDesc x) items doms)
  /\ (forall items,
        Forall (fun d => exists x, as_dofdesc d = Ok x) items ->
        List.length items <> nresults ->
        _prepare_domains nresults (VList items) default_domain = Raise AssertionError
        /\ _prepare_domains nresults (VTuple items) default_domain = Raise AssertionError)
  /\ (forall before after d e,
        Forall (fun d => exists x, as_dofdesc d = Ok x) before ->
        as_dofdesc d = Raise e ->
        _prepare_domains nresults (VList (before ++ d :: after)) default_domain = Raise e
        /\ _prepare_domains nresults (VTuple (before ++ d :: after)) default_domain = Raise e).
Proof.
  assert (Hlist : forall items doms,
             _prepare_domains nresults (VList items) default_domain = Ok doms ->
             List.length items = nresults
             /\ Forall2 (fun d dd => exists x, as_dofdesc d = Ok x /\ dd = VDesc x) items doms).
  { intros items doms H. unfold _prepare_domains in H.
    match type of H with
    | result_bind ?r _ = _ => destruct r as [dds|e] eqn:Er; simpl in H; [|discriminate]
    end.
    destruct (Nat.eqb (List.length dds) nresults) eqn:El; [|discriminate].
    inversion H; subst dds. apply Nat.eqb_eq in El.
    pose proof (as_dofdescs_ok items doms Er) as HF.
    split; [|exact HF]. rewrite (Forall2_length HF). exact El. }
  split; [|split; [|split; [|split; [|split]]]].
  - intros domains doms H. destruct domains;
      try (simpl in H; inversion H; apply repeat_length).
    + change (_prepare_domains nresults (VList items) default_domain = Ok doms) in H.
      destruct (Hlist items doms H) as [Hl HF]. rewrite <- (Forall2_length HF). exact Hl.
    + destruct (Hlist items doms H) as [Hl HF]. rewrite <- (Forall2_length HF). exact Hl.
  - reflexivity.
  - intros domains Hd. destruct domains; try contradiction; reflexivity.
  - intros items doms [H | H]; apply Hlist; exact H.
  - intros items Hall Hlen.
    destruct (as_dofdescs_all items Hall) as [dds [Hrun Hl]].
    assert (H : _prepare_domains nresults (VList items) default_domain = Raise AssertionError).
    { unfold _prepare_domains. rewrite Hrun. simpl.
      destruct (Nat.eqb (List.length dds) nresults) eqn:E; [|reflexivity].
      apply Nat.eqb_eq in E. congruence. }
    split; exact H.
  - intros before after d e Hb Hd.
    assert (H : _prepare_domains nresults (VList (before ++ d :: after)) default_domain
                = Raise e).
    { unfold _prepare_domains. rewrite (as_dofdescs_first_error before after d e Hb Hd).
      reflexivity. }
    split; exact H.
Qed.

(** ** Shape of what the operator returns *)

Lemma length_set_window_slice {A : Type} (joined vals : list A) (start stop : nat) :
  List.length (py_slice joined start stop) = List.length vals ->
  List.length (set_window joined start vals) = List.length joined.
Proof.
  unfold py_slice, set_window. intros H.
  rewrite length_skipn, length_firstn in H.
  rewrite !length_app, length_firstn, length_skipn. lia.
Qed.

Section OperatorShape.

Variable T : Type.
Variable uninitialized : nat -> T.
Variable discr_nnodes : DOFDescriptor -> result nat.
Variable bound_expr_call : nat -> list (string * value T) -> result (value T).

Lemma join_results_length (table : list (nat * nat)) (items : list (array T))
    (joined out : list T) :
  join_results T joined items table = Ok out ->
  List.length out = List.length joined.
Proof.
  revert items joined. induction table as [|[start stop] table IH]; intros items joined H.
  - destruct items; simpl in H; inversion H; reflexivity.
  - destruct items as [|res_i items]; simpl in H; [inversion H; reflexivity|].
    unfold set_slice in H.
    destruct (Nat.eqb (List.length (py_slice joined start stop))
                      (List.length (arr_data T res_i))) eqn:E; simpl in H; [|discriminate].
    apply Nat.eqb_eq in E.
    rewrite (IH _ _ H). apply (length_set_window_slice _ _ start stop). exact E.
Qed.

(** X8.  An operator with more than one window returns, whenever it
    returns, one array of [total_dofs] entries, on the host for a host
    input and on the device for a device input, however many segments
    the bound expression has handed back. *)
Theorem matvec_split_result_shape (op : MatVecOp T) (x : array T) (v : value T) :
  1 < List.length (mv_starts_and_ends T op) ->
  matvec T uninitialized bound_expr_call op x = Ok v ->
  exists a : array T,
    v = Arr T a
    /\ List.length (arr_data T a) = mv_total_dofs T op
    /\ arr_residency T a = arr_residency T x.
Proof.
  intros Hsplit H. unfold matvec in H.
  apply Nat.ltb_lt in Hsplit. rewrite Hsplit in H.
  destruct (bound_expr_call _ _) as [res|e]; simpl in H; [|discriminate].
  destruct res as [a|items]; simpl in H; [discriminate|].
  destruct (join_results T _ items (mv_starts_and_ends T op)) as [joined|e] eqn:Ej;
    simpl in H; [|discriminate].
  apply join_results_length in Ej. rewrite length_map, length_seq in Ej.
  destruct (arr_residency T x) eqn:Er; inversion H; subst v;
    eexists; split; try reflexivity; split; auto.
Qed.



End OperatorShape.

Lemma matvec_split_result_shape_witness :
  exists a : array nat,
    Arr nat (mk_array nat Host [10; 20; 30; 40; 50]) = Arr nat a
    /\ List.length (arr_data nat a) = 5
    /\ arr_residency nat a = Host.
Proof.
  apply (matvec_split_result_shape nat (fun _ => 0) identity_call
           (mk_matvec nat 0 "u" 5 [(0, 2); (2, 5)] [])
           (mk_array nat Host [10; 20; 30; 40; 50])
           (Arr nat (mk_array nat Host [10; 20; 30; 40; 50]))).
  - simpl. lia.
  - reflexivity.
Defined.

(** ** Binding an expression *)

Lemma bind_M_inv {A B : Type} (m : M A) (k : A -> M B) (w w' : World) (b : B) :
  bind_M m k w = (Ok b, w') ->
  exists (a : A) (w0 : World), m w = (Ok a, w0) /\ k a w0 = (Ok b, w').
Proof.
  unfold bind_M. destruct (m w) as [[a|e] w0]; [eauto | discriminate].
Qed.

Lemma bind_M_assoc {A B C : Type} (m : M A) (f : A -> M B) (k : B -> M C) (w : World) :
  bind_M (bind_M m f) k w = bind_M m (fun a => bind_M (f a) k) w.
Proof.
  unfold bind_M. destruct (m w) as [[a|e] w0]; reflexivity.
Qed.

Lemma bind_M_ext_ok {A B : Type} (m : M A) (k k' : A -> M B) (w : World) :
  (forall a w0, m w = (Ok a, w0) -> k a w0 = k' a w0) ->
  bind_M m k w = bind_M m k' w.
Proof.
  intros H. unfold bind_M. destruct (m w) as [[a|e] w0]; [apply H|]; reflexivity.
Qed.

Lemma bind_M_cong {A B : Type} (m m' : M A) (k : A -> M B) (w : World) :
  m w = m' w -> bind_M m k w = bind_M m' k w.
Proof. intros H. unfold bind_M. rewrite H. reflexivity. Qed.

Section BindingProperties.

Variable is_identifier : string -> bool.
Variable iskeyword : string -> bool.
Variable ToTargetTagger : DOFDescriptor -> DOFDescriptor -> expr -> M expr.
Variable DerivativeBinder : expr -> M expr.
Variable isinstance_LayerPotentialSourceBase : pyval -> bool.
Variable preprocess_optemplate : pyval -> tag -> loc -> expr -> M expr.
Variable InterpolationPreprocessor : loc -> expr -> M expr.
Variable OperatorCompiler : loc -> expr -> M nat.

Local Abbreviation init := (GeometryCollection_init is_identifier iskeyword).
Local Abbreviation prepare :=
  (_prepare_expr ToTargetTagger DerivativeBinder isinstance_LayerPotentialSourceBase
     preprocess_optemplate InterpolationPreprocessor).
Local Abbreviation bind :=
  (bind is_identifier iskeyword ToTargetTagger DerivativeBinder
     isinstance_LayerPotentialSourceBase preprocess_optemplate
     InterpolationPreprocessor OperatorCompiler).

Lemma init_result_is_collection (places aw : pyval) (w w1 : World) (c : loc) :
  init places aw w = (Ok c, w1) ->
  exists g, nth_error (collections w1) c = Some g.
Proof.
  unfold GeometryCollection_init. intros H.
  apply bind_M_inv in H. destruct H as [new_dict [wa [_ H]]].
  apply bind_M_inv in H. destruct H as [aw0 [wb [_ H]]].
  apply bind_M_inv in H. destruct H as [aw1 [wc [_ H]]].
  apply bind_M_inv in H. destruct H as [self_places [wd [_ H]]].
  apply bind_M_inv in H. destruct H as [[] [we [_ H]]].
  destruct self_places; try discriminate.
  unfold alloc_collection in H. inversion H; subst. simpl.
  eexists. apply nth_error_app_last.
Qed.

Lemma prepare_auto_where_own_pair (g : GeometryCollection) :
  _prepare_auto_where
    (VTuple [VDesc (fst (gc_auto_where g)); VDesc (snd (gc_auto_where g))]) (Some g)
  = _prepare_auto_where VNone (Some g).
Proof. unfold _prepare_auto_where. simpl. destruct (gc_auto_where g); reflexivity. Qed.

(** Preparing with the collection's own pair is preparing with no
    pair. *)
Lemma prepare_expr_own_pair (c : loc) (g : GeometryCollection) (e : expr) (w : World) :
  nth_error (collections w) c = Some g ->
  prepare c e (VTuple [VDesc (fst (gc_auto_where g)); VDesc (snd (gc_auto_where g))]) w
  = prepare c e VNone w.
Proof.
  intros Hg. unfold _prepare_expr.
  rewrite !(bind_M_ok _ _ w w g) by (apply read_collection_ok; assumption).
  rewrite prepare_auto_where_own_pair. reflexivity.
Qed.

(** X10.  [bind] on places that are no collection is the constructor
    followed by [bind] on the new collection with no [auto_where] of
    its own: what the constructor rejects is never prepared or
    compiled, and the expression is tagged with the pair the
    constructor settled on.  [bind] on a collection binds to that very
    collection, and the new bound expression starts without caches. *)
Theorem bind_constructs_then_binds (places : pyval) (e : expr) (auto_where : pyval)
    (w : World) :
  (is_collection places = false ->
   bind places e auto_where w
   = (c <- init places auto_where ;; bind (VCollection c) e VNone) w)
  /\ (forall (c b : loc) (w' : World),
        bind (VCollection c) e auto_where w = (Ok b, w') ->
        exists x : BoundExpression,
          nth_error (bound_exprs w') b = Some x
          /\ be_places x = c
          /\ be_caches x = []).
Proof.
  split.
  - intros Hnc.
    assert (Hgen : bind_M
                     (c <- init places auto_where ;;
                      g <- read_collection c ;;
                      ret (c, VTuple [VDesc (fst (gc_auto_where g));
                                      VDesc (snd (gc_auto_where g))]))
                     (fun pa => e' <- prepare (fst pa) e (snd pa) ;;
                                BoundExpression_init OperatorCompiler (fst pa) e') w
                   = (c <- init places auto_where ;; bind (VCollection c) e VNone) w).
    { rewrite bind_M_assoc. apply bind_M_ext_ok. intros c w1 Hinit.
      destruct (init_result_is_collection places auto_where w w1 c Hinit) as [g Hg].
      unfold bind.
      rewrite (bind_M_ok _ _ w1 w1 (c, VTuple [VDesc (fst (gc_auto_where g));
                                               VDesc (snd (gc_auto_where g))]))
        by (rewrite (bind_M_ok _ _ w1 w1 g) by (apply read_collection_ok; assumption);
            reflexivity).
      rewrite (bind_M_ok _ _ w1 w1 (c, VNone)) by reflexivity.
      cbn [fst snd]. apply bind_M_cong. apply prepare_expr_own_pair. exact Hg. }
    destruct places; try discriminate; exact Hgen.
  - intros c b w' H. unfold bind in H.
    rewrite (bind_M_ok _ _ w w (c, auto_where)) in H by reflexivity.
    cbn [fst snd] in H.
    apply bind_M_inv in H. destruct H as [e' [w1 [_ H]]].
    unfold BoundExpression_init in H.
    apply bind_M_inv in H. destruct H as [code [w2 [_ H]]].
    unfold alloc_bound in H. inversion H; subst. simpl.
    eexists. split; [apply nth_error_app_last|]. split; reflexivity.
Qed.

End BindingProperties.

(** ** Sorting, and kernel arguments made hashable *)

Lemma string_leb_refl (s : string) : String.leb s s = true.
Proof. destruct (String.leb_total s s); assumption. Qed.

Lemma string_ltb_lt (a b : string) : String.ltb a b = true <-> String_as_OT.lt a b.
Proof.
  unfold String.ltb. rewrite <- String_as_OT.cmp_lt. unfold String_as_OT.cmp.
  destruct (String.compare a b); split; congruence.
Qed.

Lemma string_leb_ltb (a b : string) : String.leb a b = true <-> String.ltb a b = true \/ a = b.
Proof.
  unfold String.leb, String.ltb.
  destruct (String.compare a b) eqn:E; split; intros H; auto; try discriminate.
  - right. apply String.compare_eq_iff. assumption.
  - destruct H as [H | ->]; [discriminate|].
    pose proof (proj2 (String_as_OT.cmp_eq b b) eq_refl) as Hc.
    unfold String_as_OT.cmp in Hc. congruence.
Qed.

Lemma string_leb_trans (a b c : string) :
  String.leb a b = true -> String.leb b c = true -> String.leb a c = true.
Proof.
  rewrite !string_leb_ltb, !string_ltb_lt.
  intros [Hab | ->] [Hbc | ->]; auto.
  left. eapply String_as_OT.lt_trans; eauto.
Qed.

Section SortedFacts.

Variable A : Type.
Variable leb : A -> A -> bool.
Hypothesis leb_total : forall a b, leb a b = true \/ leb b a = true.
Hypothesis leb_trans : forall a b c, leb a b = true -> leb b c = true -> leb a c = true.

Local Abbreviation le := (fun a b => leb a b = true).

Lemma insert_sorted_perm (x : A) (l : list A) : Permutation (x :: l) (insert_sorted leb x l).
Proof.
  induction l as [|y l IH]; simpl; auto.
  destruct (leb x y); auto.
  eapply perm_trans; [apply perm_swap|]. constructor. assumption.
Qed.

Lemma sorted_perm (l : list A) : Permutation l (sorted leb l).
Proof.
  induction l as [|x l IH]; simpl; auto.
  eapply perm_trans; [|apply insert_sorted_perm]. constructor. assumption.
Qed.

Lemma insert_sorted_sorted (x : A) (l : list A) :
  StronglySorted le l -> StronglySorted le (insert_sorted leb x l).
Proof.
  induction 1 as [|y l Hl IH Hy]; simpl.
  - constructor; constructor.
  - destruct (leb x y) eqn:E.
    + constructor; [constructor; assumption|].
      constructor; [assumption|].
      rewrite Forall_forall in *. intros z Hz. eapply leb_trans; eauto.
    + constructor; [assumption|].
      assert (Hyx : leb y x = true) by (destruct (leb_total x y); congruence).
      rewrite Forall_forall in *. intros z Hz.
      apply (Permutation_in _ (Permutation_sym (insert_sorted_perm x l))) in Hz.
      destruct Hz as [<- | Hz]; auto.
Qed.

Lemma sorted_sorted (l : list A) : StronglySorted le (sorted leb l).
Proof.
  induction l as [|x l IH]; simpl; [constructor | apply insert_sorted_sorted; assumption].
Qed.

Lemma sorted_fixpoint (l : list A) : StronglySorted le l -> sorted leb l = l.
Proof.
  induction 1 as [|x l Hl IH Hx]; simpl; auto.
  rewrite IH. destruct l as [|y l]; simpl; auto.
  inversion Hx; subst. rewrite H1. reflexivity.
Qed.

End SortedFacts.

(** Two lists in key order with the same items, no key twice, are the
    same list. *)
Lemma sorted_items_unique {V : Type} (l1 l2 : list (string * V)) :
  StronglySorted (fun a b => item_leb a b = true) l1 ->
  StronglySorted (fun a b => item_leb a b = true) l2 ->
  NoDup (map fst l1) ->
  Permutation l1 l2 ->
  l1 = l2.
Proof.
  revert l2. induction l1 as [|a l1 IH]; intros l2 H1 H2 Hnd Hp.
  - apply Permutation_nil in Hp. auto.
  - destruct l2 as [|b l2]; [apply Permutation_sym, Permutation_nil in Hp; discriminate|].
    inversion H1 as [|? ? H1' Ha]; subst. inversion H2 as [|? ? H2' Hb]; subst.
    assert (Hab : a = b).
    { assert (Hin_b : In b (a :: l1))
        by (apply (Permutation_in _ (Permutation_sym Hp)); simpl; auto).
      assert (Hin_a : In a (b :: l2)) by (apply (Permutation_in _ Hp); simpl; auto).
      destruct Hin_b as [-> | Hin_b]; auto.
      destruct Hin_a as [-> | Hin_a]; auto.
      rewrite Forall_forall in Ha, Hb.
      pose proof (Ha b Hin_b) as Hle1. pose proof (Hb a Hin_a) as Hle2.
      unfold item_leb in Hle1, Hle2.
      pose proof (String.leb_antisym _ _ Hle1 Hle2) as Hk.
      exfalso. inversion Hnd as [|? ? Hnotin _]; subst. apply Hnotin.
      rewrite Hk. apply in_map. assumption. }
    subst b. f_equal. apply IH; auto.
    + inversion Hnd; assumption.
    + apply Permutation_cons_inv with (a := a). assumption.
Qed.

Lemma keys_strictly_sorted {V : Type} (l : list (string * V)) :
  StronglySorted (fun a b => item_leb a b = true) l ->
  NoDup (map fst l) ->
  StronglySorted (fun a b => String.ltb a b = true) (map fst l).
Proof.
  induction 1 as [|a l Hl IH Ha]; intros Hnd; simpl; constructor.
  - apply IH. inversion Hnd; assumption.
  - inversion Hnd as [|? ? Hnotin _]; subst.
    rewrite Forall_forall in *. intros k Hk.
    apply in_map_iff in Hk. destruct Hk as [b [<- Hb]].
    pose proof (Ha b Hb) as Hle. unfold item_leb in Hle.
    apply string_leb_ltb in Hle. destruct Hle as [Hlt | Heq]; auto.
    exfalso. apply Hnotin. rewrite Heq. apply in_map. assumption.
Qed.

Lemma kw_get_in {V : Type} (k : string) (v : V) (d : kwdict V) :
  NoDup (map fst d) -> (kw_get k d = Some v <-> In (k, v) d).
Proof.
  induction d as [|[k' v'] d IH]; simpl; intros Hnd.
  - split; [discriminate | contradiction].
  - inversion Hnd as [|? ? Hnotin Hnd']; subst.
    destruct (String.eqb k k') eqn:E.
    + apply String.eqb_eq in E. subst k'. split.
      * intros H. inversion H. auto.
      * intros [H | H]; [inversion H; reflexivity|].
        exfalso. apply Hnotin. apply (in_map fst _ _ H).
    + rewrite (IH Hnd'). split; auto.
      intros [H | H]; auto. inversion H; subst.
      rewrite String.eqb_refl in E. discriminate.
Qed.

Lemma kw_get_map {V W : Type} (f : V -> W) (k : string) (d : kwdict V) :
  kw_get k (map (fun kv => (fst kv, f (snd kv))) d) = option_map f (kw_get k d).
Proof.
  induction d as [|[k' v'] d IH]; simpl; auto.
  destruct (String.eqb k k'); auto.
Qed.

Lemma kw_get_perm {V : Type} (k : string) (d1 d2 : kwdict V) :
  NoDup (map fst d1) -> Permutation d1 d2 -> kw_get k d1 = kw_get k d2.
Proof.
  intros Hnd Hp.
  assert (Hnd2 : NoDup (map fst d2))
    by (apply (Permutation_NoDup (Permutation_map fst Hp)); assumption).
  destruct (kw_get k d1) as [v|] eqn:E1.
  - symmetry. apply (kw_get_in k v d2 Hnd2).
    apply (Permutation_in _ Hp). apply (kw_get_in k v d1 Hnd). assumption.
  - destruct (kw_get k d2) as [v|] eqn:E2; auto.
    apply (kw_get_in k v d2 Hnd2) in E2.
    apply (Permutation_in _ (Permutation_sym Hp)) in E2.
    apply (kw_get_in k v d1 Hnd) in E2. congruence.
Qed.

Lemma item_leb_total {V : Type} (a b : string * V) :
  item_leb a b = true \/ item_leb b a = true.
Proof. apply String.leb_total. Qed.

Lemma item_leb_trans {V : Type} (a b c : string * V) :
  item_leb a b = true -> item_leb b c = true -> item_leb a c = true.
Proof. apply string_leb_trans. Qed.

Lemma hashable_kernel_args_map (d : kwdict kernel_arg) :
  hashable_kernel_args d
  = map (fun kv => (fst kv, hashable_value (snd kv))) (sorted item_leb d).
Proof.
  unfold hashable_kernel_args. apply map_ext. intros [k [items|v]]; reflexivity.
Qed.

(** X11.  [hashable_kernel_args] does not depend on the order in which
    the dictionary was filled: two dictionaries with the same items
    give the same tuple.  The tuple lists every name once, in
    increasing order, with the value the dictionary has for it, an
    array having become the tuple of its entries. *)
Theorem hashable_kernel_args_canonical (d1 d2 : kwdict kernel_arg) :
  NoDup (map fst d1) ->
  Permutation d1 d2 ->
  hashable_kernel_args d1 = hashable_kernel_args d2
  /\ StronglySorted (fun a b => String.ltb a b = true) (map fst (hashable_kernel_args d1))
  /\ (forall name, kw_get name (hashable_kernel_args d1)
                   = option_map hashable_value (kw_get name d1))
  /\ Forall (fun kv => is_array (snd kv) = false) (hashable_kernel_args d1).
Proof.
  intros Hnd Hp.
  assert (Hs1 := sorted_sorted _ item_leb item_leb_total item_leb_trans d1).
  assert (Hs2 := sorted_sorted _ item_leb item_leb_total item_leb_trans d2).
  assert (Hp1 := sorted_perm _ item_leb d1).
  assert (Hp2 := sorted_perm _ item_leb d2).
  assert (Hnds : NoDup (map fst (sorted item_leb d1)))
    by (apply (Permutation_NoDup (Permutation_map fst Hp1)); assumption).
  split; [|split; [|split]].
  - unfold hashable_kernel_args. f_equal.
    apply sorted_items_unique; auto.
    eapply perm_trans; [apply Permutation_sym; exact Hp1|].
    eapply perm_trans; [exact Hp | exact Hp2].
  - unfold hashable_kernel_args. rewrite map_map. simpl.
    change (fun x : string * kernel_arg => fst x) with (@fst string kernel_arg).
    apply keys_strictly_sorted; assumption.
  - intros name. rewrite hashable_kernel_args_map, kw_get_map.
    f_equal. symmetry. apply kw_get_perm; assumption.
  - unfold hashable_kernel_args. rewrite Forall_forall. intros kv Hkv.
    apply in_map_iff in Hkv. destruct Hkv as [[k v] [<- _]]. simpl.
    destruct v; reflexivity.
Qed.

Lemma hashable_kernel_args_canonical_witness :
  hashable_kernel_args wave_arguments = hashable_kernel_args wave_arguments_reordered
  /\ hashable_kernel_args wave_arguments
     = [("alpha", KValue (VTuple [VObj 1; VObj 3])); ("k", KValue (VObj 2))].
Proof.
  split; [|reflexivity].
  apply (hashable_kernel_args_canonical wave_arguments wave_arguments_reordered).
  - repeat constructor; simpl; intuition discriminate.
  - apply perm_swap.
Defined.

(** ** Derivatives along reference axes *)

Lemma pair_leb_total (a b : Z * Z) : pair_leb a b = true \/ pair_leb b a = true.
Proof.
  unfold pair_leb.
  destruct (Z.ltb_spec (fst a) (fst b)); auto.
  destruct (Z.ltb_spec (fst b) (fst a)); auto.
  assert (E : fst a = fst b) by lia. rewrite E, Z.eqb_refl. simpl.
  destruct (Z.leb_spec (snd a) (snd b)); auto.
  right. apply Z.leb_le. lia.
Qed.

Lemma pair_leb_spec (a b : Z * Z) :
  pair_leb a b = true
  <-> (fst a < fst b)%Z \/ (fst a = fst b /\ (snd a <= snd b)%Z).
Proof.
  unfold pair_leb.
  rewrite orb_true_iff, andb_true_iff, Z.ltb_lt, Z.eqb_eq, Z.leb_le. tauto.
Qed.

Lemma pair_leb_trans (a b c : Z * Z) :
  pair_leb a b = true -> pair_leb b c = true -> pair_leb a c = true.
Proof. rewrite !pair_leb_spec. lia. Qed.

Lemma pairs_eqb_eq (x y : list (Z * Z)) : pairs_eqb x y = true <-> x = y.
Proof.
  revert y. induction x as [|[a1 a2] x IH]; intros [|[b1 b2] y]; simpl;
    try (split; [discriminate | congruence]); [tauto|].
  unfold pair_eqb. simpl.
  rewrite !andb_true_iff, !Z.eqb_eq, IH. split.
  - intros [[-> ->] ->]. reflexivity.
  - intros H. inversion H. auto.
Qed.

Lemma length_nodup_le {A : Type} (dec : forall x y : A, {x = y} + {x <> y}) (l : list A) :
  List.length (nodup dec l) <= List.length l.
Proof.
  induction l as [|x l IH]; simpl; auto.
  destruct (in_dec dec x l); simpl; lia.
Qed.

Lemma length_nodup_NoDup {A : Type} (dec : forall x y : A, {x = y} + {x <> y}) (l : list A) :
  List.length (nodup dec l) = List.length l <-> NoDup l.
Proof.
  split.
  - induction l as [|x l IH]; simpl; intros H; [constructor|].
    destruct (in_dec dec x l) as [Hin | Hnin].
    + pose proof (length_nodup_le dec l). lia.
    + constructor; auto.
  - intros H. rewrite nodup_fixed_point; auto.
Qed.

Lemma axes_increase_NoDup (axes : list (Z * Z)) :
  axes_increase axes -> NoDup (map fst axes).
Proof.
  induction 1 as [|a l Hl IH Ha]; simpl; constructor; auto.
  intros Hin. apply in_map_iff in Hin. destruct Hin as [b [Hb Hin]].
  rewrite Forall_forall in Ha. specialize (Ha b Hin). lia.
Qed.

Lemma axes_increase_sorted (axes : list (Z * Z)) :
  axes_increase axes -> StronglySorted (fun a b => pair_leb a b = true) axes.
Proof.
  induction 1 as [|a l Hl IH Ha]; constructor; auto.
  rewrite Forall_forall in *. intros b Hb. apply pair_leb_spec. left. auto.
Qed.

Lemma sorted_distinct_increase (axes : list (Z * Z)) :
  StronglySorted (fun a b => pair_leb a b = true) axes ->
  NoDup (map fst axes) ->
  axes_increase axes.
Proof.
  induction 1 as [|a l Hl IH Ha]; intros Hnd; constructor.
  - apply IH. inversion Hnd; assumption.
  - inversion Hnd as [|? ? Hnotin _]; subst.
    rewrite Forall_forall in *. intros b Hb.
    pose proof (Ha b Hb) as Hle. apply pair_leb_spec in Hle.
    destruct Hle as [Hlt | [Heq _]]; auto.
    exfalso. apply Hnotin. rewrite Heq. apply in_map. assumption.
Qed.

Lemma init_tuple_accepts (axes : list (Z * Z)) (operand : expr) (where_ : pyval) :
  axes_increase axes ->
  NumReferenceDerivative_init (RefTuple axes) operand where_
  = Ok (mk_num_reference_derivative axes operand where_).
Proof.
  intros H. unfold NumReferenceDerivative_init.
  rewrite (sorted_fixpoint _ pair_leb axes (axes_increase_sorted axes H)).
  rewrite (proj2 (pairs_eqb_eq axes axes) eq_refl). simpl.
  unfold dict_len.
  rewrite (proj2 (length_nodup_NoDup Z.eq_dec _) (axes_increase_NoDup axes H)).
  rewrite length_map, Nat.eqb_refl. reflexivity.
Qed.

Lemma init_tuple_accepted (axes : list (Z * Z)) (operand : expr) (where_ : pyval)
    (node : NumReferenceDerivative) :
  NumReferenceDerivative_init (RefTuple axes) operand where_ = Ok node ->
  node = mk_num_reference_derivative axes operand where_ /\ axes_increase axes.
Proof.
  unfold NumReferenceDerivative_init. intros H.
  destruct (pairs_eqb (sorted pair_leb axes) axes) eqn:Es; simpl in H; [|discriminate].
  destruct (Nat.eqb (dict_len axes) (List.length axes)) eqn:El; simpl in H; [|discriminate].
  inversion H; subst. split; [reflexivity|].
  apply pairs_eqb_eq in Es. apply Nat.eqb_eq in El.
  apply sorted_distinct_increase.
  - rewrite <- Es. apply sorted_sorted; [apply pair_leb_total | apply pair_leb_trans].
  - unfold dict_len in El. rewrite <- (length_map fst axes) in El.
    apply (length_nodup_NoDup Z.eq_dec). exact El.
Qed.

(** X12.  The constructor takes a tuple of pairs of integers exactly
    when the axes increase strictly from pair to pair.  A tuple that is
    not in the order of its pairs is rejected as not sorted, a tuple in
    order that names an axis twice as naming it more than once, both
    with a [ValueError].  An integer [i] is taken as the tuple
    [((i, 1),)], and an object that is neither an integer nor a tuple is
    a [ValueError]. *)
Theorem ref_axes_validated (operand : expr) (where_ : pyval) :
  (forall axes node,
      NumReferenceDerivative_init (RefTuple axes) operand where_ = Ok node
      <-> (node = mk_num_reference_derivative axes operand where_ /\ axes_increase axes))
  /\ (forall axes,
        ~ StronglySorted (fun a b => pair_leb a b = true) axes ->
        NumReferenceDerivative_init (RefTuple axes) operand where_
        = Raise (ValueError "ref_axes must be sorted"))
  /\ (forall axes,
        StronglySorted (fun a b => pair_leb a b = true) axes ->
        ~ NoDup (map fst axes) ->
        NumReferenceDerivative_init (RefTuple axes) operand where_
        = Raise (ValueError "ref_axes must not contain an axis more than once"))
  /\ (forall i : Z,
        NumReferenceDerivative_init (RefInt i) operand where_
        = Ok (mk_num_reference_derivative [(i, 1%Z)] operand where_))
  /\ NumReferenceDerivative_init RefNotTuple operand where_
     = Raise (ValueError "ref_axes must be a tuple").
Proof.
  split; [|split; [|split; [|split]]].
  - intros axes node. split.
    + apply init_tuple_accepted.
    + intros [-> H]. apply init_tuple_accepts. assumption.
  - intros axes Hns. unfold NumReferenceDerivative_init.
    destruct (pairs_eqb (sorted pair_leb axes) axes) eqn:Es; [|reflexivity].
    exfalso. apply Hns. apply pairs_eqb_eq in Es. rewrite <- Es.
    apply sorted_sorted; [apply pair_leb_total | apply pair_leb_trans].
  - intros axes Hs Hnd. unfold NumReferenceDerivative_init.
    rewrite (sorted_fixpoint _ pair_leb axes Hs).
    rewrite (proj2 (pairs_eqb_eq axes axes) eq_refl). simpl.
    destruct (Nat.eqb (dict_len axes) (List.length axes)) eqn:El; [|reflexivity].
    exfalso. apply Hnd. apply Nat.eqb_eq in El.
    unfold dict_len in El. rewrite <- (length_map fst axes) in El.
    apply (length_nodup_NoDup Z.eq_dec). exact El.
  - intros i. apply (init_tuple_accepts [(i, 1%Z)]). repeat constructor.
  - reflexivity.
Qed.

(** A sorted tuple, the same axes in another order, and an axis named
    twice. *)
Example ref_axes_checks :
  NumReferenceDerivative_init (RefTuple [(0, 2); (1, 1)]%Z) (Var "f") VNone
  = Ok (mk_num_reference_derivative [(0, 2); (1, 1)]%Z (Var "f") VNone)
  /\ NumReferenceDerivative_init (RefTuple [(1, 1); (0, 2)]%Z) (Var "f") VNone
     = Raise (ValueError "ref_axes must be sorted")
  /\ NumReferenceDerivative_init (RefTuple [(0, 1); (0, 2)]%Z) (Var "f") VNone
     = Raise (ValueError "ref_axes must not contain an axis more than once").
Proof. repeat split. Qed.

(** ** Layer potentials *)

Lemma kw_get_set_same {V : Type} (k : string) (v : V) (d : kwdict V) :
  kw_get k (kw_set k v d) = Some v.
Proof.
  induction d as [|[k' v'] d IH]; simpl.
  - rewrite String.eqb_refl. reflexivity.
  - destruct (String.eqb k k') eqn:E; simpl; rewrite E; auto.
Qed.

Lemma kw_get_set_other {V : Type} (k k' : string) (v : V) (d : kwdict V) :
  k <> k' -> kw_get k (kw_set k' v d) = kw_get k d.
Proof.
  intros Hne. induction d as [|[k1 v1] d IH]; simpl.
  - destruct (String.eqb k k') eqn:E; auto. apply String.eqb_eq in E. contradiction.
  - destruct (String.eqb k' k1) eqn:E1; simpl.
    + apply String.eqb_eq in E1. subst k1.
      destruct (String.eqb k k') eqn:E; auto. apply String.eqb_eq in E. contradiction.
    + destruct (String.eqb k k1); auto.
Qed.

Lemma kw_mem_keys {V : Type} (k : string) (d : kwdict V) :
  existsb (String.eqb k) (map fst d) = kw_mem k d.
Proof.
  unfold kw_mem. induction d as [|[k' v'] d IH]; simpl; auto.
  destruct (String.eqb k k'); simpl; auto.
Qed.

Lemma existsb_eqb_in (k : string) (names : list string) :
  existsb (String.eqb k) names = true <-> In k names.
Proof.
  rewrite existsb_exists. split.
  - intros [x [Hx E]]. apply String.eqb_eq in E. subst. assumption.
  - intros H. exists k. split; [assumption | apply String.eqb_refl].
Qed.

Section LayerPotentialProperties.

Variable kernel : Type.
Variable to_kernel_and_args : kernel -> kernel * kwdict kernel_arg.
Variable kernel_arg_names : kernel -> list string.

(** Adding the kernel's own arguments keeps what was there. *)
Lemma add_kernel_arguments_2_keeps (items : list (string * kernel_arg))
    (d d' : kwdict kernel_arg) :
  add_kernel_arguments_2 items d = Ok d' ->
  forall k v, kw_get k d = Some v -> kw_get k d' = Some v.
Proof.
  revert d. induction items as [|[name val] rest IH]; intros d H k v Hk; simpl in H.
  - inversion H; subst. assumption.
  - destruct (kw_mem name d) eqn:Em; [discriminate|].
    apply (IH _ H). rewrite kw_get_set_other; auto.
    intros ->. unfold kw_mem in Em. rewrite Hk in Em. discriminate.
Qed.

Lemma add_kwargs_keeps (names : list string) (items : list (string * kernel_arg))
    (d d' : kwdict kernel_arg) :
  add_kwargs names items d = Ok d' ->
  forall k v, kw_get k d = Some v -> kw_get k d' = Some v.
Proof.
  revert d. induction items as [|[name val] rest IH]; intros d H k v Hk; simpl in H.
  - inversion H; subst. assumption.
  - destruct (kw_mem name d) eqn:Em; [discriminate|].
    destruct (existsb (String.eqb name) names); simpl in H; [|discriminate].
    apply (IH _ H). rewrite kw_get_set_other; auto.
    intros ->. unfold kw_mem in Em. rewrite Hk in Em. discriminate.
Qed.

Lemma add_kwargs_adds (names : list string) (items : list (string * kernel_arg))
    (d d' : kwdict kernel_arg) :
  add_kwargs names items d = Ok d' ->
  forall k v, In (k, v) items ->
              In k names /\ kw_get k d = None /\ kw_get k d' = Some v.
Proof.
  revert d. induction items as [|[name val] rest IH]; intros d H k v Hin; simpl in H.
  - contradiction.
  - destruct (kw_mem name d) eqn:Em; [discriminate|].
    destruct (existsb (String.eqb name) names) eqn:En; simpl in H; [|discriminate].
    destruct Hin as [Heq | Hin].
    + inversion Heq; subst. split; [apply existsb_eqb_in; assumption|].
      split.
      * unfold kw_mem in Em. destruct (kw_get k d); [discriminate | reflexivity].
      * apply (add_kwargs_keeps _ _ _ _ H). apply kw_get_set_same.
    + destruct (IH _ H k v Hin) as [H1 [H2 H3]]. split; [assumption|]. split; [|assumption].
      destruct (String.eqb k name) eqn:E.
      * apply String.eqb_eq in E. subst. rewrite kw_get_set_same in H2. discriminate.
      * rewrite kw_get_set_other in H2; auto.
        intros ->. rewrite String.eqb_refl in E. discriminate.
Qed.

Lemma filter_nil_all {A : Type} (p : A -> bool) (l : list A) :
  filter p l = [] -> forall x, In x l -> p x = false.
Proof.
  induction l as [|a l IH]; simpl; intros H x Hx; [contradiction|].
  destruct (p a) eqn:E; [discriminate|].
  destruct Hx as [<- | Hx]; auto.
Qed.

(** X13.  A layer potential that has been built has one of the six
    values of [qbx_forced_limit], a value for every argument of its
    kernel, and every argument given by keyword is an argument of the
    kernel and was given only once.  The entries of [kernel_arguments]
    are all kept, whether the kernel has an argument of that name or
    not: for them no name is checked. *)
Theorem IntG_init_kernel_arguments (kernel_ : kernel) (density : expr)
    (qbx_forced_limit : forced_limit) (source target : pyval)
    (kernel_arguments : kernel_arguments_arg) (kwargs : kwdict kernel_arg) (op : IntG kernel) :
  IntG_init kernel to_kernel_and_args kernel_arg_names
    kernel_ density qbx_forced_limit source target kernel_arguments kwargs = Ok op ->
  forced_limit_allowed qbx_forced_limit = true
  /\ ig_kernel kernel op = fst (to_kernel_and_args kernel_)
  /\ (forall name, In name (kernel_arg_names (ig_kernel kernel op)) ->
                   exists val, kw_get name (ig_kernel_arguments kernel op) = Some val)
  /\ (forall name val, In (name, val) kwargs ->
                       In name (kernel_arg_names (ig_kernel kernel op))
                       /\ kw_get name (initial_kernel_arguments kernel_arguments) = None
                       /\ kw_get name (ig_kernel_arguments kernel op) = Some val)
  /\ (forall name val,
        kw_get name (initial_kernel_arguments kernel_arguments) = Some val ->
        kw_get name (ig_kernel_arguments kernel op) = Some val).
Proof.
  intros H. unfold IntG_init in H. cbv zeta in H.
  change (match kernel_arguments with
          | ArgsNone => []
          | ArgsTuple pairs => dict_of_pairs pairs
          | ArgsDict d => d
          end) with (initial_kernel_arguments kernel_arguments) in H.
  set (d0 := initial_kernel_arguments kernel_arguments) in *.
  destruct (add_kernel_arguments_2 (snd (to_kernel_and_args kernel_)) d0)
    as [d1|e] eqn:E1; simpl in H; [|discriminate].
  destruct (forced_limit_allowed qbx_forced_limit) eqn:Eq; simpl in H; [|discriminate].
  destruct (add_kwargs (kernel_arg_names (fst (to_kernel_and_args kernel_))) kwargs d1)
    as [d2|e] eqn:E2; simpl in H; [|discriminate].
  match type of H with
  | context [filter ?p ?l] => destruct (filter p l) eqn:Ef; [|discriminate]
  end.
  inversion H; subst op. clear H. simpl.
  split; [reflexivity|]. split; [reflexivity|]. split; [|split].
  - intros name Hin. pose proof (filter_nil_all _ _ Ef name Hin) as Hm.
    apply negb_false_iff in Hm. rewrite kw_mem_keys in Hm. unfold kw_mem in Hm.
    destruct (kw_get name d2) as [val|]; [eauto | discriminate].
  - intros name val Hin.
    destruct (add_kwargs_adds _ _ _ _ E2 name val Hin) as [H1 [H2 H3]].
    split; [assumption|]. split; [|assumption].
    destruct (kw_get name d0) as [v0|] eqn:E0; auto.
    rewrite (add_kernel_arguments_2_keeps _ _ _ E1 name v0 E0) in H2. discriminate.
  - intros name val H0.
    apply (add_kwargs_keeps _ _ _ _ E2).
    apply (add_kernel_arguments_2_keeps _ _ _ E1). assumption.
Qed.

End LayerPotentialProperties.

Lemma IntG_init_kernel_arguments_witness :
  IntG_init nat sample_to_kernel_and_args sample_kernel_arg_names
    0 (Var "sigma") (LimitInt 1) VNone VNone
    (ArgsDict [("lam", KValue (VObj 9))]) [("k", KValue (VObj 2))]
  = Ok sample_layer_potential
  /\ kw_get "lam" (ig_kernel_arguments nat sample_layer_potential) = Some (KValue (VObj 9))
  /\ ~ In "lam" (sample_kernel_arg_names (ig_kernel nat sample_layer_potential)).
Proof.
  split; [reflexivity|]. split.
  - apply (proj2 (proj2 (proj2 (proj2
             (IntG_init_kernel_arguments nat sample_to_kernel_and_args sample_kernel_arg_names
                0 (Var "sigma") (LimitInt 1) VNone VNone
                (ArgsDict [("lam", KValue (VObj 9))]) [("k", KValue (VObj 2))]
                sample_layer_potential eq_refl))))).
    reflexivity.
  - simpl. intuition discriminate.
Defined.

(** ** Assembling a matrix from blocks *)

Lemma single_valued_ok (l : list nat) (x : nat) :
  single_valued l = Ok x <-> l <> [] /\ forall y, In y l -> y = x.
Proof.
  destruct l as [|first others]; simpl.
  - split; [discriminate | intros [H _]; congruence].
  - destruct (forallb (fun o => Nat.eqb o first) others) eqn:E.
    + rewrite forallb_forall in E. split.
      * intros H. inversion H; subst. split; [discriminate|].
        intros y [<- | Hy]; auto. apply Nat.eqb_eq. auto.
      * intros [_ H]. f_equal. apply H. auto.
    + split; [discriminate|]. intros [_ H]. exfalso.
      assert (Hall : forallb (fun o => Nat.eqb o first) others = true).
      { apply forallb_forall. intros y Hy. apply Nat.eqb_eq.
        rewrite (H y (or_intror Hy)). symmetry. apply H. auto. }
      congruence.
Qed.

Lemma map_result_ok {A B : Type} (f : A -> result B) (g : A -> B) (l : list A) :
  (forall a, In a l -> f a = Ok (g a)) -> map_result f l = Ok (map g l).
Proof.
  induction l as [|a l IH]; intros H; simpl; auto.
  rewrite (H a) by (simpl; auto). simpl.
  rewrite IH by (intros; apply H; simpl; auto). reflexivity.
Qed.

Lemma map_result_inv {A B : Type} (f : A -> result B) (l : list A) (bs : list B) :
  map_result f l = Ok bs -> Forall2 (fun a b => f a = Ok b) l bs.
Proof.
  revert bs. induction l as [|a l IH]; intros bs H; simpl in H.
  - inversion H. constructor.
  - destruct (f a) as [b|e] eqn:Ea; simpl in H; [|discriminate].
    destruct (map_result f l) as [bs'|e]; simpl in H; [|discriminate].
    inversion H; subst. constructor; auto.
Qed.

Lemma cumsum_from_offsets (size : nat -> nat) (start n : nat) :
  cumsum_from (block_offset size start) (map size (seq start n))
  = map (block_offset size) (seq (S start) n).
Proof.
  revert start. induction n as [|n IH]; intros start; simpl; auto.
  f_equal. apply (IH (S start)).
Qed.

Lemma cumsum_offsets (size : nat -> nat) (n : nat) :
  cumsum (0 :: map size (seq 0 n)) = map (block_offset size) (seq 0 (S n)).
Proof.
  unfold cumsum. simpl. f_equal.
  apply (cumsum_from_offsets size 0 n).
Qed.

Lemma nth_offsets (size : nat -> nat) (n i : nat) :
  i <= n -> nth i (map (block_offset size) (seq 0 (S n))) 0 = block_offset size i.
Proof.
  intros Hi. rewrite (nth_indep _ 0 (block_offset size 0)) by (rewrite length_map, length_seq; lia).
  rewrite map_nth. rewrite seq_nth by lia. reflexivity.
Qed.

Lemma last_offsets (size : nat -> nat) (n : nat) :
  last (map (block_offset size) (seq 0 (S n))) 0 = block_offset size n.
Proof.
  rewrite seq_S, map_app. simpl. apply last_last.
Qed.

Lemma block_offset_mono (size : nat -> nat) (a b : nat) :
  a <= b -> block_offset size a <= block_offset size b.
Proof. induction 1; simpl; lia. Qed.

(** A point of block [i] lies in no other block. *)
Lemma block_offset_disjoint (size : nat -> nat) (i i' r : nat) :
  i <> i' -> r < size i ->
  ~ (block_offset size i' <= block_offset size i + r
     /\ block_offset size i + r < block_offset size (S i')).
Proof.
  intros Hne Hr [H1 H2].
  destruct (Nat.lt_ge_cases i i') as [Hlt | Hge].
  - pose proof (block_offset_mono size (S i) i' Hlt) as Hm. simpl in Hm. lia.
  - assert (Hlt : S i' <= i) by lia.
    pose proof (block_offset_mono size (S i') i Hlt) as Hm. lia.
Qed.

Lemma flat_map_all_nil {A B : Type} (f : A -> list B) (l : list A) :
  (forall a, In a l -> f a = []) -> flat_map f l = [].
Proof.
  induction l as [|a l IH]; intros H; simpl; auto.
  rewrite (H a) by (simpl; auto). apply IH. intros; apply H; simpl; auto.
Qed.

Section BlockMatrixProperties.

Variable T : Type.
Variable zero : T.
Variable blocks : block_array T.
Variable heights widths : nat -> nat.
Hypothesis Huniform : uniform_blocks blocks heights widths.

Local Abbreviation nrows := (nblock_rows T blocks).
Local Abbreviation ncolumns := (nblock_columns T blocks).
Local Abbreviation rows := (block_offset heights (nblock_rows T blocks)).
Local Abbreviation columns := (block_offset widths (nblock_columns T blocks)).
Local Abbreviation written := (written zero blocks heights widths).

Lemma row_height_ok (i : nat) :
  i < nrows -> block_row_height T blocks i = Ok (heights i).
Proof.
  intros Hi. destruct Huniform as [Hrow [_ Hshape]].
  unfold block_row_height. apply single_valued_ok. split.
  - destruct (Hrow i Hi) as [j [a [Hj Ha]]].
    intros Hnil.
    assert (Hin : In (shape0 T a)
                     (flat_map (fun ibcol =>
                                  match block_at T blocks i ibcol with
                                  | ArrayBlock _ a => [shape0 T a]
                                  | ZeroBlock _ => []
                                  end) (seq 0 ncolumns))).
    { apply in_flat_map. exists j. split; [apply in_seq; lia|].
      rewrite Ha. simpl. auto. }
    rewrite Hnil in Hin. contradiction.
  - intros y Hy. apply in_flat_map in Hy. destruct Hy as [j [Hj Hy]].
    apply in_seq in Hj.
    destruct (block_at T blocks i j) as [|a] eqn:Ea; simpl in Hy; [contradiction|].
    destruct Hy as [<- | []]. apply (Hshape i j a); auto. lia.
Qed.

Lemma column_width_ok (j : nat) :
  j < ncolumns -> block_column_width T blocks j = Ok (widths j).
Proof.
  intros Hj. destruct Huniform as [_ [Hcol Hshape]].
  unfold block_column_width. apply single_valued_ok. split.
  - destruct (Hcol j Hj) as [i [a [Hi Ha]]].
    intros Hnil.
    assert (Hin : In (shape1 T a)
                     (flat_map (fun ibrow =>
                                  match block_at T blocks ibrow j with
                                  | ArrayBlock _ a => [shape1 T a]
                                  | ZeroBlock _ => []
                                  end) (seq 0 nrows))).
    { apply in_flat_map. exists i. split; [apply in_seq; lia|].
      rewrite Ha. simpl. auto. }
    rewrite Hnil in Hin. contradiction.
  - intros y Hy. apply in_flat_map in Hy. destruct Hy as [i [Hi Hy]].
    apply in_seq in Hi.
    destruct (block_at T blocks i j) as [|a] eqn:Ea; simpl in Hy; [contradiction|].
    destruct Hy as [<- | []]. apply (Hshape i j a); auto. lia.
Qed.

Lemma assign_block_written (res : ndarray T) (i j : nat) :
  i < nrows -> j < ncolumns ->
  written res j i ->
  exists res',
    assign_block T zero res
      (block_offset heights i) (block_offset heights (i + 1))
      (block_offset widths j) (block_offset widths (j + 1))
      (block_at T blocks i j) = Ok res'
    /\ written res' j (S i).
Proof.
  intros Hi Hj [Hs0 [Hs1 Hw]].
  destruct Huniform as [_ [_ Hshape]].
  assert (Hr1 : block_offset heights (i + 1) <= rows)
    by (apply block_offset_mono; lia).
  assert (Hc1 : block_offset widths (j + 1) <= columns)
    by (apply block_offset_mono; lia).
  assert (Hr0 : block_offset heights (i + 1) = block_offset heights i + heights i)
    by (rewrite Nat.add_1_r; reflexivity).
  assert (Hc0 : block_offset widths (j + 1) = block_offset widths j + widths j)
    by (rewrite Nat.add_1_r; reflexivity).
  unfold assign_block. rewrite Hs0, Hs1.
  rewrite (Nat.min_l _ _ Hr1), (Nat.min_l _ _ Hc1).
  rewrite (Nat.min_l (block_offset heights i)) by lia.
  rewrite (Nat.min_l (block_offset widths j)) by lia.
  replace (block_offset heights (i + 1) - block_offset heights i) with (heights i) by lia.
  replace (block_offset widths (j + 1) - block_offset widths j) with (widths j) by lia.
  set (inside := fun r c =>
         Nat.leb (block_offset heights i) r && Nat.ltb r (block_offset heights (i + 1))
         && Nat.leb (block_offset widths j) c && Nat.ltb c (block_offset widths (j + 1))).
  assert (Hin : forall r c, r < heights i -> c < widths j ->
             inside (block_offset heights i + r) (block_offset widths j + c) = true).
  { intros r c Hr Hc. unfold inside.
    rewrite !andb_true_iff, !Nat.leb_le, !Nat.ltb_lt. lia. }
  assert (Hout : forall i' j' r c, r < heights i' -> c < widths j' ->
             (i', j') <> (i, j) ->
             inside (block_offset heights i' + r) (block_offset widths j' + c) = false).
  { intros i' j' r c Hr Hc Hne. unfold inside. apply not_true_is_false. intros Ht.
    rewrite !andb_true_iff, !Nat.leb_le, !Nat.ltb_lt in Ht. rewrite !Nat.add_1_r in Ht.
    destruct (Nat.eq_dec i' i) as [-> | Hi'].
    - assert (Hj' : j' <> j) by congruence.
      apply (block_offset_disjoint widths j' j c Hj' Hc). lia.
    - apply (block_offset_disjoint heights i' i r Hi' Hr). lia. }
  assert (Hkeep : forall (f : nat -> nat -> T) i' j' r c,
             i' < nrows -> j' < ncolumns ->
             j' < j \/ (j' = j /\ i' < S i) ->
             r < heights i' -> c < widths j' ->
             (forall r0 c0, r0 < heights i -> c0 < widths j ->
                            f (block_offset heights i + r0) (block_offset widths j + c0)
                            = block_item zero (block_at T blocks i j) r0 c0) ->
             (if inside (block_offset heights i' + r) (block_offset widths j' + c)
              then f (block_offset heights i' + r) (block_offset widths j' + c)
              else item T res (block_offset heights i' + r) (block_offset widths j' + c))
             = block_item zero (block_at T blocks i' j') r c).
  { intros f i' j' r c Hi' Hj' Hdone Hr Hc Hf.
    destruct (Nat.eq_dec i' i) as [-> | Hne_i].
    - destruct (Nat.eq_dec j' j) as [-> | Hne_j].
      + rewrite Hin by assumption. apply Hf; assumption.
      + rewrite Hout by (auto; congruence). apply Hw; auto. lia.
    - rewrite Hout by (auto; congruence). apply Hw; auto. lia. }
  destruct (block_at T blocks i j) as [|a] eqn:Eb.
  - eexists. split; [reflexivity|].
    split; [reflexivity|]. split; [reflexivity|].
    intros i' j' r c Hi' Hj' Hdone Hr Hc. cbn [item].
    apply (Hkeep (fun _ _ => zero)); auto.
  - destruct (Hshape i j a Hi Hj Eb) as [Ha0 Ha1].
    unfold broadcastable. rewrite Ha0, Ha1, !Nat.eqb_refl. simpl.
    eexists. split; [reflexivity|].
    split; [reflexivity|]. split; [reflexivity|].
    intros i' j' r c Hi' Hj' Hdone Hr Hc. cbn [item].
    apply (Hkeep (fun r1 c1 => item T a (r1 - block_offset heights i)
                                        (c1 - block_offset widths j))); auto.
    intros r0 c0 _ _. simpl. f_equal; lia.
Qed.

Lemma column_written (res : ndarray T) (j k : nat) :
  j < ncolumns -> k <= nrows ->
  written res j k ->
  exists res',
    fold_result
      (fun result_ ibrow =>
         assign_block T zero result_
           (block_offset heights ibrow) (block_offset heights (ibrow + 1))
           (block_offset widths j) (block_offset widths (j + 1))
           (block_at T blocks ibrow j))
      (seq k (nrows - k)) res = Ok res'
    /\ written res' j nrows.
Proof.
  intros Hj. remember (nrows - k) as n eqn:Hn. revert k res Hn.
  induction n as [|n IH]; intros k res Hn Hk Hw; simpl.
  - exists res. split; [reflexivity|]. replace nrows with k by lia. assumption.
  - destruct (assign_block_written res k j) as [res1 [H1 Hw1]]; [lia | assumption | assumption |].
    rewrite H1. simpl. apply IH; [lia | lia | assumption].
Qed.

Lemma written_next_column (res : ndarray T) (j : nat) :
  written res j nrows -> written res (S j) 0.
Proof.
  intros [H0 [H1 Hw]]. split; [assumption|]. split; [assumption|].
  intros i' j' r c Hi' Hj' Hdone Hr Hc. apply Hw; auto.
  destruct Hdone as [Hlt | [_ Hlt]]; [|lia].
  destruct (Nat.eq_dec j' j); [right; split; assumption | left; lia].
Qed.

Lemma columns_written (res : ndarray T) (j : nat) :
  j <= ncolumns ->
  written res j 0 ->
  exists res',
    fold_result
      (fun result_ ibcol =>
         fold_result
           (fun result_ ibrow =>
              assign_block T zero result_
                (block_offset heights ibrow) (block_offset heights (ibrow + 1))
                (block_offset widths ibcol) (block_offset widths (ibcol + 1))
                (block_at T blocks ibrow ibcol))
           (seq 0 nrows) result_)
      (seq j (ncolumns - j)) res = Ok res'
    /\ written res' ncolumns 0.
Proof.
  remember (ncolumns - j) as n eqn:Hn. revert j res Hn.
  induction n as [|n IH]; intros j res Hn Hj Hw; simpl.
  - exists res. split; [reflexivity|]. replace ncolumns with j by lia. assumption.
  - destruct (column_written res j 0) as [res1 [H1 Hw1]]; [lia | lia | assumption |].
    rewrite Nat.sub_0_r in H1. rewrite H1. simpl.
    apply IH; [lia | lia | apply written_next_column; assumption].
Qed.

Lemma fold_result_ext {A S : Type} (f g : S -> A -> result S) (l : list A) (s : S) :
  (forall s0 a, In a l -> f s0 a = g s0 a) ->
  fold_result f l s = fold_result g l s.
Proof.
  revert s. induction l as [|a l IH]; intros s H; simpl; auto.
  rewrite (H s a) by (simpl; auto).
  destruct (g s a); simpl; auto. apply IH. intros; apply H; simpl; auto.
Qed.

Lemma bmat_run :
  exists res,
    _bmat T zero blocks = Ok res
    /\ shape0 T res = rows /\ shape1 T res = columns
    /\ forall i j r c,
         i < nrows -> j < ncolumns -> r < heights i -> c < widths j ->
         item T res (block_offset heights i + r) (block_offset widths j + c)
         = block_item zero (block_at T blocks i j) r c.
Proof.
  unfold _bmat. cbv zeta.
  rewrite (map_result_ok _ heights) by (intros i Hi; apply in_seq in Hi; apply row_height_ok; lia).
  cbn [result_bind]. cbv beta.
  rewrite (map_result_ok _ widths) by (intros j Hj; apply in_seq in Hj; apply column_width_ok; lia).
  cbn [result_bind]. cbv beta.
  rewrite !cumsum_offsets, !last_offsets.
  set (res0 := mk_ndarray T rows columns (fun _ _ => zero)).
  assert (Hw0 : written res0 0 0).
  { split; [reflexivity|]. split; [reflexivity|]. intros; lia. }
  destruct (columns_written res0 0 (Nat.le_0_l _) Hw0) as [res [Hrun [H0 [H1 Hw]]]].
  rewrite Nat.sub_0_r in Hrun.
  exists res. split.
  - rewrite <- Hrun. apply fold_result_ext. intros s0 j Hj. apply in_seq in Hj.
    apply fold_result_ext. intros s1 i Hi. apply in_seq in Hi.
    rewrite !nth_offsets by lia. reflexivity.
  - split; [assumption|]. split; [assumption|].
    intros i j r c Hi Hj Hr Hc. apply Hw; auto.
Qed.

End BlockMatrixProperties.

Lemma Forall2_seq_nth {B : Type} (P : nat -> B -> Prop) (n : nat) (bs : list B) (d : B) :
  Forall2 P (seq 0 n) bs -> forall i, i < n -> P i (nth i bs d).
Proof.
  intros H.
  assert (Hgen : forall start l, Forall2 P (seq start n) l ->
                                 forall i, i < n -> P (start + i) (nth i l d)).
  { clear H bs. induction n as [|m IH]; intros start l H i Hi; [lia|].
    simpl in H. inversion H as [|? b ? l' Hb Hrest]; subst.
    destruct i as [|i]; simpl.
    - rewrite Nat.add_0_r. assumption.
    - rewrite <- Nat.add_succ_comm. apply IH; [assumption | lia]. }
  intros i Hi. apply (Hgen 0 bs H i Hi).
Qed.

(** X14.  [_bmat] returns a matrix exactly when every block row and
    every block column holds an array and the arrays of one block row
    have the same number of rows, those of one block column the same
    number of columns.  The matrix then has the heights of the block
    rows and the widths of the block columns added up as its shape, and
    block (i, j) is found in it where the blocks before it end: as it
    is if it is an array, as zeros if it is the number 0.  A first
    block row without an array is a [ValueError]. *)
Theorem bmat_assembles_blocks (T : Type) (zero : T) (blocks : block_array T) :
  (forall heights widths : nat -> nat,
      uniform_blocks blocks heights widths ->
      exists res : ndarray T,
        _bmat T zero blocks = Ok res
        /\ shape0 T res = block_offset heights (nblock_rows T blocks)
        /\ shape1 T res = block_offset widths (nblock_columns T blocks)
        /\ forall i j r c,
             i < nblock_rows T blocks -> j < nblock_columns T blocks ->
             r < heights i -> c < widths j ->
             item T res (block_offset heights i + r) (block_offset widths j + c)
             = block_item zero (block_at T blocks i j) r c)
  /\ (forall res : ndarray T,
        _bmat T zero blocks = Ok res ->
        exists heights widths : nat -> nat, uniform_blocks blocks heights widths)
  /\ (0 < nblock_rows T blocks ->
      (forall j, j < nblock_columns T blocks -> block_at T blocks 0 j = ZeroBlock T) ->
      _bmat T zero blocks
      = Raise (ValueError "empty iterable passed to single_valued")).
Proof.
  split; [|split].
  - intros heights widths H. apply (bmat_run T zero blocks heights widths H).
  - intros res H. unfold _bmat in H.
    destruct (map_result (block_row_height T blocks) (seq 0 (nblock_rows T blocks)))
      as [hs|e] eqn:Eh; simpl in H; [|discriminate].
    destruct (map_result (block_column_width T blocks) (seq 0 (nblock_columns T blocks)))
      as [ws|e] eqn:Ew; simpl in H; [|discriminate].
    clear H.
    apply map_result_inv in Eh. apply map_result_inv in Ew.
    pose proof (Forall2_seq_nth _ _ _ 0 Eh) as Hh.
    pose proof (Forall2_seq_nth _ _ _ 0 Ew) as Hw.
    exists (fun i => nth i hs 0), (fun j => nth j ws 0).
    split; [|split].
    + intros i Hi. specialize (Hh i Hi). unfold block_row_height in Hh.
      apply single_valued_ok in Hh. destruct Hh as [Hne _].
      destruct (flat_map _ _) as [|x rest] eqn:Ef; [congruence|].
      assert (Hin : In x (x :: rest)) by (simpl; auto).
      rewrite <- Ef in Hin. apply in_flat_map in Hin. destruct Hin as [j [Hj Hx]].
      apply in_seq in Hj.
      destruct (block_at T blocks i j) as [|a] eqn:Ea; [contradiction|].
      exists j, a. split; [lia | exact Ea].
    + intros j Hj. specialize (Hw j Hj). unfold block_column_width in Hw.
      apply single_valued_ok in Hw. destruct Hw as [Hne _].
      destruct (flat_map _ _) as [|x rest] eqn:Ef; [congruence|].
      assert (Hin : In x (x :: rest)) by (simpl; auto).
      rewrite <- Ef in Hin. apply in_flat_map in Hin. destruct Hin as [i [Hi Hx]].
      apply in_seq in Hi.
      destruct (block_at T blocks i j) as [|a] eqn:Ea; [contradiction|].
      exists i, a. split; [lia | exact Ea].
    + intros i j a Hi Hj Ha. split.
      * specialize (Hh i Hi). unfold block_row_height in Hh.
        apply single_valued_ok in Hh. destruct Hh as [_ Hall].
        apply Hall. apply in_flat_map. exists j. split; [apply in_seq; lia|].
        rewrite Ha. simpl. auto.
      * specialize (Hw j Hj). unfold block_column_width in Hw.
        apply single_valued_ok in Hw. destruct Hw as [_ Hall].
        apply Hall. apply in_flat_map. exists i. split; [apply in_seq; lia|].
        rewrite Ha. simpl. auto.
  - intros Hpos Hzero. unfold _bmat.
    destruct (nblock_rows T blocks) as [|n] eqn:En; [lia|].
    simpl seq. simpl map_result.
    assert (Hrow : block_row_height T blocks 0
                   = Raise (ValueError "empty iterable passed to single_valued")).
    { unfold block_row_height.
      replace (flat_map _ (seq 0 (nblock_columns T blocks))) with (@nil nat); [reflexivity|].
      symmetry. apply flat_map_all_nil. intros j Hj. apply in_seq in Hj.
      rewrite Hzero by lia. reflexivity. }
    rewrite Hrow. reflexivity.
Qed.

(** ** The Jacobian with respect to reference coordinates *)

(** X17.  [reference_jacobian] never trips over the checks of
    [NumReferenceDerivative]: when [func] has [output_dim] components
    it returns [output_dim] rows of [dim] entries, and entry (i, j)
    takes one derivative of component [i] along reference axis [j];
    when [func] is shorter, looking up the first missing component
    raises. *)
Theorem reference_jacobian_entries (func : list expr) (output_dim dim : nat)
    (where_ : pyval) :
  (output_dim <= List.length func ->
   exists jac : list (list NumReferenceDerivative),
     reference_jacobian func output_dim dim where_ = Ok jac
     /\ List.length jac = output_dim
     /\ forall i func_component,
          i < output_dim -> nth_error func i = Some func_component ->
          exists row,
            nth_error jac i = Some row
            /\ List.length row = dim
            /\ forall j, j < dim ->
                 nth_error row j
                 = Some (mk_num_reference_derivative [(Z.of_nat j, 1%Z)]
                           func_component where_))
  /\ (List.length func < output_dim ->
      reference_jacobian func output_dim dim where_
      = Raise (ExternalError "IndexError" (List.length func))).
Proof.
  split.
  - intros Hlen.
    set (entry := fun (c : expr) (j : nat) =>
                    mk_num_reference_derivative [(Z.of_nat j, 1%Z)] c where_).
    set (row_of := fun i => map (entry (nth i func (Var ""))) (seq 0 dim)).
    assert (Hrun : reference_jacobian func output_dim dim where_
                   = Ok (map row_of (seq 0 output_dim))).
    { unfold reference_jacobian. apply map_result_ok. intros i Hi. apply in_seq in Hi.
      destruct (nth_error func i) as [c|] eqn:Ec.
      - unfold row_of. rewrite (nth_error_nth _ _ _ Ec).
        apply map_result_ok. intros j _.
        apply (init_tuple_accepts [(Z.of_nat j, 1%Z)]). repeat constructor.
      - apply nth_error_None in Ec. lia. }
    eexists. split; [exact Hrun|]. split; [rewrite length_map, length_seq; reflexivity|].
    intros i c Hi Hc. exists (row_of i). split; [|split].
    + rewrite nth_error_map, nth_error_seq.
      apply Nat.ltb_lt in Hi. rewrite Hi. reflexivity.
    + unfold row_of. rewrite length_map, length_seq. reflexivity.
    + intros j Hj. unfold row_of. rewrite (nth_error_nth _ _ _ Hc).
      rewrite nth_error_map, nth_error_seq.
      apply Nat.ltb_lt in Hj. rewrite Hj. reflexivity.
  - intros Hlen. unfold reference_jacobian.
    assert (Hgen : forall start n,
               start <= List.length func -> List.length func < start + n ->
               map_result
                 (fun i =>
                    match nth_error func i with
                    | Some func_component =>
                        map_result
                          (fun j => NumReferenceDerivative_init (RefInt (Z.of_nat j))
                                      func_component where_)
                          (seq 0 dim)
                    | None => Raise (ExternalError "IndexError" i)
                    end)
                 (seq start n)
               = Raise (ExternalError "IndexError" (List.length func))).
    { intros start n. revert start. induction n as [|n IH]; intros start H1 H2; [lia|].
      simpl. destruct (nth_error func start) as [c|] eqn:Ec.
      - assert (Hs : start < List.length func) by (apply nth_error_Some; congruence).
        rewrite (map_result_ok _ (fun j => mk_num_reference_derivative
                                             [(Z.of_nat j, 1%Z)] c where_))
          by (intros j _; apply (init_tuple_accepts [(Z.of_nat j, 1%Z)]); repeat constructor).
        simpl. rewrite IH by lia. reflexivity.
      - apply nth_error_None in Ec. assert (start = List.length func) by lia.
        subst start. reflexivity. }
    apply Hgen; lia.
Qed.

(** ** Scopes of common subexpressions across bound expressions *)

Lemma cached_eval_stores (rec : EvaluationMapperBase -> expr -> M pyval)
    (self : EvaluationMapperBase) (r : cache_ref) (child : expr) (w w' : World) (v : pyval) :
  (forall w0 r0 w1, rec self child w0 = (r0, w1) -> extends w0 w1) ->
  cached_eval rec self r child w = (Ok v, w') ->
  extends w w' /\ cache_lookup r child w' = Some v.
Proof.
  intros Hrec Hrun.
  destruct (cached_eval_grows rec self r child w w' (Ok v) Hrec Hrun) as [Hext Hst].
  split; [assumption|].
  destruct (cache_lookup r child w) as [u|] eqn:Hlk.
  - rewrite (cached_eval_hit rec self r child u w Hlk) in Hrun.
    inversion Hrun; subst. assumption.
  - apply Hst; reflexivity.
Qed.

(** X16.  A common subexpression of discretization scope that one bound
    expression has evaluated is served from the collection's cache to
    every other bound expression over that collection, which evaluates
    nothing; one of expression scope is not: a second bound expression
    that has not evaluated it yet evaluates the child itself. *)
Theorem cse_scope_decides_sharing (rec : EvaluationMapperBase -> expr -> M pyval)
    (self1 self2 : EvaluationMapperBase) (child : expr) (w w1 : World) (v : pyval)
    (b1 b2 : BoundExpression) (g : GeometryCollection) :
  (forall w0 r0 w', rec self1 child w0 = (r0, w') -> extends w0 w') ->
  nth_error (bound_exprs w) (em_bound_expr self1) = Some b1 ->
  nth_error (bound_exprs w) (em_bound_expr self2) = Some b2 ->
  nth_error (collections w) (em_places self1) = Some g ->
  em_places self2 = em_places self1 ->
  em_bound_expr self2 <> em_bound_expr self1 ->
  (map_common_subexpression rec self1 child cse_scope.DISCRETIZATION w = (Ok v, w1) ->
   forall rec',
     map_common_subexpression rec' self2 child cse_scope.DISCRETIZATION w1 = (Ok v, w1))
  /\ (map_common_subexpression rec self1 child cse_scope.EXPRESSION w = (Ok v, w1) ->
      cache_lookup (BoundCache (em_bound_expr self2) "cse") child w1 = None ->
      forall rec',
        map_common_subexpression rec' self2 child cse_scope.EXPRESSION w1
        = (BoundExpression_get_cache (em_bound_expr self2) "cse" ;;;
           (value <- rec' self2 child ;;
            cache_setitem (BoundCache (em_bound_expr self2) "cse") child value ;;;
            ret value)) w1).
Proof.
  intros Hrec Hb1 Hb2 Hg Hplaces Hne. split.
  - intros Hrun rec'.
    change (cached_eval rec self1 (CollectionCache (em_places self1) "cse") child w
            = (Ok v, w1)) in Hrun.
    destruct (cached_eval_stores rec self1 _ child w w1 v Hrec Hrun) as [_ Hlk].
    change (cached_eval rec' self2 (CollectionCache (em_places self2) "cse") child w1
            = (Ok v, w1)).
    rewrite Hplaces. apply cached_eval_hit. assumption.
  - intros Hrun Hmiss rec'.
    change (cached_eval rec self1 (BoundCache (em_bound_expr self1) "cse") child w
            = (Ok v, w1)) in Hrun.
    destruct (cached_eval_stores rec self1 _ child w w1 v Hrec Hrun) as [[_ Hext] _].
    destruct (Hext _ _ Hb2) as [x2 [Hx2 _]].
    change (cached_eval rec' self2 (BoundCache (em_bound_expr self2) "cse") child w1
            = (get_cache_of (BoundCache (em_bound_expr self2) "cse") ;;;
               (value <- rec' self2 child ;;
                cache_setitem (BoundCache (em_bound_expr self2) "cse") child value ;;;
                ret value)) w1).
    apply cached_eval_miss; [|assumption]. simpl. eauto.
Qed.

Lemma cse_scope_decides_sharing_witness :
  map_common_subexpression failing_rec second_mapper (Var "f") cse_scope.DISCRETIZATION
    (world_after_cse cse_scope.DISCRETIZATION)
  = (Ok (VObj 5), world_after_cse cse_scope.DISCRETIZATION)
  /\ fst (map_common_subexpression failing_rec second_mapper (Var "f") cse_scope.EXPRESSION
            (world_after_cse cse_scope.EXPRESSION))
     = Raise (ExternalError "UnknownVariableError" 0).
Proof.
  destruct (cse_scope_decides_sharing sample_rec first_mapper second_mapper (Var "f")
              inverse_world (world_after_cse cse_scope.DISCRETIZATION) (VObj 5)
              (mk_bound 0 (Var "u") [] 0 (Some VNone)) (mk_bound 0 (Var "v") [] 1 None)
              (mk_collection 0 [] default_auto_where None)
              (sample_rec_grows first_mapper (Var "f")) eq_refl eq_refl eq_refl eq_refl)
    as [H _]; [discriminate|].
  split; [apply H; reflexivity | reflexivity].
Defined.
